(** * Kai: FLIP fluid simulator -- the per-step pipeline of [src/sim/flip.cpp]

    A shallow embedding of [flipsim] (file [flip.cpp]) and the properties of
    its step phases.

    - C++ [float] is IEEE binary32: [SpecFloat]'s operations at precision 24
      and maximal exponent 128, round to nearest even.
    - [unsigned int] is a [Z] in [0, 2^32) with the wrap-around written out;
      an index stored in a [vec3] is converted to [float] and back.
    - [vector<particle*>] is a [list particle]; a particle pointer is its
      index in that list, so that aliasing is kept.
    - [tbb::parallel_for] over an index range is run in index order; the
      bodies of [flip.cpp] write disjoint locations, and the lemmas below
      that need it show that the order is immaterial.
    - The grid classes ([grid.hpp]), the particle grid, the scene and the
      helper headers ([particlegridoperations.inl], [solver.inl], ...) are
      not part of [flip.cpp]; they are parameters (type classes [GridOps],
      [GridLaws] and [Collaborators]). *)

From Stdlib Require Import ZArith List Bool Lia.
From Stdlib Require Import Floats.SpecFloat.
From stdpp Require Import gmap list.

Local Open Scope Z_scope.

(** ** binary32 arithmetic *)

Module F32.

Definition prec : Z := 24.
Definition emax : Z := 128.

Definition float : Type := spec_float.

Definition add : float -> float -> float := SFadd prec emax.
Definition sub : float -> float -> float := SFsub prec emax.
Definition mul : float -> float -> float := SFmul prec emax.
Definition div : float -> float -> float := SFdiv prec emax.
Definition sqrt : float -> float := SFsqrt prec emax.

(** [a < b], [a <= b], [a == b] of C++; all false on NaN. *)
Definition ltb : float -> float -> bool := SFltb.
Definition leb : float -> float -> bool := SFleb.
Definition eqb : float -> float -> bool := SFeqb.

(** Conversion of an integer to [float] (exact below 2^24). *)
Definition of_Z (z : Z) : float := binary_normalize prec emax z 0 false.

(** A decimal literal [n/d] with [n] and [d] below 2^24: the division of
    two exact integers is rounded once, which is the literal's value. *)
Definition lit (n d : Z) : float := div (of_Z n) (of_Z d).

Definition opp : float -> float := SFopp.

Definition zero : float := S754_zero false.
Definition one : float := of_Z 1.

(** Conversion to an integer type truncates toward zero. NaN and the
    infinities have no defined conversion in C++; they are sent to 0. *)
Definition to_Z (f : float) : Z :=
  match f with
  | S754_finite s m e =>
      let v := match e with
               | Z0 => Zpos m
               | Zpos p => Zpos m * 2 ^ Zpos p
               | Zneg p => Zpos m / 2 ^ Zpos p
               end in
      if s then - v else v
  | _ => 0
  end.

(** The truth value of a [float] used as a condition: [f != 0]. *)
Definition truthy (f : float) : bool := negb (eqb f zero).

Definition is_nan (f : float) : bool :=
  match f with S754_nan => true | _ => false end.

End F32.

Abbreviation float := F32.float.

Arguments F32.add : simpl never.
Arguments F32.sub : simpl never.
Arguments F32.mul : simpl never.
Arguments F32.div : simpl never.
Arguments F32.sqrt : simpl never.
Arguments F32.ltb : simpl never.
Arguments F32.leb : simpl never.
Arguments F32.eqb : simpl never.
Arguments F32.of_Z : simpl never.
Arguments F32.lit : simpl never.
Arguments F32.to_Z : simpl never.

(** A zero or a finite number: neither NaN nor an infinity. *)
Definition is_finite (f : float) : bool :=
  match f with
  | S754_zero _ | S754_finite _ _ _ => true
  | _ => false
  end.

(** ** unsigned int *)

Definition wrap32 (z : Z) : Z := z mod 2 ^ 32.
Definition uadd (a b : Z) : Z := wrap32 (a + b).
Definition usub (a b : Z) : Z := wrap32 (a - b).

(** [(unsigned int) f] *)
Definition to_uint (f : float) : Z := wrap32 (F32.to_Z f).

(** ** int

    A 32-bit [int] in two's complement. An overflow of [int] arithmetic is
    undefined in C++; it is written here as the wrap-around, and what is
    proved of a counter is proved below [INT_MAX], where the two agree. *)

Definition INT_MAX : Z := 2 ^ 31 - 1.
Definition wrap_int (z : Z) : Z := (z + 2 ^ 31) mod 2 ^ 32 - 2 ^ 31.
Definition iadd (a b : Z) : Z := wrap_int (a + b).

(** ** glm *)

Module glm.

(** [glm::min(x, y)] is [(y < x) ? y : x]; [glm::max(x, y)] is
    [(x < y) ? y : x]. *)
Definition min (x y : float) : float := if F32.ltb y x then y else x.
Definition max (x y : float) : float := if F32.ltb x y then y else x.

Record vec3 : Type := mk_vec3 { vx : float; vy : float; vz : float }.

(** [vec3(s)] *)
Definition splat (s : float) : vec3 := mk_vec3 s s s.

Definition vadd (a b : vec3) : vec3 :=
  mk_vec3 (F32.add (vx a) (vx b)) (F32.add (vy a) (vy b)) (F32.add (vz a) (vz b)).
Definition vsub (a b : vec3) : vec3 :=
  mk_vec3 (F32.sub (vx a) (vx b)) (F32.sub (vy a) (vy b)) (F32.sub (vz a) (vz b)).
(** [v * s] *)
Definition vscale (a : vec3) (s : float) : vec3 :=
  mk_vec3 (F32.mul (vx a) s) (F32.mul (vy a) s) (F32.mul (vz a) s).
(** [s * v] *)
Definition scalev (s : float) (a : vec3) : vec3 :=
  mk_vec3 (F32.mul s (vx a)) (F32.mul s (vy a)) (F32.mul s (vz a)).
(** [v / s] *)
Definition vdiv (a : vec3) (s : float) : vec3 :=
  mk_vec3 (F32.div (vx a) s) (F32.div (vy a) s) (F32.div (vz a) s).

Definition vmin (a b : vec3) : vec3 :=
  mk_vec3 (min (vx a) (vx b)) (min (vy a) (vy b)) (min (vz a) (vz b)).
Definition vmax (a b : vec3) : vec3 :=
  mk_vec3 (max (vx a) (vx b)) (max (vy a) (vy b)) (max (vz a) (vz b)).

Definition dot (a b : vec3) : float :=
  F32.add (F32.add (F32.mul (vx a) (vx b)) (F32.mul (vy a) (vy b)))
          (F32.mul (vz a) (vz b)).
Definition length (a : vec3) : float := F32.sqrt (dot a a).
(** [normalize(v)] is [v * inversesqrt(dot(v, v))]. *)
Definition normalize (a : vec3) : vec3 :=
  vscale a (F32.div F32.one (F32.sqrt (dot a a))).

End glm.

Export glm.

(** Componentwise [lo <= v <= hi]. *)
Definition within (lo hi : float) (v : vec3) : Prop :=
  F32.leb lo (vx v) = true /\ F32.leb (vx v) hi = true
  /\ F32.leb lo (vy v) = true /\ F32.leb (vy v) hi = true
  /\ F32.leb lo (vz v) = true /\ F32.leb (vz v) hi = true.

(** Componentwise: every coordinate is a zero or a finite number; the
    coordinates compare equal ([==], which holds between [+0] and [-0]). *)
Definition vec_is_finite (v : vec3) : bool :=
  is_finite (vx v) && is_finite (vy v) && is_finite (vz v).

Definition vec_eqb (a b : vec3) : bool :=
  F32.eqb (vx a) (vx b) && F32.eqb (vy a) (vy b) && F32.eqb (vz a) (vz b).

(** ** Particles and cell types *)

Inductive geomtype : Type := SOLID | FLUID | AIR.

#[global] Instance geomtype_eq_dec : EqDecision geomtype.
Proof. solve_decision. Defined.

Definition geom_eqb (a b : geomtype) : bool := bool_decide (a = b).

Module Pt.

Record particle : Type := mk_particle {
  p : vec3;          (* position *)
  u : vec3;          (* velocity *)
  n : vec3;          (* normal, for solid markers *)
  t : vec3;          (* scratch velocity *)
  mass : float;
  density : float;
  type : geomtype;
  invalid : bool;
  temp : bool
}.

Definition set_p (q : particle) (v : vec3) : particle :=
  mk_particle v (u q) (n q) (t q) (mass q) (density q) (type q) (invalid q) (temp q).
Definition set_u (q : particle) (v : vec3) : particle :=
  mk_particle (p q) v (n q) (t q) (mass q) (density q) (type q) (invalid q) (temp q).
Definition set_t (q : particle) (v : vec3) : particle :=
  mk_particle (p q) (u q) (n q) v (mass q) (density q) (type q) (invalid q) (temp q).
Definition set_density (q : particle) (d : float) : particle :=
  mk_particle (p q) (u q) (n q) (t q) (mass q) d (type q) (invalid q) (temp q).
Definition set_invalid (q : particle) (b : bool) : particle :=
  mk_particle (p q) (u q) (n q) (t q) (mass q) (density q) (type q) b (temp q).

End Pt.

Abbreviation particle := Pt.particle.

(** ** Loops *)

(** [for (unsigned int i = 0; i < n; ++i)] *)
Definition range (n : Z) : list Z := map Z.of_nat (seq 0 (Z.to_nat n)).

Definition for_each {S I : Type} (l : list I) (body : I -> S -> S) (s : S) : S :=
  fold_left (fun acc i => body i acc) l s.

(** Three nested loops, [i] outermost. *)
Definition for3 {S : Type} (a b c : Z) (body : Z -> Z -> Z -> S -> S) : S -> S :=
  for_each (range a) (fun i =>
    for_each (range b) (fun j =>
      for_each (range c) (fun k => body i j k))).

(** The index triples that [for3] visits, in the order of the visit. *)
Definition triples (a b c : Z) : list (Z * Z * Z) :=
  range a ≫= (fun i => range b ≫= (fun j => (fun k => (i, j, k)) <$> range c)).

(** [0 <= i < a], [0 <= j < b], [0 <= k < c] *)
Definition in_box (a b c i j k : Z) : bool :=
  (0 <=? i) && (i <? a) && (0 <=? j) && (j <? b) && (0 <=? k) && (k <? c).

(** [particles[i]] is updated in place. *)
Definition update_at (i : nat) (f : particle -> particle) (ps : list particle)
  : list particle :=
  match ps !! i with
  | Some q => <[ i := f q ]> ps
  | None => ps
  end.

(** A loop over all particle indices whose body only touches
    [particles[i]]. *)
Definition for_particles (f : particle -> particle) (ps : list particle)
  : list particle :=
  for_each (seq 0 (List.length ps)) (fun i => update_at i f) ps.

(** The store [st] has the particles of [ps0] with their types, and those
    that are not FLUID unchanged. *)
Definition solids_kept (ps0 st : list particle) : Prop :=
  List.length st = List.length ps0
  /\ forall m y, ps0 !! m = Some y ->
       exists x, st !! m = Some x /\ Pt.type x = Pt.type y
                 /\ (Pt.type y <> FLUID -> x = y).

(** ** Grids

    [grid.hpp] is not part of the sources at hand. A grid is taken as a
    store of cells addressed by integer triples, created with a background
    value; [getCellAt] is the overload of [getCell] that takes a [vec3]. *)

Class GridOps : Type := {
  grid : Type -> Type;
  newGrid : forall {T : Type}, T -> grid T;
  getCell : forall {T : Type}, grid T -> Z -> Z -> Z -> T;
  setCell : forall {T : Type}, grid T -> Z -> Z -> Z -> T -> grid T;
  getCellAt : forall {T : Type}, grid T -> vec3 -> T
}.

Class GridLaws (G : GridOps) : Prop := {
  getCell_newGrid :
    forall (T : Type) (b : T) i j k, getCell (newGrid b) i j k = b;
  getCell_setCell_eq :
    forall (T : Type) (g : grid T) i j k v, getCell (setCell g i j k v) i j k = v;
  getCell_setCell_ne :
    forall (T : Type) (g : grid T) i j k v i' j' k',
      (i, j, k) <> (i', j', k') ->
      getCell (setCell g i j k v) i' j' k' = getCell g i' j' k'
}.

(** A sparse store with a background value (as an OpenVDB tree has):
    the instance at which the theorems are exercised. *)
Module SparseGrid.

Record sgrid (T : Type) : Type := mk_sgrid {
  background : T;
  cells : gmap (Z * Z * Z) T
}.
Arguments mk_sgrid {T}.
Arguments background {T}.
Arguments cells {T}.

Definition new {T} (b : T) : sgrid T := mk_sgrid b ∅.
Definition get {T} (g : sgrid T) (i j k : Z) : T :=
  default (background g) (cells g !! (i, j, k)).
Definition set {T} (g : sgrid T) (i j k : Z) (v : T) : sgrid T :=
  mk_sgrid (background g) (<[ (i, j, k) := v ]> (cells g)).
Definition get_at {T} (g : sgrid T) (v : vec3) : T :=
  get g (F32.to_Z (vx v)) (F32.to_Z (vy v)) (F32.to_Z (vz v)).

Definition ops : GridOps :=
  {| grid := sgrid; newGrid := @new; getCell := @get; setCell := @set;
     getCellAt := @get_at |}.

End SparseGrid.

(** ** The MAC grid bundle

    Face velocities [u_x], [u_y], [u_z], cell types [A], pressure [P],
    divergence [D] and liquid level set [L], as [flip.cpp] uses them. *)

Module Mac.

Record macgrid {G : GridOps} : Type := mk_macgrid {
  u_x : grid float;
  u_y : grid float;
  u_z : grid float;
  A : grid geomtype;
  P : grid float;
  D : grid float;
  L : grid float
}.

Section Setters.
Context {G : GridOps}.

Definition set_u_x (g : macgrid) (v : grid float) : macgrid :=
  mk_macgrid G v (u_y g) (u_z g) (A g) (P g) (D g) (L g).
Definition set_u_y (g : macgrid) (v : grid float) : macgrid :=
  mk_macgrid G (u_x g) v (u_z g) (A g) (P g) (D g) (L g).
Definition set_u_z (g : macgrid) (v : grid float) : macgrid :=
  mk_macgrid G (u_x g) (u_y g) v (A g) (P g) (D g) (L g).
Definition set_A (g : macgrid) (v : grid geomtype) : macgrid :=
  mk_macgrid G (u_x g) (u_y g) (u_z g) v (P g) (D g) (L g).
Definition set_D (g : macgrid) (v : grid float) : macgrid :=
  mk_macgrid G (u_x g) (u_y g) (u_z g) (A g) (P g) v (L g).

End Setters.

End Mac.

Abbreviation macgrid := Mac.macgrid.

(** ** Collaborators

    What [flip.cpp] calls and does not define: the scene, the particle grid,
    and the helpers of [particlegridoperations.inl], [particleresampler.inl],
    [solver.inl] and [kernels.inl]. A vector of particle pointers returned
    by [getCellNeighbors] is the list of their indices in [particles]. *)

Class Collaborators (G : GridOps) : Type := {
  scene_t : Type;
  particlegrid : Type;
  gridtype : Type;
  (* constructors *)
  new_particlegrid : vec3 -> gridtype -> particlegrid;
  createMacgrid : vec3 -> gridtype -> macgrid;
  (* sceneCore::scene *)
  buildLevelSets : scene_t -> Z -> scene_t;
  generateParticles :
    scene_t -> list particle -> vec3 -> float -> particlegrid -> Z -> list particle;
  projectPointsToSolidSurface : scene_t -> list vec3 -> list vec3;
  exportParticles :
    scene_t -> list particle -> float -> Z -> bool -> bool -> bool -> scene_t;
  getLiquidLevelSet : scene_t -> grid float;
  getSolidLevelSet : scene_t -> grid float;
  (* particlegrid *)
  sort : particlegrid -> list particle -> particlegrid;
  markCellTypes :
    particlegrid -> list particle -> grid geomtype -> float -> grid geomtype;
  buildSDF : particlegrid -> macgrid -> float -> macgrid;
  getCellNeighbors : particlegrid -> vec3 -> vec3 -> list nat;
  (* particlegridoperations.inl *)
  splatParticlesToMACGrid : particlegrid -> list particle -> macgrid -> macgrid;
  interpolateVelocity : vec3 -> macgrid -> vec3;
  enforceBoundaryVelocity : macgrid -> macgrid;
  (* particleresampler.inl *)
  resampleParticles :
    particlegrid -> list particle -> float -> float -> vec3 -> list particle;
  (* solver.inl *)
  solve : macgrid -> Z -> bool -> macgrid;
  (* kernels.inl *)
  smooth : float -> float -> float;
  sqrlength : vec3 -> vec3 -> float
}.

(** ** The simulator object

    The members are declared in [flip.hpp], which is not at hand; their
    types are read off their uses in [flip.cpp]. The counters [frame] and
    [subcell] are taken as [int] (as the frame counter of [viewer.cpp]
    is). *)

Module Sim.

Record flipsim {G : GridOps} {C : Collaborators G} : Type := mk_flipsim {
  dimensions : vec3;
  pgrid : particlegrid;
  mgrid : macgrid;
  mgrid_previous : macgrid;
  particles : list particle;
  max_density : float;
  density : float;
  scene : scene_t;
  frame : Z;
  stepsize : float;
  subcell : Z;
  picflipratio : float;
  densitythreshold : float;
  type : gridtype;
  verbose : bool
}.

Section Setters.
Context {G : GridOps} {C : Collaborators G}.

Definition set_pgrid (s : flipsim) (v : particlegrid) : flipsim :=
  mk_flipsim G C (dimensions s) v (mgrid s) (mgrid_previous s) (particles s)
    (max_density s) (density s) (scene s) (frame s) (stepsize s) (subcell s)
    (picflipratio s) (densitythreshold s) (type s) (verbose s).
Definition set_mgrid (s : flipsim) (v : macgrid) : flipsim :=
  mk_flipsim G C (dimensions s) (pgrid s) v (mgrid_previous s) (particles s)
    (max_density s) (density s) (scene s) (frame s) (stepsize s) (subcell s)
    (picflipratio s) (densitythreshold s) (type s) (verbose s).
Definition set_mgrid_previous (s : flipsim) (v : macgrid) : flipsim :=
  mk_flipsim G C (dimensions s) (pgrid s) (mgrid s) v (particles s)
    (max_density s) (density s) (scene s) (frame s) (stepsize s) (subcell s)
    (picflipratio s) (densitythreshold s) (type s) (verbose s).
Definition set_particles (s : flipsim) (v : list particle) : flipsim :=
  mk_flipsim G C (dimensions s) (pgrid s) (mgrid s) (mgrid_previous s) v
    (max_density s) (density s) (scene s) (frame s) (stepsize s) (subcell s)
    (picflipratio s) (densitythreshold s) (type s) (verbose s).
Definition set_scene (s : flipsim) (v : scene_t) : flipsim :=
  mk_flipsim G C (dimensions s) (pgrid s) (mgrid s) (mgrid_previous s) (particles s)
    (max_density s) (density s) v (frame s) (stepsize s) (subcell s)
    (picflipratio s) (densitythreshold s) (type s) (verbose s).
Definition set_frame (s : flipsim) (v : Z) : flipsim :=
  mk_flipsim G C (dimensions s) (pgrid s) (mgrid s) (mgrid_previous s) (particles s)
    (max_density s) (density s) (scene s) v (stepsize s) (subcell s)
    (picflipratio s) (densitythreshold s) (type s) (verbose s).

End Setters.

End Sim.

Abbreviation flipsim := Sim.flipsim.

(** ** [flip.cpp] *)

Section Model.
Context {G : GridOps} {C : Collaborators G}.

(** [flipsim::flipsim] *)
Definition new_flipsim (maxres : vec3) (s : scene_t) (density : float)
    (type : gridtype) (verbose : bool) : flipsim :=
  Sim.mk_flipsim G C
    maxres                               (* dimensions *)
    (new_particlegrid maxres type)       (* pgrid *)
    (createMacgrid maxres type)          (* mgrid *)
    (createMacgrid maxres type)          (* mgrid_previous *)
    []                                   (* particles *)
    F32.zero                             (* max_density = 0.0f *)
    density
    s
    0                                    (* frame *)
    (F32.lit 5 1000)                     (* stepsize = 0.005f *)
    1                                    (* subcell *)
    (F32.lit 95 100)                     (* picflipratio = .95f *)
    (F32.lit 4 100)                      (* densitythreshold = 0.04f *)
    type
    verbose.

(** [glm::max(glm::max(dimensions.x, dimensions.z), dimensions.y)] *)
Definition maxd_of (dimensions : vec3) : float :=
  glm.max (glm.max (vx dimensions) (vz dimensions)) (vy dimensions).

Definition dim_x (s : flipsim) : Z := to_uint (vx (Sim.dimensions s)).
Definition dim_y (s : flipsim) : Z := to_uint (vy (Sim.dimensions s)).
Definition dim_z (s : flipsim) : Z := to_uint (vz (Sim.dimensions s)).

(** A loop over all particle indices whose body may read other
    particles. *)
Definition for_particle_indices
    (body : nat -> list particle -> list particle) (ps : list particle)
  : list particle :=
  for_each (seq 0 (List.length ps)) body ps.

(** *** [flipsim::applyExternalForces] *)

Definition gravity : vec3 :=
  mk_vec3 (F32.of_Z 0) (F32.opp (F32.lit 98 10)) (F32.of_Z 0).

Definition applyExternalForces (s : flipsim) : flipsim :=
  Sim.set_particles s
    (for_particles
       (fun q => Pt.set_u q (vadd (Pt.u q) (vscale gravity (Sim.stepsize s))))
       (Sim.particles s)).

(** *** [flipsim::computeDensity] *)

Definition density_cell (maxd : float) (c : float) : float :=
  let imaxd := F32.of_Z (F32.to_Z maxd) in
  F32.of_Z (F32.to_Z
    (glm.max F32.zero (glm.min (F32.sub imaxd F32.one) (F32.mul imaxd c)))).

Definition computeDensity_body (s : flipsim) (i : nat) (ps : list particle)
  : list particle :=
  let maxd := maxd_of (Sim.dimensions s) in
  match ps !! i with
  | None => ps
  | Some q =>
      if geom_eqb (Pt.type q) SOLID then <[ i := Pt.set_density q F32.one ]> ps
      else
        let position :=
          mk_vec3 (density_cell maxd (vx (Pt.p q)))
                  (density_cell maxd (vy (Pt.p q)))
                  (density_cell maxd (vz (Pt.p q))) in
        let neighbors :=
          getCellNeighbors (Sim.pgrid s) position (splat (F32.of_Z 1)) in
        let weightsum :=
          for_each neighbors (fun m w =>
            match ps !! m with
            | Some nq =>
                if negb (geom_eqb (Pt.type nq) SOLID) then
                  let sqd := sqrlength (Pt.p nq) (Pt.p q) in
                  let weight :=
                    F32.mul (Pt.mass nq)
                      (smooth sqd
                         (F32.div (F32.mul (F32.of_Z 4) (Sim.density s)) maxd)) in
                  F32.add w weight
                else w
            | None => w
            end) F32.zero in
        <[ i := Pt.set_density q (F32.div weightsum (Sim.max_density s)) ]> ps
  end.

Definition computeDensity (s : flipsim) : flipsim :=
  Sim.set_particles s
    (for_particle_indices (computeDensity_body s) (Sim.particles s)).

(** *** [flipsim::storePreviousGrid] and [flipsim::subtractPreviousGrid] *)

Definition storePreviousGrid (s : flipsim) : flipsim :=
  let x := dim_x s in let y := dim_y s in let z := dim_z s in
  let m := Sim.mgrid s in
  let mp := Sim.mgrid_previous s in
  let px := for3 (uadd x 1) y z
              (fun i j k g => setCell g i j k (getCell (Mac.u_x m) i j k))
              (Mac.u_x mp) in
  let py := for3 x (uadd y 1) z
              (fun i j k g => setCell g i j k (getCell (Mac.u_y m) i j k))
              (Mac.u_y mp) in
  let pz := for3 x y (uadd z 1)
              (fun i j k g => setCell g i j k (getCell (Mac.u_z m) i j k))
              (Mac.u_z mp) in
  Sim.set_mgrid_previous s
    (Mac.set_u_z (Mac.set_u_y (Mac.set_u_x mp px) py) pz).

Definition subtractPreviousGrid (s : flipsim) : flipsim :=
  let x := dim_x s in let y := dim_y s in let z := dim_z s in
  let m := Sim.mgrid s in
  let mp := Sim.mgrid_previous s in
  let px := for3 (uadd x 1) y z
              (fun i j k g =>
                 let subx := F32.sub (getCell (Mac.u_x m) i j k) (getCell g i j k) in
                 setCell g i j k subx)
              (Mac.u_x mp) in
  let py := for3 x (uadd y 1) z
              (fun i j k g =>
                 let suby := F32.sub (getCell (Mac.u_y m) i j k) (getCell g i j k) in
                 setCell g i j k suby)
              (Mac.u_y mp) in
  let pz := for3 x y (uadd z 1)
              (fun i j k g =>
                 let subz := F32.sub (getCell (Mac.u_z m) i j k) (getCell g i j k) in
                 setCell g i j k subz)
              (Mac.u_z mp) in
  Sim.set_mgrid_previous s
    (Mac.set_u_z (Mac.set_u_y (Mac.set_u_x mp px) py) pz).

(** *** [flipsim::subtractPressureGradient] *)

(** The pressures [pf] (cell of the face's own index) and [pb] (the cell
    before it along the axis) that one face uses; [Lf], [Pf] and [Lb], [Pb]
    are the level set and pressure of the two cells. The three axis blocks
    of the source are this same text. *)
Definition face_pressures (subcell : Z) (Lf Lb Pf Pb : float) : float * float :=
  if negb (subcell =? 0) && F32.ltb (F32.mul Lf Lb) F32.zero then
    let pf :=
      if F32.ltb Lf F32.zero then Pf
      else F32.mul (F32.div Lf (glm.min (F32.lit 1 1000) Lb)) Pb in
    let pb :=
      if F32.ltb Lb F32.zero then Pb
      else F32.mul (F32.div Lb (glm.min (F32.lit 1 1000000) Lf)) Pf in
    (pf, pb)
  else (Pf, Pb).

Definition subtract_face (h : float) (val : float) (pp : float * float) : float :=
  F32.sub val (F32.div (F32.sub (fst pp) (snd pp)) h).

Definition subtractPressureGradient (s : flipsim) : flipsim :=
  let x := dim_x s in let y := dim_y s in let z := dim_z s in
  let maxd := maxd_of (Sim.dimensions s) in
  let h := F32.div F32.one maxd in
  let m := Sim.mgrid s in
  let Pg := Mac.P m in
  let Lg := Mac.L m in
  let ux := for3 (uadd x 1) y z
              (fun i j k g =>
                 if (0 <? i) && (i <? x) then
                   let pp := face_pressures (Sim.subcell s)
                               (getCell Lg i j k) (getCell Lg (i - 1) j k)
                               (getCell Pg i j k) (getCell Pg (i - 1) j k) in
                   setCell g i j k (subtract_face h (getCell g i j k) pp)
                 else g)
              (Mac.u_x m) in
  let uy := for3 x (uadd y 1) z
              (fun i j k g =>
                 if (0 <? j) && (j <? y) then
                   let pp := face_pressures (Sim.subcell s)
                               (getCell Lg i j k) (getCell Lg i (j - 1) k)
                               (getCell Pg i j k) (getCell Pg i (j - 1) k) in
                   setCell g i j k (subtract_face h (getCell g i j k) pp)
                 else g)
              (Mac.u_y m) in
  let uz := for3 x y (uadd z 1)
              (fun i j k g =>
                 if (0 <? k) && (k <? z) then
                   let pp := face_pressures (Sim.subcell s)
                               (getCell Lg i j k) (getCell Lg i j (k - 1))
                               (getCell Pg i j k) (getCell Pg i j (k - 1)) in
                   setCell g i j k (subtract_face h (getCell g i j k) pp)
                 else g)
              (Mac.u_z m) in
  Sim.set_mgrid s (Mac.set_u_z (Mac.set_u_y (Mac.set_u_x m ux) uy) uz).

(** *** [flipsim::project] *)

Definition divergence_at (m : macgrid) (h : float) (i j k : Z) : float :=
  F32.div
    (F32.sub
       (F32.add
          (F32.sub
             (F32.add
                (F32.sub (getCell (Mac.u_x m) (i + 1) j k) (getCell (Mac.u_x m) i j k))
                (getCell (Mac.u_y m) i (j + 1) k))
             (getCell (Mac.u_y m) i j k))
          (getCell (Mac.u_z m) i j (k + 1)))
       (getCell (Mac.u_z m) i j k))
    h.

Definition project (s : flipsim) : flipsim :=
  let x := dim_x s in let y := dim_y s in let z := dim_z s in
  let maxd := maxd_of (Sim.dimensions s) in
  let h := F32.div F32.one maxd in
  let m := Sim.mgrid s in
  let Dg := for3 x y z
              (fun i j k g => setCell g i j k (divergence_at m h i j k))
              (Mac.D m) in
  let m1 := Mac.set_D m Dg in
  let m2 := buildSDF (Sim.pgrid s) m1 (Sim.density s) in
  let m3 := solve m2 (Sim.subcell s) (Sim.verbose s) in
  subtractPressureGradient (Sim.set_mgrid s m3).

(** *** [flipsim::extrapolateVelocity] *)

(** The loop variable [n] of the sweep: 0, 1, 2. *)
Inductive axis : Type := AX | AY | AZ.

#[global] Instance axis_eq_dec : EqDecision axis.
Proof. solve_decision. Defined.

Definition axis_is (n m : axis) : bool :=
  match n, m with
  | AX, AX | AY, AY | AZ, AZ => true
  | _, _ => false
  end.

(** [mgrid.u_x], [mgrid.u_y] or [mgrid.u_z], by the [if (n == 0) ... else
    if (n == 1) ... else if (n == 2)] chains. *)
Definition get_u (n : axis) (m : macgrid) : grid float :=
  match n with AX => Mac.u_x m | AY => Mac.u_y m | AZ => Mac.u_z m end.

Definition set_u (n : axis) (m : macgrid) (g : grid float) : macgrid :=
  match n with
  | AX => Mac.set_u_x m g
  | AY => Mac.set_u_y m g
  | AZ => Mac.set_u_z m g
  end.

(** [mark[n]]: the face touches a FLUID cell. The value stored at face
    [(i, j, k)] of axis [n]. *)
Definition mark_value (Ag : grid geomtype) (x y z : Z) (n : axis) (i j k : Z) : bool :=
  match n with
  | AX => ((0 <? i) && geom_eqb (getCell Ag (i - 1) j k) FLUID)
          || ((i <? x) && geom_eqb (getCell Ag i j k) FLUID)
  | AY => ((0 <? j) && geom_eqb (getCell Ag i (j - 1) k) FLUID)
          || ((j <? y) && geom_eqb (getCell Ag i j k) FLUID)
  | AZ => ((0 <? k) && geom_eqb (getCell Ag i j (k - 1)) FLUID)
          || ((k <? z) && geom_eqb (getCell Ag i j k) FLUID)
  end.

(** [wallmark[n]]: on either side the face has the domain boundary or a
    SOLID cell. *)
Definition wallmark_value (Ag : grid geomtype) (x y z : Z) (n : axis) (i j k : Z)
  : bool :=
  match n with
  | AX => ((i <=? 0) || geom_eqb (getCell Ag (i - 1) j k) SOLID)
          && ((x <=? i) || geom_eqb (getCell Ag i j k) SOLID)
  | AY => ((j <=? 0) || geom_eqb (getCell Ag i (j - 1) k) SOLID)
          && ((y <=? j) || geom_eqb (getCell Ag i j k) SOLID)
  | AZ => ((k <=? 0) || geom_eqb (getCell Ag i j (k - 1)) SOLID)
          && ((z <=? k) || geom_eqb (getCell Ag i j k) SOLID)
  end.

(** The extent of the loop nest that fills [mark[n]] and [wallmark[n]]. *)
Definition face_extent (x y z : Z) (n : axis) : Z * Z * Z :=
  match n with
  | AX => (uadd x 1, y, z)
  | AY => (x, uadd y 1, z)
  | AZ => (x, y, uadd z 1)
  end.

(** Face [(i, j, k)] belongs to the staggered grid of axis [n]. *)
Definition in_faces (x y z : Z) (n : axis) (i j k : Z) : bool :=
  let '(a, b, c) := face_extent x y z n in in_box a b c i j k.

(** The cell before face [(i, j, k)] along axis [n]; the cell after it is
    [(i, j, k)] itself. *)
Definition back_cell (n : axis) (i j k : Z) : Z * Z * Z :=
  match n with
  | AX => (i - 1, j, k)
  | AY => (i, j - 1, k)
  | AZ => (i, j, k - 1)
  end.

(** A face of axis [n] with a cell of the domain on either side. *)
Definition interior_face (x y z : Z) (n : axis) (i j k : Z) : bool :=
  in_faces x y z n i j k
  && match n with
     | AX => (0 <? i) && (i <? x)
     | AY => (0 <? j) && (j <? y)
     | AZ => (0 <? k) && (k <? z)
     end.

(** A temporary [intgrid] created with background 0 and filled over the
    faces of axis [n]. *)
Definition fill_marks (value : axis -> Z -> Z -> Z -> bool) (x y z : Z) (n : axis)
  : grid Z :=
  let '(a, b, c) := face_extent x y z n in
  for3 a b c (fun i j k g => setCell g i j k (bool_to_Z (value n i j k)))
       (newGrid 0).

(** The arrays [mark[3]] and [wallmark[3]]: three grids, built once. *)
Definition three_grids (f : axis -> grid Z) : axis -> grid Z :=
  let g0 := f AX in let g1 := f AY in let g2 := f AZ in
  fun n => match n with AX => g0 | AY => g1 | AZ => g2 end.

(** [q[6]]: the neighbour indices are computed in [unsigned int] (the
    subtraction at index 0 wraps to 2^32 - 1) and stored in a [vec3],
    that is converted to [float]: from 2^24 on an index is rounded. *)
Definition neighbours6 (i j k : Z) : list vec3 :=
  [ mk_vec3 (F32.of_Z (usub i 1)) (F32.of_Z j) (F32.of_Z k);
    mk_vec3 (F32.of_Z (uadd i 1)) (F32.of_Z j) (F32.of_Z k);
    mk_vec3 (F32.of_Z i) (F32.of_Z (usub j 1)) (F32.of_Z k);
    mk_vec3 (F32.of_Z i) (F32.of_Z (uadd j 1)) (F32.of_Z k);
    mk_vec3 (F32.of_Z i) (F32.of_Z j) (F32.of_Z (usub k 1));
    mk_vec3 (F32.of_Z i) (F32.of_Z j) (F32.of_Z (uadd k 1)) ].

(** [q[qk][0]>=0 && q[qk][0]<x+(n==0) && ...]: the comparisons are made
    in [float], the [int] 0 and the [unsigned int] bounds being
    converted. *)
Definition in_face_range (x y z : Z) (n : axis) (q : vec3) : bool :=
  F32.leb (F32.of_Z 0) (vx q)
  && F32.ltb (vx q) (F32.of_Z (uadd x (bool_to_Z (axis_is n AX))))
  && F32.leb (F32.of_Z 0) (vy q)
  && F32.ltb (vy q) (F32.of_Z (uadd y (bool_to_Z (axis_is n AY))))
  && F32.leb (F32.of_Z 0) (vz q)
  && F32.ltb (vz q) (F32.of_Z (uadd z (bool_to_Z (axis_is n AZ)))).

(** [getCell(q[qk][0], q[qk][1], q[qk][2])]: the [float] components are
    the arguments of the overload with three integer indices; the
    conversion truncates. *)
Definition face_index (q : vec3) : Z * Z * Z :=
  (F32.to_Z (vx q), F32.to_Z (vy q), F32.to_Z (vz q)).

(** The inner loop over [qk]: the pair [(wsum, sum)]. *)
Definition gather_neighbours (mark : axis -> grid Z) (x y z : Z) (n : axis)
    (m : macgrid) (i j k : Z) : Z * float :=
  for_each (neighbours6 i j k)
    (fun q acc =>
       let '(q0, q1, q2) := face_index q in
       if in_face_range x y z n q then
         if negb (getCell (mark n) q0 q1 q2 =? 0) then
           (fst acc + 1, F32.add (snd acc) (getCell (get_u n m) q0 q1 q2))
         else acc
       else acc)
    (0, F32.zero).

(** The body of the loop over [n]. *)
Definition extrapolate_face (mark wallmark : axis -> grid Z) (x y z : Z)
    (i j k : Z) (n : axis) (m : macgrid) : macgrid :=
  if negb (axis_is n AX) && (usub x 1 <? i) then m
  else if negb (axis_is n AY) && (usub y 1 <? j) then m
  else if negb (axis_is n AZ) && (usub z 1 <? k) then m
  else if (getCell (mark n) i j k =? 0) && negb (getCell (wallmark n) i j k =? 0)
  then
    let '(wsum, sum) := gather_neighbours mark x y z n m i j k in
    if negb (wsum =? 0) then
      set_u n m (setCell (get_u n m) i j k (F32.div sum (F32.of_Z wsum)))
    else m
  else m.

(** [mark] and [wallmark], filled from the cell types. *)
Definition mark_grids (Ag : grid geomtype) (x y z : Z) : axis -> grid Z :=
  three_grids (fill_marks (mark_value Ag x y z) x y z).

Definition wallmark_grids (Ag : grid geomtype) (x y z : Z) : axis -> grid Z :=
  three_grids (fill_marks (wallmark_value Ag x y z) x y z).

Definition extrapolate_grid (x y z : Z) (m : macgrid) : macgrid :=
  let mark := mark_grids (Mac.A m) x y z in
  let wallmark := wallmark_grids (Mac.A m) x y z in
  for3 (uadd x 1) (uadd y 1) (uadd z 1)
    (fun i j k =>
       for_each [AX; AY; AZ] (extrapolate_face mark wallmark x y z i j k))
    m.

(** The faces that the sweep of [extrapolateVelocity] visits, in order. *)
Definition sweep_faces (x y z : Z) : list (Z * Z * Z * axis) :=
  triples (uadd x 1) (uadd y 1) (uadd z 1)
    ≫= (fun q => (fun n => (q, n)) <$> [AX; AY; AZ]).

(** The sweep writes face [(i, j, k)] of axis [n], if it has a marked
    neighbour: the three [continue] tests fail, [mark] is 0 and
    [wallmark] is not. *)
Definition face_written (mark wallmark : axis -> grid Z) (x y z : Z)
    (i j k : Z) (n : axis) : bool :=
  negb (negb (axis_is n AX) && (usub x 1 <? i))
  && negb (negb (axis_is n AY) && (usub y 1 <? j))
  && negb (negb (axis_is n AZ) && (usub z 1 <? k))
  && (getCell (mark n) i j k =? 0) && negb (getCell (wallmark n) i j k =? 0).

(** The value that the sweep writes to a face: [sum/wsum], if [wsum] is
    not 0. *)
Definition extrapolated_value (mark : axis -> grid Z) (x y z : Z) (n : axis)
    (m : macgrid) (i j k : Z) : option float :=
  let '(wsum, sum) := gather_neighbours mark x y z n m i j k in
  if negb (wsum =? 0) then Some (F32.div sum (F32.of_Z wsum)) else None.

(** The faces that [mark] holds as touching a FLUID cell have the same
    velocity in [m] as in [m0]. *)
Definition marked_kept (mark : axis -> grid Z) (m0 m : macgrid) : Prop :=
  forall n i j k,
    getCell (mark n) i j k <> 0 ->
    getCell (get_u n m) i j k = getCell (get_u n m0) i j k.

(** The six axis-aligned neighbours of a face, as integers. *)
Definition plain_neighbours (i j k : Z) : list (Z * Z * Z) :=
  [ (i - 1, j, k); (i + 1, j, k); (i, j - 1, k);
    (i, j + 1, k); (i, j, k - 1); (i, j, k + 1) ].

(** Those of them that are faces of axis [n] and touch a FLUID cell. *)
Definition valid_neighbours (Ag : grid geomtype) (x y z : Z) (n : axis)
    (i j k : Z) : list (Z * Z * Z) :=
  List.filter
    (fun q => in_faces x y z n q.1.1 q.1.2 q.2
              && mark_value Ag x y z n q.1.1 q.1.2 q.2)
    (plain_neighbours i j k).

(** The sum of their velocities, in the order of [plain_neighbours]. *)
Definition sum_of_faces (g : grid float) (l : list (Z * Z * Z)) : float :=
  fold_left (fun acc q => F32.add acc (getCell g q.1.1 q.1.2 q.2)) l F32.zero.

Definition extrapolateVelocity (s : flipsim) : flipsim :=
  Sim.set_mgrid s (extrapolate_grid (dim_x s) (dim_y s) (dim_z s) (Sim.mgrid s)).

(** *** [flipsim::solvePicFlip] *)

(** Modelled from the spec: [splatMACGridToParticles] of
    [particlegridoperations.inl], the gather from the MAC grid to the
    particles: the velocity [u] of each particle is set to the staggered
    trilinear sample of the face velocities at the particle's position
    (the sampler is [interpolateVelocity], which [advectParticles] calls
    too). *)
Definition splatMACGridToParticles (ps : list particle) (m : macgrid)
  : list particle :=
  for_particles (fun q => Pt.set_u q (interpolateVelocity (Pt.p q) m)) ps.

Definition solvePicFlip (s : flipsim) : flipsim :=
  (* store copy of current velocities for later *)
  let ps1 := for_particles (fun q => Pt.set_t q (Pt.u q)) (Sim.particles s) in
  let ps2 := splatMACGridToParticles ps1 (Sim.mgrid_previous s) in
  (* set FLIP velocity *)
  let ps3 := for_particles (fun q => Pt.set_t q (vadd (Pt.u q) (Pt.t q))) ps2 in
  (* set PIC velocity *)
  let ps4 := splatMACGridToParticles ps3 (Sim.mgrid s) in
  (* combine PIC and FLIP *)
  let ps5 :=
    for_particles
      (fun q =>
         Pt.set_u q
           (vadd (scalev (F32.sub F32.one (Sim.picflipratio s)) (Pt.u q))
                 (scalev (Sim.picflipratio s) (Pt.t q))))
      ps4 in
  Sim.set_particles s ps5.

(** *** [flipsim::advectParticles] *)

(** The response of particle [q] to one neighbour [np]. *)
Definition wall_response (re : float) (np q : particle) : particle :=
  if geom_eqb (Pt.type np) SOLID then
    let dist := glm.length (vsub (Pt.p q) (Pt.p np)) in
    if F32.ltb dist re then
      let normal :=
        if F32.ltb (glm.length (Pt.n np)) (F32.lit 1 10000000) && F32.truthy dist
        then glm.normalize (vsub (Pt.p q) (Pt.p np))
        else Pt.n np in
      let q1 := Pt.set_p q (vadd (Pt.p q) (scalev (F32.sub re dist) normal)) in
      Pt.set_u q1 (vsub (Pt.u q1) (scalev (glm.dot (Pt.u q1) normal) normal))
    else q
  else q.

(** The loop over the neighbours of [particles[p0]]. The neighbours are
    pointers into [particles]: each is read from the current store. *)
Definition wall_responses (re : float) (p0 : nat) (neighbors : list nat)
    (ps : list particle) : list particle :=
  for_each neighbors
    (fun p1 st =>
       match st !! p1 with
       | Some np => update_at p0 (wall_response re np) st
       | None => st
       end)
    ps.

(** [glm::max(vec3(r), glm::min(vec3(1.0f-r), p))] *)
Definition clamp_to_walls (r : float) (v : vec3) : vec3 :=
  vmax (splat r) (vmin (splat (F32.sub F32.one r)) v).

(** The cell index [glm::min(x-1.0f, p.x*maxd)] stored in an
    [unsigned int]. *)
Definition advect_cell (x : Z) (maxd : float) (c : float) : Z :=
  to_uint (glm.min (F32.sub (F32.of_Z x) F32.one) (F32.mul c maxd)).

(** The neighbours of a position: the particles of the 3 x 3 x 3 cells
    around its cell. *)
Definition cell_neighbors (s : flipsim) (pg : particlegrid) (pos : vec3) : list nat :=
  let x := dim_x s in let y := dim_y s in let z := dim_z s in
  let maxd := maxd_of (Sim.dimensions s) in
  let i := advect_cell x maxd (vx pos) in
  let j := advect_cell y maxd (vy pos) in
  let k := advect_cell z maxd (vz pos) in
  getCellNeighbors pg
    (mk_vec3 (F32.of_Z i) (F32.of_Z j) (F32.of_Z k)) (splat (F32.of_Z 1)).

(** [re = 1.5f*density/maxd] *)
Definition wall_radius (s : flipsim) : float :=
  F32.div (F32.mul (F32.lit 3 2) (Sim.density s)) (maxd_of (Sim.dimensions s)).

(** The body of the second loop, for index [p0]. *)
Definition advect_constrain (s : flipsim) (pg : particlegrid) (p0 : nat)
    (ps : list particle) : list particle :=
  let maxd := maxd_of (Sim.dimensions s) in
  let r := F32.div F32.one maxd in
  let ps1 :=
    update_at p0
      (fun q => if geom_eqb (Pt.type q) FLUID
                then Pt.set_p q (clamp_to_walls r (Pt.p q)) else q) ps in
  match ps1 !! p0 with
  | None => ps1
  | Some q =>
      if geom_eqb (Pt.type q) FLUID then
        let neighbors := cell_neighbors s pg (Pt.p q) in
        let re := wall_radius s in
        wall_responses re p0 neighbors ps1
      else ps1
  end.

Definition advect_move (s : flipsim) (q : particle) : particle :=
  if geom_eqb (Pt.type q) FLUID then
    let velocity := interpolateVelocity (Pt.p q) (Sim.mgrid s) in
    Pt.set_p q (vadd (Pt.p q) (scalev (Sim.stepsize s) velocity))
  else q.

Definition advectParticles (s : flipsim) : flipsim :=
  (* update positions *)
  let ps1 := for_particles (advect_move s) (Sim.particles s) in
  let pg := sort (Sim.pgrid s) ps1 in
  (* apply constraints for outer walls of sim *)
  let ps2 := for_particle_indices (advect_constrain s pg) ps1 in
  Sim.set_particles (Sim.set_pgrid s pg) ps2.

(** *** [flipsim::step] *)

(** The three cleanup loops at the end of [step]. *)

(** mark particles as inside walls or out of bounds *)
Definition mark_invalid (s : flipsim) (maxd : float) (q : particle) : particle :=
  let q0 := Pt.set_invalid q false in
  let t := vscale (Pt.p q0) maxd in
  let d := Sim.dimensions s in
  let q1 :=
    if F32.ltb (vx d) (vx t) || F32.ltb (vy d) (vy t) || F32.ltb (vz d) (vz t)
    then Pt.set_invalid q0 true else q0 in
  let q2 :=
    if F32.ltb (vx t) (F32.of_Z 0) || F32.ltb (vy t) (F32.of_Z 0)
       || F32.ltb (vz t) (F32.of_Z 0)
    then Pt.set_invalid q1 true else q1 in
  if geom_eqb (getCellAt (Mac.A (Sim.mgrid s)) t) SOLID
  then Pt.set_invalid q2 true else q2.

Definition markInvalidParticles (maxd : float) (s : flipsim) : flipsim :=
  Sim.set_particles s (for_particles (mark_invalid s maxd) (Sim.particles s)).

(** Remove fluid particles that only valid in this frame *)
Definition removeTempParticles (s : flipsim) : flipsim :=
  Sim.set_particles s (List.filter (fun q => negb (Pt.temp q)) (Sim.particles s)).

(** Attempt to push particles in walls out *)
Definition is_stuck (ps : list particle) (i : nat) : bool :=
  match ps !! i with
  | Some q => Pt.invalid q && geom_eqb (Pt.type q) FLUID
  | None => false
  end.

(** [stuckParticles], as indices into [particles]. *)
Definition stuck_indices (ps : list particle) : list nat :=
  List.filter (is_stuck ps) (seq 0 (List.length ps)).

Definition push_out (maxd : float) (pos : vec3) (q : particle) : particle :=
  if F32.ltb (F32.lit 1 10000) (glm.length (vsub pos (vscale (Pt.p q) maxd))) then
    let penaltyForce := F32.of_Z 10 in
    let vdir := vsub pos (vscale (Pt.p q) maxd) in
    Pt.set_u (Pt.set_p q (vdiv pos maxd)) (vscale vdir penaltyForce)
  else q.

(** [stuckPositions], before the projection. *)
Definition stuck_positions (maxd : float) (ps : list particle) : list vec3 :=
  map (fun i => match ps !! i with
                | Some q => vscale (Pt.p q) maxd
                | None => splat F32.zero
                end) (stuck_indices ps).

Definition pushStuckParticles (maxd : float) (s : flipsim) : flipsim :=
  let ps := Sim.particles s in
  let stuckParticles := stuck_indices ps in
  let stuckPositions := stuck_positions maxd ps in
  let projected := projectPointsToSolidSurface (Sim.scene s) stuckPositions in
  Sim.set_particles s
    (for_each (zip stuckParticles projected)
       (fun ip st => update_at (fst ip) (push_out maxd (snd ip)) st) ps).

(** The calls that [step] makes, in a state-and-log monad: each call is
    recorded as it is made. *)
Inductive phase : Type :=
| Ph_incrementFrame
| Ph_buildLevelSets
| Ph_generateParticles
| Ph_sort
| Ph_computeDensity
| Ph_applyExternalForces
| Ph_splatParticlesToMACGrid
| Ph_markCellTypes
| Ph_storePreviousGrid
| Ph_enforceBoundaryVelocity
| Ph_project
| Ph_extrapolateVelocity
| Ph_subtractPreviousGrid
| Ph_solvePicFlip
| Ph_advectParticles
| Ph_resampleParticles
| Ph_markInvalidParticles
| Ph_removeTempParticles
| Ph_pushStuckParticles
| Ph_exportParticles.

Definition Logged (T : Type) : Type := flipsim -> T * flipsim * list phase.

Definition ret {T} (v : T) : Logged T := fun s => (v, s, []).

Definition bind {T U} (m : Logged T) (k : T -> Logged U) : Logged U :=
  fun s =>
    let '(v, s1, l1) := m s in
    let '(w, s2, l2) := k v s1 in
    (w, s2, l1 ++ l2).

Definition call (ph : phase) (f : flipsim -> flipsim) : Logged unit :=
  fun s => (tt, f s, [ph]).

Definition get : Logged flipsim := fun s => (s, s, []).

Notation "m1 ;;; m2" := (bind m1 (fun _ => m2))
  (at level 100, m2 at level 200, right associativity, only parsing).
Notation "'let*' x ':=' m 'in' k" := (bind m (fun x => k))
  (at level 10, x name, m at level 100, k at level 200, only parsing).

Definition step (saveVDB saveOBJ savePARTIO : bool) : Logged unit :=
  call Ph_incrementFrame (fun s => Sim.set_frame s (iadd (Sim.frame s) 1)) ;;;
  call Ph_buildLevelSets
    (fun s => Sim.set_scene s (buildLevelSets (Sim.scene s) (Sim.frame s))) ;;;
  call Ph_generateParticles
    (fun s => Sim.set_particles s
                (generateParticles (Sim.scene s) (Sim.particles s)
                   (Sim.dimensions s) (Sim.density s) (Sim.pgrid s) (Sim.frame s))) ;;;
  call Ph_sort (fun s => Sim.set_pgrid s (sort (Sim.pgrid s) (Sim.particles s))) ;;;
  call Ph_computeDensity computeDensity ;;;
  call Ph_applyExternalForces applyExternalForces ;;;
  call Ph_splatParticlesToMACGrid
    (fun s => Sim.set_mgrid s
                (splatParticlesToMACGrid (Sim.pgrid s) (Sim.particles s)
                   (Sim.mgrid s))) ;;;
  call Ph_markCellTypes
    (fun s => Sim.set_mgrid s
                (Mac.set_A (Sim.mgrid s)
                   (markCellTypes (Sim.pgrid s) (Sim.particles s)
                      (Mac.A (Sim.mgrid s)) (Sim.density s)))) ;;;
  call Ph_storePreviousGrid storePreviousGrid ;;;
  call Ph_enforceBoundaryVelocity
    (fun s => Sim.set_mgrid s (enforceBoundaryVelocity (Sim.mgrid s))) ;;;
  call Ph_project project ;;;
  call Ph_enforceBoundaryVelocity
    (fun s => Sim.set_mgrid s (enforceBoundaryVelocity (Sim.mgrid s))) ;;;
  call Ph_extrapolateVelocity extrapolateVelocity ;;;
  call Ph_subtractPreviousGrid subtractPreviousGrid ;;;
  call Ph_solvePicFlip solvePicFlip ;;;
  call Ph_advectParticles advectParticles ;;;
  let* s0 := get in
  let maxd := maxd_of (Sim.dimensions s0) in
  let h := F32.div (Sim.density s0) maxd in
  call Ph_resampleParticles
    (fun s => Sim.set_particles s
                (resampleParticles (Sim.pgrid s) (Sim.particles s)
                   (Sim.stepsize s) h (Sim.dimensions s))) ;;;
  call Ph_markInvalidParticles (markInvalidParticles maxd) ;;;
  call Ph_removeTempParticles removeTempParticles ;;;
  call Ph_pushStuckParticles (pushStuckParticles maxd) ;;;
  if saveVDB || saveOBJ || savePARTIO then
    call Ph_exportParticles
      (fun s => Sim.set_scene s
                  (exportParticles (Sim.scene s) (Sim.particles s)
                     maxd (Sim.frame s)
                     saveVDB saveOBJ savePARTIO))
  else ret tt.

(** The step pipeline as the specification lists it (4.6, items 1 to 21):
    the order of the phases and, for each phase name, the function of
    [flip.cpp] or of a collaborator that it stands for. These two
    definitions follow the specification; [step] above follows
    [flip.cpp]. [M = max(X, Y, Z)] and [h = density/M] are those of the
    state the phase starts from. *)
Definition spec_phase (saveVDB saveOBJ savePARTIO : bool) (ph : phase)
    (s : flipsim) : flipsim :=
  let maxd := maxd_of (Sim.dimensions s) in
  let h := F32.div (Sim.density s) maxd in
  match ph with
  | Ph_incrementFrame => Sim.set_frame s (iadd (Sim.frame s) 1)
  | Ph_buildLevelSets =>
      Sim.set_scene s (buildLevelSets (Sim.scene s) (Sim.frame s))
  | Ph_generateParticles =>
      Sim.set_particles s
        (generateParticles (Sim.scene s) (Sim.particles s) (Sim.dimensions s)
           (Sim.density s) (Sim.pgrid s) (Sim.frame s))
  | Ph_sort => Sim.set_pgrid s (sort (Sim.pgrid s) (Sim.particles s))
  | Ph_computeDensity => computeDensity s
  | Ph_applyExternalForces => applyExternalForces s
  | Ph_splatParticlesToMACGrid =>
      Sim.set_mgrid s
        (splatParticlesToMACGrid (Sim.pgrid s) (Sim.particles s) (Sim.mgrid s))
  | Ph_markCellTypes =>
      Sim.set_mgrid s
        (Mac.set_A (Sim.mgrid s)
           (markCellTypes (Sim.pgrid s) (Sim.particles s) (Mac.A (Sim.mgrid s))
              (Sim.density s)))
  | Ph_storePreviousGrid => storePreviousGrid s
  | Ph_enforceBoundaryVelocity =>
      Sim.set_mgrid s (enforceBoundaryVelocity (Sim.mgrid s))
  | Ph_project => project s
  | Ph_extrapolateVelocity => extrapolateVelocity s
  | Ph_subtractPreviousGrid => subtractPreviousGrid s
  | Ph_solvePicFlip => solvePicFlip s
  | Ph_advectParticles => advectParticles s
  | Ph_resampleParticles =>
      Sim.set_particles s
        (resampleParticles (Sim.pgrid s) (Sim.particles s) (Sim.stepsize s) h
           (Sim.dimensions s))
  | Ph_markInvalidParticles => markInvalidParticles maxd s
  | Ph_removeTempParticles => removeTempParticles s
  | Ph_pushStuckParticles => pushStuckParticles maxd s
  | Ph_exportParticles =>
      Sim.set_scene s
        (exportParticles (Sim.scene s) (Sim.particles s) maxd (Sim.frame s)
           saveVDB saveOBJ savePARTIO)
  end.

Definition spec_pipeline (saveVDB saveOBJ savePARTIO : bool) : list phase :=
  [ Ph_incrementFrame; Ph_buildLevelSets; Ph_generateParticles; Ph_sort;
    Ph_computeDensity; Ph_applyExternalForces; Ph_splatParticlesToMACGrid;
    Ph_markCellTypes; Ph_storePreviousGrid; Ph_enforceBoundaryVelocity;
    Ph_project; Ph_enforceBoundaryVelocity; Ph_extrapolateVelocity;
    Ph_subtractPreviousGrid; Ph_solvePicFlip; Ph_advectParticles;
    Ph_resampleParticles; Ph_markInvalidParticles; Ph_removeTempParticles;
    Ph_pushStuckParticles ]
  ++ (if saveVDB || saveOBJ || savePARTIO then [Ph_exportParticles] else []).

(** *** [flipsim::isCellFluid] *)

Definition isCellFluid (s : flipsim) (x y z : Z) : bool :=
  if F32.ltb (getCell (getLiquidLevelSet (Sim.scene s)) x y z) F32.zero
     && F32.leb F32.zero (getCell (getSolidLevelSet (Sim.scene s)) x y z)
  then true else false.

End Model.

(** ** [flipsim::init] *)

Section Init.
Context {G : GridOps} {C : Collaborators G}.

Definition set_max_density (s : flipsim) (v : float) : flipsim :=
  Sim.mk_flipsim G C (Sim.dimensions s) (Sim.pgrid s) (Sim.mgrid s)
    (Sim.mgrid_previous s) (Sim.particles s) v (Sim.density s) (Sim.scene s)
    (Sim.frame s) (Sim.stepsize s) (Sim.subcell s) (Sim.picflipratio s)
    (Sim.densitythreshold s) (Sim.type s) (Sim.verbose s).

(** One temporary particle of the calibration cube. [fresh] is what
    [new particle] yields ([particle.hpp] is not at hand); the position,
    type and mass are then assigned. *)
Definition temp_particle (fresh : particle) (h : float) (i j k : Z) : particle :=
  Pt.mk_particle
    (vscale (vadd (mk_vec3 (F32.of_Z i) (F32.of_Z j) (F32.of_Z k))
                  (splat (F32.lit 1 2))) h)
    (Pt.u fresh) (Pt.n fresh) (Pt.t fresh)
    F32.one (Pt.density fresh) FLUID (Pt.invalid fresh) (Pt.temp fresh).

(** generate temp particles *)
Definition init_temp_particles (fresh : particle) (h : float) (ps : list particle)
  : list particle :=
  for3 10 10 10 (fun i j k acc => acc ++ [temp_particle fresh h i j k]) ps.

(** sum densities across particles: the running [glm::max]. *)
Definition init_max_density (ps : list particle) : float :=
  for_each ps (fun q acc => glm.max acc (Pt.density q)) F32.zero.

(** [unsigned int i = glm::min(maxd-1,p.p.x*maxd)] *)
Definition init_cell (maxd : float) (c : float) : Z :=
  to_uint (glm.min (F32.sub maxd F32.one) (F32.mul c maxd)).

(** The removal loop keeps a particle that is SOLID, or whose cell is not
    SOLID. *)
Definition init_keeps (Ag : grid geomtype) (maxd : float) (q : particle) : bool :=
  if geom_eqb (Pt.type q) SOLID then true
  else
    if geom_eqb
         (getCell Ag (init_cell maxd (vx (Pt.p q))) (init_cell maxd (vy (Pt.p q)))
            (init_cell maxd (vz (Pt.p q))))
         SOLID
    then false else true.

Definition init (fresh : particle) (s : flipsim) : flipsim :=
  let maxd := maxd_of (Sim.dimensions s) in
  let h := F32.div (Sim.density s) maxd in
  (* generate temp particles, sort them, calculate the density *)
  let s1 := Sim.set_particles s (init_temp_particles fresh h (Sim.particles s)) in
  let s2 := Sim.set_pgrid s1 (sort (Sim.pgrid s1) (Sim.particles s1)) in
  let s3 := computeDensity (set_max_density s2 F32.one) in
  let s4 := set_max_density s3 (init_max_density (Sim.particles s3)) in
  let s5 := Sim.set_particles s4 [] in
  let s6 := Sim.set_scene s5 (buildLevelSets (Sim.scene s5) (Sim.frame s5)) in
  (* Generate particles and sort *)
  let s7 :=
    Sim.set_particles s6
      (generateParticles (Sim.scene s6) (Sim.particles s6) (Sim.dimensions s6)
         (Sim.density s6) (Sim.pgrid s6) 0) in
  let s8 := Sim.set_pgrid s7 (sort (Sim.pgrid s7) (Sim.particles s7)) in
  let s9 :=
    Sim.set_mgrid s8
      (Mac.set_A (Sim.mgrid s8)
         (markCellTypes (Sim.pgrid s8) (Sim.particles s8) (Mac.A (Sim.mgrid s8))
            (Sim.density s8))) in
  (* Remove fluid particles that are stuck in walls *)
  Sim.set_particles s9
    (List.filter (init_keeps (Mac.A (Sim.mgrid s9)) maxd) (Sim.particles s9)).

End Init.

(** ** [fliptask] *)

Section Task.
Context {G : GridOps} {C : Collaborators G}.

Record fliptask : Type := mk_fliptask {
  m_sim : flipsim;
  m_dumpVDB : bool;
  m_dumpOBJ : bool;
  m_dumpPARTIO : bool
}.

(** [fliptask::fliptask] *)
Definition new_fliptask (sim : flipsim) (dumpVDB dumpOBJ dumpPARTIO : bool)
  : fliptask :=
  mk_fliptask sim dumpVDB dumpOBJ dumpPARTIO.

(** [fliptask::execute]: one [step] of the simulator the task points to. *)
Definition execute (task : fliptask) : fliptask :=
  mk_fliptask
    (step (m_dumpVDB task) (m_dumpOBJ task) (m_dumpPARTIO task) (m_sim task)).1.2
    (m_dumpVDB task) (m_dumpOBJ task) (m_dumpPARTIO task).

End Task.

(** ** Concrete collaborators

    The simplest scene and particle grid, over the sparse grid: the inputs
    at which the theorems are exercised and the counterexamples run. *)

Module Demo.

(** A scene: its two level sets, and a solid whose nearest surface point
    lies at a fixed offset from every query point. *)
Record scene : Type := mk_scene {
  liquid : SparseGrid.sgrid float;
  solid : SparseGrid.sgrid float;
  surface_offset : vec3
}.

(** Modelled from the spec: the particle grid ([particlegrid.hpp]), a
    spatial index from cells to the particles inside them. [sort] computes
    each particle's integer cell, the position times the extent, clamped to
    the domain; [getCellNeighbors] returns all particles in the cubic
    neighbourhood [center - radius, center + radius]. *)
Record pgrid : Type := mk_pgrid {
  extent : vec3;
  cell_of_particle : list (Z * Z * Z)
}.

Definition clamp_cell (extent : float) (c : float) : Z :=
  Z.max 0 (Z.min (F32.to_Z extent - 1) (F32.to_Z (F32.mul c extent))).

Definition cell_of (extent : vec3) (q : particle) : Z * Z * Z :=
  (clamp_cell (vx extent) (vx (Pt.p q)),
   clamp_cell (vy extent) (vy (Pt.p q)),
   clamp_cell (vz extent) (vz (Pt.p q))).

Definition sort_pgrid (pg : pgrid) (ps : list particle) : pgrid :=
  mk_pgrid (extent pg) (map (cell_of (extent pg)) ps).

Definition near (c r v : Z) : bool := (c - r <=? v) && (v <=? c + r).

Definition neighbors (pg : pgrid) (center radius : vec3) : list nat :=
  List.filter
    (fun i =>
       match cell_of_particle pg !! i with
       | Some (a, b, c) =>
           near (F32.to_Z (vx center)) (F32.to_Z (vx radius)) a
           && near (F32.to_Z (vy center)) (F32.to_Z (vy radius)) b
           && near (F32.to_Z (vz center)) (F32.to_Z (vz radius)) c
       | None => false
       end)
    (seq 0 (List.length (cell_of_particle pg))).

Definition empty_macgrid : @Mac.macgrid SparseGrid.ops :=
  Mac.mk_macgrid SparseGrid.ops
    (SparseGrid.new F32.zero) (SparseGrid.new F32.zero) (SparseGrid.new F32.zero)
    (SparseGrid.new AIR)
    (SparseGrid.new F32.zero) (SparseGrid.new F32.zero) (SparseGrid.new F32.zero).

(** A stand-in for the trilinear sampler: the face value at the truncated
    position. *)
Definition sample (v : vec3) (m : @Mac.macgrid SparseGrid.ops) : vec3 :=
  mk_vec3 (SparseGrid.get_at (Mac.u_x m) v)
          (SparseGrid.get_at (Mac.u_y m) v)
          (SparseGrid.get_at (Mac.u_z m) v).

Definition squared_distance (a b : vec3) : float := glm.dot (vsub a b) (vsub a b).

(** [max(0, 1 - r2/h^2)^3] *)
Definition smooth_kernel (r2 h : float) : float :=
  let v := glm.max F32.zero (F32.sub F32.one (F32.div r2 (F32.mul h h))) in
  F32.mul (F32.mul v v) v.

Definition collab : Collaborators SparseGrid.ops :=
  {| scene_t := scene;
     particlegrid := pgrid;
     gridtype := unit;
     new_particlegrid := fun maxres _ => mk_pgrid maxres [];
     createMacgrid := fun _ _ => empty_macgrid;
     buildLevelSets := fun sc _ => sc;
     generateParticles := fun _ ps _ _ _ _ => ps;
     projectPointsToSolidSurface :=
       fun sc pts => map (fun v => vadd v (surface_offset sc)) pts;
     exportParticles := fun sc _ _ _ _ _ _ => sc;
     getLiquidLevelSet := liquid;
     getSolidLevelSet := solid;
     sort := sort_pgrid;
     markCellTypes := fun _ _ Ag _ => Ag;
     buildSDF := fun _ m _ => m;
     getCellNeighbors := neighbors;
     splatParticlesToMACGrid := fun _ _ m => m;
     interpolateVelocity := sample;
     enforceBoundaryVelocity := fun m => m;
     resampleParticles := fun _ ps _ _ _ => ps;
     solve := fun m _ _ => m;
     smooth := smooth_kernel;
     sqrlength := squared_distance |}.

(** A simulator over these collaborators, as the constructor leaves it
    but for the fields given. *)
Definition make (dimensions : vec3) (density : float) (sc : scene)
    (m mp : @Mac.macgrid SparseGrid.ops) (ps : list particle)
  : @Sim.flipsim SparseGrid.ops collab :=
  Sim.mk_flipsim SparseGrid.ops collab
    dimensions (mk_pgrid dimensions []) m mp ps F32.zero density sc 0
    (F32.lit 5 1000) 1 (F32.lit 95 100) (F32.lit 4 100) tt false.

Definition vec (a b c : Z) (d : Z) : vec3 :=
  mk_vec3 (F32.lit a d) (F32.lit b d) (F32.lit c d).

Definition still_scene : scene :=
  mk_scene (SparseGrid.new F32.one) (SparseGrid.new F32.one) (vec 0 0 0 1).

Definition a_particle (ty : geomtype) (pos vel : vec3) : particle :=
  Pt.mk_particle pos vel (vec 0 0 0 1) (vec 0 0 0 1) F32.one F32.zero ty false false.

(** One SOLID marker particle at rest in a 4 x 4 x 4 domain. *)
Definition solid_at_rest : @Sim.flipsim SparseGrid.ops collab :=
  make (vec 4 4 4 1) F32.one still_scene empty_macgrid empty_macgrid
    [a_particle SOLID (vec 1 1 1 2) (vec 0 0 0 1)].

(** A MAC grid whose x-face (0, 0, 0) carries velocity 2. *)
Definition flowing_macgrid : @Mac.macgrid SparseGrid.ops :=
  Mac.set_u_x empty_macgrid
    (SparseGrid.set (SparseGrid.new F32.zero) 0 0 0 (F32.of_Z 2)).

(** One FLUID particle in the middle of a 4 x 4 x 4 domain, moving along
    x, before the velocity grid is saved. *)
Definition moving_fluid : @Sim.flipsim SparseGrid.ops collab :=
  make (vec 4 4 4 1) F32.one still_scene empty_macgrid empty_macgrid
    [a_particle FLUID (vec 1 1 1 2) (vec 1 0 0 1)].

(** A scene that is liquid everywhere and solid nowhere, with a cell-type
    grid that is AIR everywhere. *)
Definition wet_scene : scene :=
  mk_scene (SparseGrid.new (F32.of_Z (-1))) (SparseGrid.new F32.one) (vec 0 0 0 1).

Definition wet_but_marked_air : @Sim.flipsim SparseGrid.ops collab :=
  make (vec 4 4 4 1) F32.one wet_scene empty_macgrid empty_macgrid [].

(** Cell types of an [x] by [y] by [z] domain: the shell SOLID, the
    interior AIR. *)
Definition shell_cell_types (x y z : Z) : SparseGrid.sgrid geomtype :=
  for3 x y z
    (fun i j k g =>
       if (i =? 0) || (i =? x - 1) || (j =? 0) || (j =? y - 1)
          || (k =? 0) || (k =? z - 1)
       then SparseGrid.set g i j k SOLID else g)
    (SparseGrid.new AIR).

(** A 4 x 8 x 4 domain (cell size 1/8) with one FLUID particle at
    (0.75, 0.5, 0.5). *)
Definition tall_domain : @Sim.flipsim SparseGrid.ops collab :=
  make (vec 4 8 4 1) F32.one still_scene
    (Mac.set_A empty_macgrid (shell_cell_types 4 8 4)) empty_macgrid
    [a_particle FLUID (vec 3 2 2 4) (vec 0 0 0 1)].

(** A solid whose surface lies one cell further along x; one FLUID
    particle at (0.5, 0.5, 0.5) of a 4 x 4 x 4 domain, marked invalid. *)
Definition a_stuck_particle : particle :=
  Pt.set_invalid (a_particle FLUID (vec 1 1 1 2) (vec 0 0 0 1)) true.

Definition stuck_far : @Sim.flipsim SparseGrid.ops collab :=
  make (vec 4 4 4 1) F32.one
    (mk_scene (SparseGrid.new F32.one) (SparseGrid.new F32.one) (vec 1 0 0 1))
    empty_macgrid empty_macgrid [a_stuck_particle].

(** The same with the surface 2^-14 of a cell away. *)
Definition stuck_near : @Sim.flipsim SparseGrid.ops collab :=
  make (vec 4 4 4 1) F32.one
    (mk_scene (SparseGrid.new F32.one) (SparseGrid.new F32.one) (vec 1 0 0 16384))
    empty_macgrid empty_macgrid [a_stuck_particle].

(** A 4 x 4 x 4 domain (cell size 0.25) at rest, with a FLUID particle at
    (0.25, 0.5, 0.5) and, 1/16 further along x, a SOLID marker whose normal
    (-1, 0, 0) faces the wall x = 0. *)
Definition fluid_by_obstacle : @Sim.flipsim SparseGrid.ops collab :=
  make (vec 4 4 4 1) F32.one still_scene empty_macgrid empty_macgrid
    [ a_particle FLUID (vec 1 2 2 4) (vec 0 0 0 1);
      Pt.mk_particle (vec 5 8 8 16) (vec 0 0 0 1) (vec (-1) 0 0 1) (vec 0 0 0 1)
        F32.one F32.zero SOLID false false ].

(** The same domain with the FLUID particle alone, outside the walls. *)
Definition fluid_alone : @Sim.flipsim SparseGrid.ops collab :=
  make (vec 4 4 4 1) F32.one still_scene empty_macgrid empty_macgrid
    [ a_particle FLUID (vec (-1) 2 5 4) (vec 0 0 0 1) ].

(** A liquid surface across the x-face (2, 1, 1) of a 4 x 4 x 4 domain:
    cell (1, 1, 1) is liquid (L = -1) with pressure 3, every other cell is
    air (L = 1) with pressure 0. *)
Definition surface_macgrid : @Mac.macgrid SparseGrid.ops :=
  Mac.mk_macgrid SparseGrid.ops
    (SparseGrid.new F32.zero) (SparseGrid.new F32.zero) (SparseGrid.new F32.zero)
    (SparseGrid.new AIR)
    (SparseGrid.set (SparseGrid.new F32.zero) 1 1 1 (F32.of_Z 3))
    (SparseGrid.new F32.zero)
    (SparseGrid.set (SparseGrid.new F32.one) 1 1 1 (F32.of_Z (-1))).

Definition at_surface : @Sim.flipsim SparseGrid.ops collab :=
  make (vec 4 4 4 1) F32.one still_scene surface_macgrid empty_macgrid [].

(** A 3 x 1 x 1 domain: cell 0 is FLUID, the x-face 1 carries velocity 6;
    cells 1 and 2 are AIR in the first simulator and SOLID in the
    second. *)
Definition fluid_then (ty : geomtype) : @Mac.macgrid SparseGrid.ops :=
  Mac.set_A
    (Mac.set_u_x empty_macgrid
       (SparseGrid.set (SparseGrid.new F32.zero) 1 0 0 (F32.of_Z 6)))
    (SparseGrid.set (SparseGrid.new ty) 0 0 0 FLUID).

Definition fluid_then_air : @Sim.flipsim SparseGrid.ops collab :=
  make (vec 3 1 1 1) F32.one still_scene (fluid_then AIR) empty_macgrid [].

Definition fluid_then_solid : @Sim.flipsim SparseGrid.ops collab :=
  make (vec 3 1 1 1) F32.one still_scene (fluid_then SOLID) empty_macgrid [].

(** A domain of 2^24 + 4 cells along x: cell 2^24 - 1 is FLUID, cell 2^24
    is AIR and every other cell SOLID; the x-face 2^24 carries the
    velocity 6. *)
Definition long_domain : @Sim.flipsim SparseGrid.ops collab :=
  make (vec 16777220 1 1 1) F32.one still_scene
    (Mac.set_A
       (Mac.set_u_x empty_macgrid
          (SparseGrid.set (SparseGrid.new F32.zero) 16777216 0 0 (F32.of_Z 6)))
       (SparseGrid.set (SparseGrid.set (SparseGrid.new SOLID) 16777215 0 0 FLUID)
          16777216 0 0 AIR))
    empty_macgrid [].

End Demo.

(** * Properties *)

(** ** Loops over the particle vector *)

Lemma update_at_middle (f : particle -> particle) (l1 l2 : list particle) q :
  update_at (List.length l1) f (l1 ++ q :: l2) = l1 ++ f q :: l2.
Proof.
  unfold update_at.
  rewrite lookup_app_r by lia.
  replace (List.length l1 - List.length l1)%nat with 0%nat by lia. simpl.
  rewrite insert_app_r_alt by lia.
  replace (List.length l1 - List.length l1)%nat with 0%nat by lia. done.
Qed.

Lemma for_particles_from (f : particle -> particle) (l2 l1 : list particle) :
  fold_left (fun acc i => update_at i f acc)
    (seq (List.length l1) (List.length l2)) (l1 ++ l2)
  = l1 ++ map f l2.
Proof.
  revert l1. induction l2 as [|q l2 IH]; intros l1; simpl.
  - done.
  - rewrite update_at_middle.
    replace (l1 ++ f q :: l2) with ((l1 ++ [f q]) ++ l2)
      by (rewrite <- app_assoc; done).
    replace (S (List.length l1)) with (List.length (l1 ++ [f q]))
      by (rewrite length_app; simpl; lia).
    rewrite IH. rewrite <- app_assoc. done.
Qed.

(** Updating every index in place is the pointwise map. *)
Lemma for_particles_map (f : particle -> particle) (ps : list particle) :
  for_particles f ps = map f ps.
Proof.
  unfold for_particles, for_each.
  apply (for_particles_from f ps []).
Qed.

Lemma for_particles_lookup (f : particle -> particle) (ps : list particle) i q :
  ps !! i = Some q -> for_particles f ps !! i = Some (f q).
Proof.
  intros H. rewrite for_particles_map, list_lookup_fmap, H. done.
Qed.

(** ** [applyExternalForces] *)

(** C2, as stated, fails: the loop has no test on the particle type. A
    SOLID particle at rest in a 4 x 4 x 4 domain leaves
    [applyExternalForces] with velocity [(0, -9.8f * 0.005f, 0)]. *)
Lemma applyExternalForces_moves_solid :
  exists q q',
    Sim.particles Demo.solid_at_rest !! 0%nat = Some q
    /\ Pt.type q = SOLID
    /\ Sim.particles (applyExternalForces Demo.solid_at_rest) !! 0%nat = Some q'
    /\ Pt.u q = mk_vec3 F32.zero F32.zero F32.zero
    /\ Pt.u q' = mk_vec3 F32.zero (F32.mul (F32.opp (F32.lit 98 10)) (F32.lit 5 1000))
                   F32.zero
    /\ Pt.u q' <> Pt.u q.
Proof.
  eexists _, _. split; [reflexivity|]. split; [reflexivity|].
  split; [vm_compute; reflexivity|].
  split; [vm_compute; reflexivity|].
  split; [vm_compute; reflexivity|].
  vm_compute. discriminate.
Qed.

(** C2, amended: gravity times the step size is added to the velocity of
    every particle, whatever its type; nothing else of a particle
    changes. *)
Theorem applyExternalForces_all_particles
    {G : GridOps} {C : Collaborators G} (s : flipsim) :
  gravity = mk_vec3 F32.zero (F32.opp (F32.lit 98 10)) F32.zero
  /\ Sim.particles (applyExternalForces s)
     = map (fun q => Pt.set_u q (vadd (Pt.u q) (vscale gravity (Sim.stepsize s))))
         (Sim.particles s).
Proof.
  split; [reflexivity|].
  unfold applyExternalForces. simpl. apply for_particles_map.
Qed.

(** ** Loops over grid indices *)

Lemma elem_of_range (n i : Z) : i ∈ range n <-> 0 <= i < n.
Proof.
  unfold range. rewrite list_elem_of_fmap. split.
  - intros (k & -> & Hk). apply elem_of_seq in Hk. lia.
  - intros H. exists (Z.to_nat i). split; [lia|]. apply elem_of_seq. lia.
Qed.

Lemma NoDup_range (n : Z) : NoDup (range n).
Proof.
  unfold range. apply NoDup_fmap_2; [apply _ | apply NoDup_seq].
Qed.

Lemma elem_of_triples (a b c i j k : Z) :
  (i, j, k) ∈ triples a b c <-> (0 <= i < a /\ 0 <= j < b /\ 0 <= k < c).
Proof.
  unfold triples. rewrite list_elem_of_bind. split.
  - intros (i' & H1 & Hi). apply list_elem_of_bind in H1 as (j' & H2 & Hj).
    apply list_elem_of_fmap in H2 as (k' & Heq & Hk). inversion Heq; subst.
    rewrite elem_of_range in Hi, Hj, Hk. done.
  - intros (Hi & Hj & Hk). exists i. rewrite elem_of_range. split; [|done].
    apply list_elem_of_bind. exists j. rewrite elem_of_range. split; [|done].
    apply list_elem_of_fmap. exists k. rewrite elem_of_range. done.
Qed.

Lemma NoDup_triples (a b c : Z) : NoDup (triples a b c).
Proof.
  unfold triples. apply NoDup_bind; [| |apply NoDup_range].
  - intros i1 i2 [[i j] k] _ _ H1 H2.
    apply list_elem_of_bind in H1 as (j1 & H1 & _).
    apply list_elem_of_bind in H2 as (j2 & H2 & _).
    apply list_elem_of_fmap in H1 as (k1 & E1 & _).
    apply list_elem_of_fmap in H2 as (k2 & E2 & _). congruence.
  - intros i _. apply NoDup_bind; [| |apply NoDup_range].
    + intros j1 j2 [[i' j] k] _ _ H1 H2.
      apply list_elem_of_fmap in H1 as (k1 & E1 & _).
      apply list_elem_of_fmap in H2 as (k2 & E2 & _). congruence.
    + intros j _. apply NoDup_fmap_2; [|apply NoDup_range].
      intros k1 k2 E. congruence.
Qed.

Lemma fold_left_bind {S X Y : Type} (g : S -> Y -> S) (f : X -> list Y)
    (l : list X) (s : S) :
  fold_left g (l ≫= f) s = fold_left (fun acc x => fold_left g (f x) acc) l s.
Proof.
  revert s. induction l as [|x l IH]; intros s; simpl; [done|].
  rewrite fold_left_app. apply IH.
Qed.

Lemma fold_left_fmap {S X Y : Type} (g : S -> Y -> S) (f : X -> Y)
    (l : list X) (s : S) :
  fold_left g (f <$> l) s = fold_left (fun acc x => g acc (f x)) l s.
Proof.
  revert s. induction l as [|x l IH]; intros s; simpl; [done|]. apply IH.
Qed.

Lemma fold_left_ext_all {S X : Type} (f g : S -> X -> S) (l : list X) (s : S) :
  (forall acc x, f acc x = g acc x) -> fold_left f l s = fold_left g l s.
Proof.
  intros H. revert s. induction l as [|x l IH]; intros s; simpl; [done|].
  rewrite H. apply IH.
Qed.

(** The loop nest is one loop over [triples]. *)
Lemma for3_triples {S : Type} (a b c : Z) (body : Z -> Z -> Z -> S -> S) (s : S) :
  for3 a b c body s
  = fold_left (fun acc q => body q.1.1 q.1.2 q.2 acc) (triples a b c) s.
Proof.
  unfold for3, for_each, triples.
  rewrite fold_left_bind. apply fold_left_ext_all. intros acc i.
  rewrite fold_left_bind. apply fold_left_ext_all. intros acc' j.
  rewrite fold_left_fmap. done.
Qed.

Lemma in_box_triples (a b c i j k : Z) :
  in_box a b c i j k = bool_decide ((i, j, k) ∈ triples a b c).
Proof.
  unfold in_box. destruct (bool_decide _) eqn:E.
  - apply bool_decide_eq_true in E. apply elem_of_triples in E. lia.
  - apply bool_decide_eq_false in E. rewrite elem_of_triples in E. lia.
Qed.

Section GridSweeps.
Context {G : GridOps} {GL : GridLaws G}.

Lemma getCell_setCell {T : Type} (g : grid T) i j k v i' j' k' :
  getCell (setCell g i j k v) i' j' k'
  = if bool_decide ((i, j, k) = (i', j', k')) then v else getCell g i' j' k'.
Proof.
  case_bool_decide as E.
  - inversion E; subst. apply getCell_setCell_eq.
  - by apply getCell_setCell_ne.
Qed.

(** A sweep that rewrites each visited cell from its own former value:
    every cell is rewritten at most once when no index is repeated. *)
Lemma sweep_own {T : Type} (cnd : Z * Z * Z -> bool) (f : Z * Z * Z -> T -> T)
    (l : list (Z * Z * Z)) (g : grid T) (i j k : Z) :
  NoDup l ->
  getCell
    (fold_left
       (fun acc q =>
          if cnd q then setCell acc q.1.1 q.1.2 q.2 (f q (getCell acc q.1.1 q.1.2 q.2))
          else acc) l g) i j k
  = if bool_decide ((i, j, k) ∈ l) && cnd (i, j, k)
    then f (i, j, k) (getCell g i j k) else getCell g i j k.
Proof.
  intros ND. revert g. induction ND as [|q l Hq ND IH]; intros g; simpl.
  - done.
  - rewrite IH. destruct q as [[qi qj] qk]. simpl.
    destruct (decide ((qi, qj, qk) = (i, j, k))) as [E|NE].
    + inversion E; subst.
      rewrite (bool_decide_eq_false_2 _ Hq). simpl.
      rewrite bool_decide_eq_true_2 by (left). simpl.
      destruct (cnd (i, j, k)); [apply getCell_setCell_eq|done].
    + assert (bool_decide ((i, j, k) ∈ (qi, qj, qk) :: l) = bool_decide ((i, j, k) ∈ l))
        as ->.
      { apply bool_decide_ext. rewrite elem_of_cons. split; [intros [E|E]; [congruence|done] | by right]. }
      destruct (cnd (qi, qj, qk)); [|done].
      rewrite getCell_setCell_ne by done. done.
Qed.

Lemma for3_sweep {T : Type} (a b c : Z) (cnd : Z -> Z -> Z -> bool)
    (f : Z -> Z -> Z -> T -> T) (g : grid T) (i j k : Z) :
  getCell
    (for3 a b c
       (fun i j k acc =>
          if cnd i j k then setCell acc i j k (f i j k (getCell acc i j k)) else acc)
       g) i j k
  = if in_box a b c i j k && cnd i j k
    then f i j k (getCell g i j k) else getCell g i j k.
Proof.
  rewrite for3_triples.
  rewrite (sweep_own (fun q => cnd q.1.1 q.1.2 q.2) (fun q => f q.1.1 q.1.2 q.2))
    by apply NoDup_triples.
  rewrite in_box_triples. done.
Qed.

Lemma for3_ext {S : Type} (a b c : Z) (body1 body2 : Z -> Z -> Z -> S -> S) (s : S) :
  (forall i j k acc, body1 i j k acc = body2 i j k acc) ->
  for3 a b c body1 s = for3 a b c body2 s.
Proof.
  intros H. rewrite !for3_triples. apply fold_left_ext_all. intros. apply H.
Qed.

(** The unconditional forms. *)
Lemma for3_own {T : Type} (a b c : Z) (f : Z -> Z -> Z -> T -> T)
    (g : grid T) (i j k : Z) :
  getCell (for3 a b c (fun i j k acc => setCell acc i j k (f i j k (getCell acc i j k))) g)
    i j k
  = if in_box a b c i j k then f i j k (getCell g i j k) else getCell g i j k.
Proof.
  pose proof (for3_sweep a b c (fun _ _ _ => true) f g i j k) as H.
  rewrite andb_true_r in H. exact H.
Qed.

Lemma for3_fill {T : Type} (a b c : Z) (v : Z -> Z -> Z -> T)
    (g : grid T) (i j k : Z) :
  getCell (for3 a b c (fun i j k acc => setCell acc i j k (v i j k)) g) i j k
  = if in_box a b c i j k then v i j k else getCell g i j k.
Proof.
  apply (for3_own a b c (fun i j k _ => v i j k)).
Qed.

End GridSweeps.

(** ** binary32 facts *)

(** Addition is commutative, also at the zeros, the infinities and NaN. *)
Lemma F32_add_comm (a b : float) : F32.add a b = F32.add b a.
Proof.
  unfold F32.add, SFadd.
  destruct a as [[]|[]| |sa ma ea], b as [[]|[]| |sb mb eb]; try reflexivity.
  rewrite (Z.min_comm eb ea). cbv zeta. f_equal. apply Z.add_comm.
Qed.

Lemma vadd_comm (a b : vec3) : vadd a b = vadd b a.
Proof.
  unfold vadd. f_equal; apply F32_add_comm.
Qed.

(** [a <= a] holds for every value but NaN. *)
Lemma F32_leb_refl (a : float) : F32.is_nan a = false -> F32.leb a a = true.
Proof.
  unfold F32.leb, SFleb, SFcompare.
  destruct a as [[]|[]| |[] m e]; simpl; try done; intros _.
  - rewrite Z.compare_refl, Pos.compare_cont_refl. done.
  - rewrite Z.compare_refl, Pos.compare_cont_refl. done.
Qed.

Lemma F32_ltb_leb (a b : float) : F32.ltb a b = true -> F32.leb a b = true.
Proof.
  unfold F32.ltb, F32.leb, SFltb, SFleb.
  destruct (SFcompare a b) as [[]|]; done.
Qed.

Lemma F32_leb_not_nan (a b : float) :
  F32.leb a b = true -> F32.is_nan a = false /\ F32.is_nan b = false.
Proof.
  unfold F32.leb, SFleb, SFcompare.
  destruct a as [[]|[]| |[] ma ea], b as [[]|[]| |[] mb eb]; simpl; done.
Qed.

(** ** Integers in binary32

    An [unsigned int] up to 2^24 converts to [float] and back without
    change, and is compared in [float] as it is as an integer. *)

Lemma digits2_pos_size (p : positive) : digits2_pos p = Pos.size p.
Proof. induction p; simpl; congruence. Qed.

Lemma Zpos_iter_xO (p k : positive) :
  Zpos (Pos.iter xO p k) = Zpos p * 2 ^ Zpos k.
Proof.
  induction k as [|k IH] using Pos.peano_ind.
  - simpl. lia.
  - rewrite Pos.iter_succ, Pos2Z.inj_succ, Z.pow_succ_r by lia.
    rewrite Pos2Z.inj_xO, IH. lia.
Qed.

Lemma size_iter_xO (p k : positive) :
  Zpos (Pos.size (Pos.iter xO p k)) = Zpos (Pos.size p) + Zpos k.
Proof.
  induction k as [|k IH] using Pos.peano_ind.
  - simpl. lia.
  - rewrite Pos.iter_succ. cbn [Pos.size]. rewrite Pos2Z.inj_succ, IH. lia.
Qed.

Lemma size_bounds (p : positive) :
  2 ^ (Zpos (Pos.size p) - 1) <= Zpos p < 2 ^ Zpos (Pos.size p).
Proof.
  pose proof (Pos.size_gt p) as Hgt. pose proof (Pos.size_le p) as Hle.
  split.
  - assert (2 ^ Zpos (Pos.size p) <= 2 * Zpos p).
    { rewrite <- Pos2Z.inj_pow. change (2 * Zpos p) with (Zpos p~0). lia. }
    replace (Zpos (Pos.size p)) with (Z.succ (Zpos (Pos.size p) - 1)) in H by lia.
    rewrite Z.pow_succ_r in H by lia. lia.
  - rewrite <- Pos2Z.inj_pow. lia.
Qed.

Lemma size_le_24 (p : positive) : Zpos p < 2 ^ 24 -> Zpos (Pos.size p) <= 24.
Proof.
  intros H. pose proof (size_bounds p) as [Hlo _].
  destruct (Z_le_gt_dec (Zpos (Pos.size p)) 24) as [|Hgt]; [done|].
  assert (2 ^ 24 <= 2 ^ (Zpos (Pos.size p) - 1)) by (apply Z.pow_le_mono_r; lia).
  lia.
Qed.


Lemma binary_round_aux_exact (m : positive) (e : Z) :
  Zpos (Pos.size m) = 24 -> -149 <= e <= 104 ->
  binary_round_aux 24 128 false (Zpos m) e loc_Exact = S754_finite false m e.
Proof.
  intros Hm He.
  unfold binary_round_aux, shr_fexp, fexp, emin. cbn [Zdigits2].
  rewrite digits2_pos_size, Hm.
  replace (Z.max (24 + e - 24) (3 - 128 - 24) - e) with 0 by lia.
  cbn [shr shr_record_of_loc shr_m loc_of_shr_record round_nearest_even Zdigits2].
  rewrite digits2_pos_size, Hm.
  replace (Z.max (24 + e - 24) (3 - 128 - 24) - e) with 0 by lia.
  cbn [shr shr_m].
  replace (e <=? 128 - 24) with true by (symmetry; apply Z.leb_le; lia).
  reflexivity.
Qed.

(** The float of a positive integer below 2^24: the integer, shifted to
    24 digits. *)
Lemma of_Z_small (p : positive) :
  Zpos p < 2 ^ 24 ->
  F32.of_Z (Zpos p)
  = match Zpos (Pos.size p) - 24 with
    | Zneg k => S754_finite false (Pos.iter xO p k) (Zneg k)
    | _ => S754_finite false p 0
    end.
Proof.
  intros H. pose proof (size_le_24 p H) as Hs.
  unfold F32.of_Z, binary_normalize, binary_round, shl_align, fexp, emin.
  rewrite digits2_pos_size.
  change F32.prec with 24. change F32.emax with 128.
  rewrite Z.add_0_r, Z.sub_0_r.
  rewrite Z.max_l by lia.
  destruct (Zpos (Pos.size p) - 24) as [|q|k] eqn:E; [|lia|].
  - apply binary_round_aux_exact; lia.
  - apply binary_round_aux_exact; [rewrite size_iter_xO|]; lia.
Qed.

Lemma of_Z_canonical (a : Z) :
  0 < a <= 2 ^ 24 ->
  exists m e, F32.of_Z a = S754_finite false m e
    /\ -23 <= e <= 1 /\ 2 ^ 23 <= Zpos m < 2 ^ 24
    /\ Zpos m * 2 ^ (e + 23) = a * 2 ^ 23.
Proof.
  intros Ha. destruct (decide (a = 2 ^ 24)) as [->|NE].
  { exists 8388608%positive, 1. repeat split; try (vm_compute; congruence). }
  destruct a as [|p|p]; [lia| |lia].
  assert (Zpos p < 2 ^ 24) as H by lia.
  pose proof (size_le_24 p H) as Hs. pose proof (size_bounds p) as Hb.
  rewrite of_Z_small by done.
  destruct (Zpos (Pos.size p) - 24) as [|q|k] eqn:E; [|lia|].
  - exists p, 0. split; [done|]. split; [lia|].
    replace (Zpos (Pos.size p)) with 24 in Hb by lia.
    split; [simpl in *; lia|]. simpl. lia.
  - exists (Pos.iter xO p k), (Z.neg k). split; [done|].
    pose proof (size_bounds (Pos.iter xO p k)) as Hb'.
    rewrite size_iter_xO in Hb'.
    replace (Zpos (Pos.size p) + Zpos k) with 24 in Hb' by lia.
    assert (Zpos k <= 23) by lia.
    split; [lia|]. split; [simpl in *; lia|].
    rewrite Zpos_iter_xO.
    replace (2 ^ 23) with (2 ^ Zpos k * 2 ^ (Z.neg k + 23)).
    + lia.
    + rewrite <- Z.pow_add_r by lia. f_equal. lia.
Qed.

Lemma to_Z_of_Z (a : Z) : 0 <= a <= 2 ^ 24 -> F32.to_Z (F32.of_Z a) = a.
Proof.
  intros Ha. destruct (decide (a = 0)) as [->|NE]; [done|].
  destruct (of_Z_canonical a ltac:(lia)) as (m & e & -> & He & Hm & Hv).
  unfold F32.to_Z. destruct e as [|q|q].
  - simpl in Hv. lia.
  - assert (q = 1%positive) as -> by lia.
    change (2 ^ (1 + 23)) with 16777216 in Hv. change (2 ^ 23) with 8388608 in Hv.
    change (2 ^ 1) with 2. lia.
  - assert (2 ^ 23 = 2 ^ Zpos q * 2 ^ (Z.neg q + 23)) as E.
    { rewrite <- Z.pow_add_r by lia. f_equal. lia. }
    rewrite E in Hv.
    assert (0 < 2 ^ (Z.neg q + 23)) by (apply Z.pow_pos_nonneg; lia).
    assert (Zpos m = a * 2 ^ Zpos q) as -> by nia.
    apply Z.div_mul. apply Z.pow_nonzero; lia.
Qed.

Lemma canonical_lt (m1 m2 : positive) (e1 e2 : Z) :
  -23 <= e1 -> -23 <= e2 ->
  2 ^ 23 <= Zpos m1 < 2 ^ 24 -> 2 ^ 23 <= Zpos m2 < 2 ^ 24 ->
  F32.ltb (S754_finite false m1 e1) (S754_finite false m2 e2)
  = (Zpos m1 * 2 ^ (e1 + 23) <? Zpos m2 * 2 ^ (e2 + 23)).
Proof.
  intros He1 He2 Hm1 Hm2.
  unfold F32.ltb, SFltb, SFcompare.
  rewrite Pos.compare_cont_spec. cbn [Pos.switch_Eq].
  destruct (Z.compare_spec e1 e2) as [->|Hlt|Hgt].
  - assert (0 < 2 ^ (e2 + 23)) by (apply Z.pow_pos_nonneg; lia).
    change (m1 ?= m2)%positive with (Zpos m1 ?= Zpos m2).
    destruct (Z.compare_spec (Zpos m1) (Zpos m2)) as [E|E|E]; symmetry.
    + rewrite E. apply Z.ltb_irrefl.
    + apply Z.ltb_lt. nia.
    + apply Z.ltb_ge. nia.
  - symmetry. apply Z.ltb_lt.
    assert (2 ^ (e2 + 23) = 2 ^ (e1 + 23) * 2 ^ (e2 - e1)) as ->.
    { rewrite <- Z.pow_add_r by lia. f_equal. lia. }
    assert (0 < 2 ^ (e1 + 23)) by (apply Z.pow_pos_nonneg; lia).
    assert (2 ^ 1 <= 2 ^ (e2 - e1)) by (apply Z.pow_le_mono_r; lia).
    change (2 ^ 1) with 2 in *.
    change (2 ^ 23) with 8388608 in *. change (2 ^ 24) with 16777216 in *.
    set (A := 2 ^ (e1 + 23)) in *. set (B := 2 ^ (e2 - e1)) in *.
    assert (Zpos m1 * A < 16777216 * A) by nia.
    assert (8388608 * (A * B) <= Zpos m2 * (A * B)) by nia.
    nia.
  - symmetry. apply Z.ltb_ge.
    assert (2 ^ (e1 + 23) = 2 ^ (e2 + 23) * 2 ^ (e1 - e2)) as ->.
    { rewrite <- Z.pow_add_r by lia. f_equal. lia. }
    assert (0 < 2 ^ (e2 + 23)) by (apply Z.pow_pos_nonneg; lia).
    assert (2 ^ 1 <= 2 ^ (e1 - e2)) by (apply Z.pow_le_mono_r; lia).
    change (2 ^ 1) with 2 in *.
    change (2 ^ 23) with 8388608 in *. change (2 ^ 24) with 16777216 in *.
    set (A := 2 ^ (e2 + 23)) in *. set (B := 2 ^ (e1 - e2)) in *.
    assert (Zpos m2 * A < 16777216 * A) by nia.
    assert (8388608 * (A * B) <= Zpos m1 * (A * B)) by nia.
    nia.
Qed.

Lemma ltb_of_Z (a b : Z) :
  0 <= a <= 2 ^ 24 -> 0 <= b <= 2 ^ 24 ->
  F32.ltb (F32.of_Z a) (F32.of_Z b) = (a <? b).
Proof.
  intros Ha Hb.
  destruct (decide (b = 0)) as [->|NEb].
  { destruct (decide (a = 0)) as [->|NEa]; [done|].
    destruct (of_Z_canonical a ltac:(lia)) as (m & e & -> & _).
    symmetry. change (F32.ltb _ _) with false. apply Z.ltb_ge. lia. }
  destruct (of_Z_canonical b ltac:(lia)) as (mb & eb & -> & Heb & Hmb & Hvb).
  destruct (decide (a = 0)) as [->|NEa].
  { symmetry. change (F32.ltb _ _) with true. apply Z.ltb_lt. lia. }
  destruct (of_Z_canonical a ltac:(lia)) as (ma & ea & -> & Hea & Hma & Hva).
  rewrite canonical_lt by lia. rewrite Hva, Hvb.
  destruct (Z.ltb_spec a b), (Z.ltb_spec (a * 2 ^ 23) (b * 2 ^ 23)); lia.
Qed.

Lemma leb_zero_of_Z (a : Z) :
  0 <= a <= 2 ^ 24 -> F32.leb (F32.of_Z 0) (F32.of_Z a) = true.
Proof.
  intros Ha. destruct (decide (a = 0)) as [->|NE]; [done|].
  by destruct (of_Z_canonical a ltac:(lia)) as (m & e & -> & _).
Qed.

(** An index that the unsigned subtraction wrapped to 2^32 - 1 fails the
    upper range test. *)
Lemma ltb_wrapped_of_Z (b : Z) :
  0 <= b <= 2 ^ 24 -> F32.ltb (F32.of_Z (2 ^ 32 - 1)) (F32.of_Z b) = false.
Proof.
  intros Hb. destruct (decide (b = 0)) as [->|NE]; [done|].
  destruct (of_Z_canonical b ltac:(lia)) as (m & e & -> & He & Hm & Hv).
  change (F32.of_Z (2 ^ 32 - 1)) with (S754_finite false 8388608 9).
  rewrite canonical_lt by (simpl; lia).
  apply Z.ltb_ge. rewrite Hv. change (9 + 23) with 32. lia.
Qed.

(** ** [storePreviousGrid], [subtractPreviousGrid] and [solvePicFlip] *)

Section PicFlip.
Context {G : GridOps} {GL : GridLaws G} {C : Collaborators G}.

Lemma storePreviousGrid_faces (s : flipsim) (n : axis) (i j k : Z) :
  getCell (get_u n (Sim.mgrid_previous (storePreviousGrid s))) i j k
  = if in_faces (dim_x s) (dim_y s) (dim_z s) n i j k
    then getCell (get_u n (Sim.mgrid s)) i j k
    else getCell (get_u n (Sim.mgrid_previous s)) i j k.
Proof.
  unfold storePreviousGrid, in_faces. destruct n; simpl; apply for3_fill.
Qed.

Lemma subtractPreviousGrid_faces (s : flipsim) (n : axis) (i j k : Z) :
  getCell (get_u n (Sim.mgrid_previous (subtractPreviousGrid s))) i j k
  = if in_faces (dim_x s) (dim_y s) (dim_z s) n i j k
    then F32.sub (getCell (get_u n (Sim.mgrid s)) i j k)
                 (getCell (get_u n (Sim.mgrid_previous s)) i j k)
    else getCell (get_u n (Sim.mgrid_previous s)) i j k.
Proof.
  unfold subtractPreviousGrid, in_faces.
  destruct n; simpl;
    match goal with
    | |- context [for3 ?a ?b ?c _ ?g] =>
        match goal with
        | |- context [F32.sub (getCell ?m _ _ _) _] =>
            apply (for3_own a b c (fun i j k old => F32.sub (getCell m i j k) old) g)
        end
    end.
Qed.

Lemma solvePicFlip_particles (s : flipsim) :
  Sim.particles (solvePicFlip s)
  = map (fun q =>
           let pic := interpolateVelocity (Pt.p q) (Sim.mgrid s) in
           let flip := vadd (interpolateVelocity (Pt.p q) (Sim.mgrid_previous s))
                            (Pt.u q) in
           Pt.set_u (Pt.set_t q flip)
             (vadd (scalev (F32.sub F32.one (Sim.picflipratio s)) pic)
                   (scalev (Sim.picflipratio s) flip)))
        (Sim.particles s).
Proof.
  unfold solvePicFlip, splatMACGridToParticles. simpl.
  rewrite !for_particles_map, !map_map. apply map_ext. intros []; reflexivity.
Qed.

End PicFlip.

Lemma SparseGrid_laws : GridLaws SparseGrid.ops.
Proof.
  split; simpl; unfold SparseGrid.get, SparseGrid.set, SparseGrid.new; simpl; intros.
  - by rewrite lookup_empty.
  - by rewrite lookup_insert_eq.
  - by rewrite lookup_insert_ne.
Qed.

Section Blend.
Context {G : GridOps} {GL : GridLaws G} {C : Collaborators G}.

(** C1. Let [s0] be the simulator when [storePreviousGrid] runs and [s] the
    simulator when [subtractPreviousGrid] runs (same extents, and the saved
    grid still in [mgrid_previous]). After [subtractPreviousGrid] and
    [solvePicFlip], every particle's velocity is
    [(1 - picflipratio) * PIC + picflipratio * FLIP], where PIC is the
    gather of [mgrid] at the particle's position and FLIP is the velocity
    on entry plus the gather of [mgrid_previous]; [mgrid] is as before, and
    each face of [mgrid_previous] holds the face of [mgrid] minus the saved
    one. The constructor sets [picflipratio] to [.95f]. *)
Theorem solvePicFlip_blend (s0 s : flipsim) (idx : nat) (q : particle) :
  Sim.dimensions s = Sim.dimensions s0 ->
  Sim.mgrid_previous s = Sim.mgrid_previous (storePreviousGrid s0) ->
  Sim.particles s !! idx = Some q ->
  let s' := solvePicFlip (subtractPreviousGrid s) in
  let r := Sim.picflipratio s' in
  let PIC := interpolateVelocity (Pt.p q) (Sim.mgrid s') in
  let FLIP :=
    vadd (Pt.u q) (interpolateVelocity (Pt.p q) (Sim.mgrid_previous s')) in
  (exists q',
     Sim.particles s' !! idx = Some q'
     /\ Pt.u q' = vadd (scalev (F32.sub F32.one r) PIC) (scalev r FLIP))
  /\ Sim.mgrid s' = Sim.mgrid s
  /\ (forall n i j k,
        in_faces (dim_x s) (dim_y s) (dim_z s) n i j k = true ->
        getCell (get_u n (Sim.mgrid_previous s')) i j k
        = F32.sub (getCell (get_u n (Sim.mgrid s)) i j k)
                  (getCell (get_u n (Sim.mgrid s0)) i j k))
  /\ (forall maxres sc d ty vb,
        Sim.picflipratio (new_flipsim maxres sc d ty vb) = F32.lit 95 100).
Proof.
  intros Hdim Hprev Hq s' r PIC FLIP.
  split; [|split; [|split]].
  - subst s'. rewrite solvePicFlip_particles.
    rewrite list_lookup_fmap.
    change (Sim.particles (subtractPreviousGrid s)) with (Sim.particles s).
    rewrite Hq. simpl. eexists. split; [reflexivity|].
    subst PIC FLIP r. simpl. rewrite (vadd_comm (Pt.u q)). reflexivity.
  - reflexivity.
  - intros n i j k Hin.
    change (Sim.mgrid_previous s')
      with (Sim.mgrid_previous (subtractPreviousGrid s)).
    rewrite subtractPreviousGrid_faces, Hin, Hprev, storePreviousGrid_faces.
    assert (dim_x s0 = dim_x s /\ dim_y s0 = dim_y s /\ dim_z s0 = dim_z s)
      as (-> & -> & ->) by (unfold dim_x, dim_y, dim_z; rewrite Hdim; done).
    rewrite Hin. reflexivity.
  - reflexivity.
Qed.

End Blend.

Lemma solvePicFlip_blend_witness :
  let s0 := Demo.moving_fluid in
  let s := Sim.set_mgrid (storePreviousGrid s0) Demo.flowing_macgrid in
  let q := Demo.a_particle FLUID (Demo.vec 1 1 1 2) (Demo.vec 1 0 0 1) in
  let s' := solvePicFlip (subtractPreviousGrid s) in
  let r := Sim.picflipratio s' in
  let PIC := @interpolateVelocity _ Demo.collab (Pt.p q) (Sim.mgrid s') in
  let FLIP :=
    vadd (Pt.u q)
      (@interpolateVelocity _ Demo.collab (Pt.p q) (Sim.mgrid_previous s')) in
  Sim.dimensions s = Sim.dimensions s0
  /\ Sim.mgrid_previous s = Sim.mgrid_previous (storePreviousGrid s0)
  /\ Sim.particles s !! 0%nat = Some q
  /\ exists q',
       Sim.particles s' !! 0%nat = Some q'
       /\ Pt.u q' = vadd (scalev (F32.sub F32.one r) PIC) (scalev r FLIP).
Proof.
  intros s0 s q s' r PIC FLIP.
  assert (H1 : Sim.dimensions s = Sim.dimensions s0) by reflexivity.
  assert (H2 : Sim.mgrid_previous s = Sim.mgrid_previous (storePreviousGrid s0))
    by reflexivity.
  assert (H3 : Sim.particles s !! 0%nat = Some q) by reflexivity.
  split; [exact H1|]. split; [exact H2|]. split; [exact H3|].
  exact (proj1 (@solvePicFlip_blend SparseGrid.ops SparseGrid_laws Demo.collab
                  s0 s 0%nat q H1 H2 H3)).
Defined.

(** ** [step] *)

Section StepPipeline.
Context {G : GridOps} {C : Collaborators G}.

(** A call followed by the rest of [step]: the call is logged first, and
    the rest runs from the state the call leaves. *)
Lemma call_then (ph : phase) (f : flipsim -> flipsim) (m : Logged unit)
    (F : phase -> flipsim -> flipsim) (rest : list phase) (s : flipsim) :
  F ph s = f s ->
  m (f s) = (tt, for_each rest F (f s), rest) ->
  bind (call ph f) (fun _ => m) s = (tt, for_each (ph :: rest) F s, ph :: rest).
Proof.
  intros HF Hm. unfold bind, call. rewrite Hm.
  unfold for_each. cbn [fold_left app]. by rewrite HF.
Qed.

Lemma get_then {T : Type} (k : flipsim -> Logged T) (s : flipsim) :
  bind get k s = k s s.
Proof. unfold bind, get. by destruct (k s s) as [[w s2] l2]. Qed.

Lemma call_last (ph : phase) (f : flipsim -> flipsim)
    (F : phase -> flipsim -> flipsim) (s : flipsim) :
  F ph s = f s -> call ph f s = (tt, for_each [ph] F s, [ph]).
Proof. intros HF. unfold call, for_each. cbn [fold_left]. by rewrite HF. Qed.

End StepPipeline.

(** C4. One call of [step] performs exactly the phases of the
    specification's pipeline, in that order: the calls it makes are the
    listed ones, the export being made when one of the three flags is set,
    and the simulator it leaves is the one obtained by performing the
    listed phases one after the other from the simulator it was given. *)
Theorem step_phases {G : GridOps} {C : Collaborators G}
    (saveVDB saveOBJ savePARTIO : bool) (s : flipsim) :
  let phases :=
    [ Ph_incrementFrame; Ph_buildLevelSets; Ph_generateParticles; Ph_sort;
      Ph_computeDensity; Ph_applyExternalForces; Ph_splatParticlesToMACGrid;
      Ph_markCellTypes; Ph_storePreviousGrid; Ph_enforceBoundaryVelocity;
      Ph_project; Ph_enforceBoundaryVelocity; Ph_extrapolateVelocity;
      Ph_subtractPreviousGrid; Ph_solvePicFlip; Ph_advectParticles;
      Ph_resampleParticles; Ph_markInvalidParticles; Ph_removeTempParticles;
      Ph_pushStuckParticles ]
    ++ (if saveVDB || saveOBJ || savePARTIO then [Ph_exportParticles] else []) in
  spec_pipeline saveVDB saveOBJ savePARTIO = phases
  /\ (step saveVDB saveOBJ savePARTIO s).2 = phases
  /\ (step saveVDB saveOBJ savePARTIO s).1.2
     = for_each phases (spec_phase saveVDB saveOBJ savePARTIO) s.
Proof.
  intros phases. split; [reflexivity|].
  assert (step saveVDB saveOBJ savePARTIO s
          = (tt, for_each phases (spec_phase saveVDB saveOBJ savePARTIO) s, phases))
    as ->; [|by split].
  subst phases. unfold step. cbn [app].
  do 16 (apply call_then; [reflexivity|];
         match goal with |- context [?m (?f ?st)] => idtac end;
         match goal with
         | |- _ ?st = _ => generalize st; clear s; intros s
         end).
  rewrite get_then.
  set (maxd := maxd_of (Sim.dimensions s)).
  destruct (saveVDB || saveOBJ || savePARTIO).
  - do 4 (apply call_then; [reflexivity|]). apply call_last. reflexivity.
  - do 3 (apply call_then; [reflexivity|]).
    change (bind (call Ph_pushStuckParticles (pushStuckParticles maxd))
              (fun _ => ret tt))
      with (fun st : flipsim =>
              (tt, pushStuckParticles maxd st, [Ph_pushStuckParticles])).
    cbv beta. unfold for_each. cbn [fold_left]. reflexivity.
Qed.

(** ** [isCellFluid] *)

(** C10. [isCellFluid] answers true exactly when the scene's liquid level
    set is below zero at the cell and its solid level set is not; the MAC
    grid, and so the cell types in [mgrid.A], play no part; and there is a
    simulator where the answer is true at a cell that [mgrid.A] holds as
    AIR. *)
Theorem isCellFluid_level_sets :
  (forall (G : GridOps) (C : Collaborators G) (s : flipsim) (x y z : Z),
      (isCellFluid s x y z = true
       <-> F32.ltb (getCell (getLiquidLevelSet (Sim.scene s)) x y z) F32.zero = true
           /\ F32.leb F32.zero (getCell (getSolidLevelSet (Sim.scene s)) x y z) = true)
      /\ (forall m : macgrid,
            isCellFluid (Sim.set_mgrid s m) x y z = isCellFluid s x y z))
  /\ (let s := Demo.wet_but_marked_air in
      isCellFluid s 1 1 1 = true
      /\ @getCell SparseGrid.ops _ (Mac.A (Sim.mgrid s)) 1 1 1 = AIR).
Proof.
  split.
  - intros G C s x y z. split; [|reflexivity].
    unfold isCellFluid.
    destruct (F32.ltb _ _), (F32.leb _ _); simpl; intuition congruence.
  - split; vm_compute; reflexivity.
Qed.

(** ** The marking of invalid particles *)

(** C7, as stated, fails on a domain that is not a cube. In a 4 x 8 x 4
    domain the particle at (0.75, 0.5, 0.5) lies in the unit cube and its
    cell (6, 4, 4) is not SOLID, yet it is marked invalid: its scaled
    position 6 exceeds the extent 4. *)
Lemma mark_invalid_inside_unit_cube :
  let s := Demo.tall_domain in
  let maxd := maxd_of (Sim.dimensions s) in
  exists q q',
    Sim.particles s !! 0%nat = Some q
    /\ Sim.particles (markInvalidParticles maxd s) !! 0%nat = Some q'
    /\ Pt.invalid q' = true
    /\ Pt.p q' = mk_vec3 (F32.lit 3 4) (F32.lit 1 2) (F32.lit 1 2)
    /\ vscale (Pt.p q') maxd = mk_vec3 (F32.of_Z 6) (F32.of_Z 4) (F32.of_Z 4)
    /\ (F32.leb F32.zero (vx (Pt.p q')) && F32.leb (vx (Pt.p q')) F32.one
        && F32.leb F32.zero (vy (Pt.p q')) && F32.leb (vy (Pt.p q')) F32.one
        && F32.leb F32.zero (vz (Pt.p q')) && F32.leb (vz (Pt.p q')) F32.one = true)
    /\ @getCellAt SparseGrid.ops _ (Mac.A (Sim.mgrid s)) (vscale (Pt.p q') maxd) = AIR.
Proof.
  eexists _, _. split; [reflexivity|].
  split; [vm_compute; reflexivity|].
  repeat split; vm_compute; reflexivity.
Qed.

(** C7, amended: after the marking loop a particle is invalid exactly when
    its position scaled by [maxd] has a coordinate above the extent of its
    axis or below 0, or the cell at the scaled position is SOLID in
    [mgrid.A]. The loop changes nothing but the flag. *)
Theorem markInvalidParticles_extent_box
    {G : GridOps} {C : Collaborators G} (s : flipsim) (maxd : float) :
  Sim.particles (markInvalidParticles maxd s)
  = map (mark_invalid s maxd) (Sim.particles s)
  /\ forall q : particle,
       let t := vscale (Pt.p q) maxd in
       let d := Sim.dimensions s in
       (Pt.invalid (mark_invalid s maxd q) = true
        <-> F32.ltb (vx d) (vx t) = true \/ F32.ltb (vy d) (vy t) = true
            \/ F32.ltb (vz d) (vz t) = true
            \/ F32.ltb (vx t) F32.zero = true \/ F32.ltb (vy t) F32.zero = true
            \/ F32.ltb (vz t) F32.zero = true
            \/ getCellAt (Mac.A (Sim.mgrid s)) t = SOLID)
       /\ mark_invalid s maxd q
          = Pt.set_invalid q (Pt.invalid (mark_invalid s maxd q)).
Proof.
  split; [apply for_particles_map|].
  intros q t d. unfold mark_invalid.
  change (F32.of_Z 0) with F32.zero.
  change (vscale (Pt.p (Pt.set_invalid q false)) maxd) with t.
  fold d. unfold geom_eqb.
  destruct (F32.ltb (vx d) (vx t)), (F32.ltb (vy d) (vy t)),
    (F32.ltb (vz d) (vz t)), (F32.ltb (vx t) F32.zero),
    (F32.ltb (vy t) F32.zero), (F32.ltb (vz t) F32.zero);
    case_bool_decide; simpl; (split; [|reflexivity]); intuition congruence.
Qed.

(** ** The push of stuck particles *)

Lemma update_at_lookup (f : particle -> particle) (ps : list particle) (i j : nat) :
  update_at j f ps !! i = if decide (i = j) then f <$> ps !! i else ps !! i.
Proof.
  unfold update_at. destruct (ps !! j) as [q|] eqn:E.
  - destruct (decide (i = j)) as [->|NE].
    + rewrite list_lookup_insert_eq by (by eapply lookup_lt_Some).
      rewrite E. done.
    + by rewrite list_lookup_insert_ne.
  - destruct (decide (i = j)) as [->|NE]; [by rewrite E|done].
Qed.

Lemma update_at_length (f : particle -> particle) (ps : list particle) (j : nat) :
  List.length (update_at j f ps) = List.length ps.
Proof.
  unfold update_at. destruct (ps !! j); [apply length_insert|done].
Qed.

(** A loop that updates the particles named by a list of pointers leaves
    the others alone ... *)
Lemma update_each_other {X : Type} (F : X -> particle -> particle)
    (l : list (nat * X)) (ps : list particle) (i : nat) :
  i ∉ l.*1 ->
  fold_left (fun st ip => update_at ip.1 (F ip.2) st) l ps !! i = ps !! i.
Proof.
  revert ps. induction l as [|[j w] l IH]; intros ps Hi; simpl; [done|].
  simpl in Hi. apply not_elem_of_cons in Hi as [Hne Hi].
  rewrite IH by done. rewrite update_at_lookup.
  destruct (decide (i = j)); [done|done].
Qed.

(** ... and, the pointers being distinct, updates each named one once. *)
Lemma update_each_named {X : Type} (F : X -> particle -> particle)
    (l : list (nat * X)) (ps : list particle) (i : nat) (v : X) (q : particle) :
  NoDup l.*1 -> (i, v) ∈ l -> ps !! i = Some q ->
  fold_left (fun st ip => update_at ip.1 (F ip.2) st) l ps !! i = Some (F v q).
Proof.
  revert ps. induction l as [|[j w] l IH]; intros ps ND Hin Hq; simpl.
  - by apply elem_of_nil in Hin.
  - simpl in ND. apply NoDup_cons in ND as [Hj ND].
    apply elem_of_cons in Hin as [E|Hin].
    + inversion E; subst. rewrite update_each_other by done.
      rewrite update_at_lookup. rewrite decide_True by done. by rewrite Hq.
    + assert (i <> j) as NE.
      { intros ->. apply Hj. apply list_elem_of_fmap. by exists (j, v). }
      apply IH; [done|done|].
      rewrite update_at_lookup. by rewrite decide_False.
Qed.

Lemma NoDup_zip_fst {X Y : Type} (l : list X) (k : list Y) :
  NoDup l -> NoDup (zip l k).*1.
Proof.
  intros ND. revert k. induction ND as [|x l Hx ND IH]; intros [|y k]; simpl;
    try apply NoDup_nil_2.
  apply NoDup_cons. split; [|apply IH].
  intros Hin. apply list_elem_of_fmap in Hin as ([x' y'] & -> & Hin).
  apply elem_of_zip_l in Hin. done.
Qed.

Lemma NoDup_stuck_indices (ps : list particle) : NoDup (stuck_indices ps).
Proof.
  apply NoDup_ListNoDup. apply List.NoDup_filter. apply NoDup_ListNoDup, NoDup_seq.
Qed.

Lemma elem_of_stuck_indices (ps : list particle) (i : nat) :
  i ∈ stuck_indices ps <-> is_stuck ps i = true.
Proof.
  unfold stuck_indices. rewrite list_elem_of_In, List.filter_In.
  rewrite <- list_elem_of_In, elem_of_seq. split; [tauto|].
  intros H. split; [|done]. unfold is_stuck in H.
  destruct (ps !! i) eqn:E; [|done]. apply lookup_lt_Some in E. lia.
Qed.

(** C6, as stated, fails twice. With the surface one cell away, the stuck
    particle at (0.5, 0.5, 0.5) of a 4 x 4 x 4 domain is moved to
    (0.75, 0.5, 0.5) and gets the velocity (10, 0, 0): the displacement in
    cells times 10, with no division by the step size 0.005 (which would
    give 500 from the displacement in positions, 2000 from the one in
    cells). With the surface 2^-14 of a cell away, the projected point
    differs from the position and the particle is left as it is. *)
Lemma pushStuckParticles_without_stepsize :
  (let s := Demo.stuck_far in
   let maxd := maxd_of (Sim.dimensions s) in
   let old := Pt.p Demo.a_stuck_particle in
   exists q',
     Sim.particles (pushStuckParticles maxd s) !! 0%nat = Some q'
     /\ Pt.p q' = mk_vec3 (F32.lit 3 4) (F32.lit 1 2) (F32.lit 1 2)
     /\ Pt.u q' = mk_vec3 (F32.of_Z 10) F32.zero F32.zero
     /\ Pt.u q' <> vdiv (vscale (vsub (Pt.p q') old) (F32.of_Z 10)) (Sim.stepsize s)
     /\ Pt.u q'
        <> vdiv (vscale (vsub (vscale (Pt.p q') maxd) (vscale old maxd)) (F32.of_Z 10))
             (Sim.stepsize s))
  /\ (let s := Demo.stuck_near in
      let maxd := maxd_of (Sim.dimensions s) in
      let old := Pt.p Demo.a_stuck_particle in
      projectPointsToSolidSurface (Sim.scene s) (stuck_positions maxd (Sim.particles s))
      = [mk_vec3 (F32.add (F32.of_Z 2) (F32.lit 1 16384)) (F32.of_Z 2) (F32.of_Z 2)]
      /\ stuck_positions maxd (Sim.particles s)
         = [mk_vec3 (F32.of_Z 2) (F32.of_Z 2) (F32.of_Z 2)]
      /\ F32.add (F32.of_Z 2) (F32.lit 1 16384) <> F32.of_Z 2
      /\ Sim.particles (pushStuckParticles maxd s) !! 0%nat
         = Some Demo.a_stuck_particle).
Proof.
  split.
  - eexists. split; [vm_compute; reflexivity|].
    repeat split; try (vm_compute; reflexivity); vm_compute; discriminate.
  - repeat split; try (vm_compute; reflexivity). vm_compute; discriminate.
Qed.

(** C6, amended: a stuck particle (invalid and FLUID) whose projected point
    [pos], in cells, is farther than [0.0001f] from its position scaled by
    [maxd] gets the position [pos / maxd] and the velocity
    [(pos - p * maxd) * 10]; the step size plays no part. A stuck particle
    within that distance is left as it is. *)
Theorem pushStuckParticles_penalty
    {G : GridOps} {C : Collaborators G} (s : flipsim) (maxd : float)
    (m idx : nat) (pos : vec3) (q : particle) :
  let ps := Sim.particles s in
  let projected :=
    projectPointsToSolidSurface (Sim.scene s) (stuck_positions maxd ps) in
  stuck_indices ps !! m = Some idx ->
  projected !! m = Some pos ->
  ps !! idx = Some q ->
  let d := vsub pos (vscale (Pt.p q) maxd) in
  Pt.invalid q = true /\ Pt.type q = FLUID
  /\ exists q',
       Sim.particles (pushStuckParticles maxd s) !! idx = Some q'
       /\ (F32.ltb (F32.lit 1 10000) (glm.length d) = true ->
           Pt.p q' = vdiv pos maxd /\ Pt.u q' = vscale d (F32.of_Z 10))
       /\ (F32.ltb (F32.lit 1 10000) (glm.length d) = false -> q' = q).
Proof.
  intros ps projected Hm Hpos Hq d.
  assert (is_stuck ps idx = true) as Hst.
  { apply elem_of_stuck_indices. by eapply list_elem_of_lookup_2. }
  unfold is_stuck in Hst. rewrite Hq in Hst.
  apply andb_true_iff in Hst as [Hinv Hty].
  apply bool_decide_eq_true in Hty.
  split; [done|]. split; [done|].
  exists (push_out maxd pos q). split.
  - unfold pushStuckParticles. simpl. unfold for_each.
    apply (update_each_named (push_out maxd)).
    + apply NoDup_zip_fst, NoDup_stuck_indices.
    + apply list_elem_of_lookup. exists m.
      apply lookup_zip_with_Some. by exists idx, pos.
    + done.
  - unfold push_out. fold d. split; intros ->; [done|done].
Qed.

Lemma pushStuckParticles_penalty_witness :
  let s := Demo.stuck_far in
  let maxd := maxd_of (Sim.dimensions s) in
  let pos := mk_vec3 (F32.of_Z 3) (F32.of_Z 2) (F32.of_Z 2) in
  let d := vsub pos (vscale (Pt.p Demo.a_stuck_particle) maxd) in
  stuck_indices (Sim.particles s) !! 0%nat = Some 0%nat
  /\ projectPointsToSolidSurface (Sim.scene s) (stuck_positions maxd (Sim.particles s))
       !! 0%nat = Some pos
  /\ Sim.particles s !! 0%nat = Some Demo.a_stuck_particle
  /\ exists q',
       Sim.particles (pushStuckParticles maxd s) !! 0%nat = Some q'
       /\ (F32.ltb (F32.lit 1 10000) (glm.length d) = true ->
           Pt.p q' = vdiv pos maxd /\ Pt.u q' = vscale d (F32.of_Z 10))
       /\ (F32.ltb (F32.lit 1 10000) (glm.length d) = false ->
           q' = Demo.a_stuck_particle).
Proof.
  intros s maxd pos d.
  assert (H1 : stuck_indices (Sim.particles s) !! 0%nat = Some 0%nat)
    by (vm_compute; reflexivity).
  assert (H2 : projectPointsToSolidSurface (Sim.scene s)
                 (stuck_positions maxd (Sim.particles s)) !! 0%nat = Some pos)
    by (vm_compute; reflexivity).
  assert (H3 : Sim.particles s !! 0%nat = Some Demo.a_stuck_particle)
    by reflexivity.
  split; [exact H1|]. split; [exact H2|]. split; [exact H3|].
  exact (proj2 (proj2 (@pushStuckParticles_penalty SparseGrid.ops Demo.collab
                         s maxd 0%nat 0%nat pos Demo.a_stuck_particle H1 H2 H3))).
Defined.

(** ** [advectParticles] *)

(** C8, as stated, fails: the wall response runs after the clamp. In a
    4 x 4 x 4 domain at rest (h = 0.25), the FLUID particle at
    (0.25, 0.5, 0.5) has a SOLID marker with normal (-1, 0, 0) at distance
    1/16, inside re = 0.375; it is pushed by 0.3125 along the normal and
    leaves [advectParticles] at x = -0.0625, below h and below 0. *)
Lemma advectParticles_pushed_out :
  let s := Demo.fluid_by_obstacle in
  let h := F32.div F32.one (maxd_of (Sim.dimensions s)) in
  exists q',
    Sim.particles (advectParticles s) !! 0%nat = Some q'
    /\ Pt.type q' = FLUID
    /\ h = F32.lit 1 4
    /\ Pt.p q' = mk_vec3 (F32.lit (-1) 16) (F32.lit 1 2) (F32.lit 1 2)
    /\ F32.leb h (vx (Pt.p q')) = false
    /\ F32.ltb (vx (Pt.p q')) F32.zero = true.
Proof.
  eexists. split; [vm_compute; reflexivity|].
  repeat split; vm_compute; reflexivity.
Qed.

(** The clamp puts every coordinate, NaN included, between [r] and
    [1 - r], provided [r <= 1 - r]. *)
Lemma clamp_coordinate (r v : float) :
  F32.leb r (F32.sub F32.one r) = true ->
  let c := glm.max r (glm.min (F32.sub F32.one r) v) in
  F32.leb r c = true /\ F32.leb c (F32.sub F32.one r) = true.
Proof.
  intros Hr. destruct (F32_leb_not_nan _ _ Hr) as [Nr N1r].
  unfold glm.max, glm.min. simpl.
  destruct (F32.ltb v (F32.sub F32.one r)) eqn:E1.
  - destruct (F32.ltb r v) eqn:E2.
    + split; by apply F32_ltb_leb.
    + split; [by apply F32_leb_refl|done].
  - destruct (F32.ltb r (F32.sub F32.one r)) eqn:E2.
    + split; [done|by apply F32_leb_refl].
    + split; [by apply F32_leb_refl|done].
Qed.

Lemma clamp_to_walls_within (r : float) (v : vec3) :
  F32.leb r (F32.sub F32.one r) = true ->
  within r (F32.sub F32.one r) (clamp_to_walls r v).
Proof.
  intros Hr. unfold within, clamp_to_walls, vmax, vmin, splat. simpl.
  pose proof (clamp_coordinate r (vx v) Hr) as [? ?].
  pose proof (clamp_coordinate r (vy v) Hr) as [? ?].
  pose proof (clamp_coordinate r (vz v) Hr) as [? ?].
  done.
Qed.

(** A loop over particle indices whose body at [p0] writes [particles[p0]]
    only: the final value of a particle is the one its own iteration
    leaves. *)
Lemma fold_own_other (body : nat -> list particle -> list particle)
    (l : list nat) (st : list particle) (i : nat) :
  (forall p0 st' j, j <> p0 -> body p0 st' !! j = st' !! j) ->
  i ∉ l ->
  fold_left (fun acc p0 => body p0 acc) l st !! i = st !! i.
Proof.
  intros Hown. revert st. induction l as [|p0 l IH]; intros st Hi; simpl; [done|].
  apply not_elem_of_cons in Hi as [Hne Hi].
  rewrite IH by done. by apply Hown.
Qed.

Lemma fold_own_at (body : nat -> list particle -> list particle)
    (n : nat) (st : list particle) (i : nat) :
  (forall p0 st' j, j <> p0 -> body p0 st' !! j = st' !! j) ->
  (i < n)%nat ->
  fold_left (fun acc p0 => body p0 acc) (seq 0 n) st !! i
  = body i (fold_left (fun acc p0 => body p0 acc) (seq 0 i) st) !! i.
Proof.
  intros Hown Hi.
  replace n with (i + S (n - i - 1))%nat at 1 by lia.
  rewrite seq_app, fold_left_app. simpl.
  apply fold_own_other; [done|].
  rewrite elem_of_seq. lia.
Qed.

Lemma update_at_id (f : particle -> particle) (st : list particle) (p0 : nat) q :
  st !! p0 = Some q -> f q = q -> update_at p0 f st = st.
Proof.
  intros Hq Hf. unfold update_at. rewrite Hq, Hf. by apply list_insert_id.
Qed.

Lemma wall_response_type (re : float) (np q : particle) :
  Pt.type (wall_response re np q) = Pt.type q.
Proof.
  unfold wall_response.
  destruct (geom_eqb _ _); [|done]. destruct (F32.ltb _ re); done.
Qed.

Lemma wall_response_not_solid (re : float) (np q : particle) :
  Pt.type np <> SOLID -> wall_response re np q = q.
Proof.
  intros H. unfold wall_response, geom_eqb. by rewrite bool_decide_eq_false_2.
Qed.

Lemma wall_response_far (re : float) (np q : particle) :
  F32.ltb (glm.length (vsub (Pt.p q) (Pt.p np))) re = false ->
  wall_response re np q = q.
Proof.
  intros H. unfold wall_response. rewrite H. by destruct (geom_eqb _ _).
Qed.

Lemma wall_responses_other (re : float) (p0 : nat) (nb : list nat)
    (st : list particle) (j : nat) :
  j <> p0 -> wall_responses re p0 nb st !! j = st !! j.
Proof.
  intros Hj. unfold wall_responses, for_each. revert st.
  induction nb as [|m nb IH]; intros st; simpl; [done|].
  rewrite IH. destruct (st !! m); [|done].
  rewrite update_at_lookup. by rewrite decide_False.
Qed.

Lemma wall_responses_length (re : float) (p0 : nat) (nb : list nat)
    (st : list particle) :
  List.length (wall_responses re p0 nb st) = List.length st.
Proof.
  unfold wall_responses, for_each. revert st.
  induction nb as [|m nb IH]; intros st; simpl; [done|].
  rewrite IH. destruct (st !! m); [apply update_at_length|done].
Qed.

Lemma wall_responses_type (re : float) (p0 : nat) (nb : list nat)
    (st : list particle) (x : particle) :
  st !! p0 = Some x ->
  exists x', wall_responses re p0 nb st !! p0 = Some x' /\ Pt.type x' = Pt.type x.
Proof.
  unfold wall_responses, for_each. revert st x.
  induction nb as [|m nb IH]; intros st x Hx; simpl; [by exists x|].
  destruct (st !! m) as [np|]; [|by apply IH].
  destruct (IH (update_at p0 (wall_response re np) st) (wall_response re np x))
    as (x' & H1 & H2).
  { rewrite update_at_lookup, decide_True by done. by rewrite Hx. }
  exists x'. split; [done|]. rewrite H2. apply wall_response_type.
Qed.

(** No neighbour pushes: the loop leaves the store as it is. *)
Lemma wall_responses_unpushed (re : float) (p0 : nat) (nb : list nat)
    (st : list particle) (q : particle) :
  st !! p0 = Some q ->
  (forall m np, m ∈ nb -> st !! m = Some np -> wall_response re np q = q) ->
  wall_responses re p0 nb st = st.
Proof.
  intros Hq. unfold wall_responses, for_each.
  induction nb as [|m nb IH]; intros Hfar; simpl; [done|].
  destruct (st !! m) as [np|] eqn:E.
  - assert (wall_response re np q = q) as Hnp by (eapply Hfar; [left|done]).
    rewrite (update_at_id _ st p0 q Hq Hnp).
    apply IH. intros m' np' Hin. apply Hfar. by right.
  - apply IH. intros m' np' Hin. apply Hfar. by right.
Qed.

Section Advect.
Context {G : GridOps} {C : Collaborators G}.

Lemma advect_constrain_other (s : flipsim) (pg : particlegrid) (p0 : nat)
    (st : list particle) (j : nat) :
  j <> p0 -> advect_constrain s pg p0 st !! j = st !! j.
Proof.
  intros Hj. unfold advect_constrain. cbv zeta.
  set (ps1 := update_at p0 _ st).
  assert (ps1 !! j = st !! j) as H1.
  { subst ps1. rewrite update_at_lookup. by rewrite decide_False. }
  destruct (ps1 !! p0) as [q|]; [|done].
  destruct (geom_eqb _ _); [|done].
  by rewrite wall_responses_other.
Qed.

Lemma advect_constrain_length (s : flipsim) (pg : particlegrid) (p0 : nat)
    (st : list particle) :
  List.length (advect_constrain s pg p0 st) = List.length st.
Proof.
  unfold advect_constrain. cbv zeta.
  set (ps1 := update_at p0 _ st).
  assert (List.length ps1 = List.length st) as H1 by apply update_at_length.
  destruct (ps1 !! p0) as [q|]; [|done].
  destruct (geom_eqb _ _); [|done].
  by rewrite wall_responses_length.
Qed.

Lemma advect_constrain_own (s : flipsim) (pg : particlegrid) (p0 : nat)
    (st : list particle) (x : particle) :
  st !! p0 = Some x ->
  exists x', advect_constrain s pg p0 st !! p0 = Some x'
             /\ Pt.type x' = Pt.type x
             /\ (Pt.type x <> FLUID -> x' = x).
Proof.
  intros Hx. unfold advect_constrain. cbv zeta.
  set (ps1 := update_at p0 _ st).
  assert (ps1 !! p0
          = Some (if geom_eqb (Pt.type x) FLUID
                  then Pt.set_p x (clamp_to_walls
                                     (F32.div F32.one (maxd_of (Sim.dimensions s)))
                                     (Pt.p x))
                  else x)) as H1.
  { subst ps1. rewrite update_at_lookup, decide_True by done. by rewrite Hx. }
  rewrite H1. unfold geom_eqb in *.
  destruct (bool_decide (Pt.type x = FLUID)) eqn:E.
  - apply bool_decide_eq_true in E. simpl.
    rewrite bool_decide_eq_true_2 by done.
    destruct (wall_responses_type (wall_radius s) p0
                (cell_neighbors s pg
                   (clamp_to_walls (F32.div F32.one (maxd_of (Sim.dimensions s)))
                      (Pt.p x))) ps1 _ H1) as (x' & H2 & H3).
    exists x'. split; [done|]. split; [done|]. intros; done.
  - rewrite E. exists x. by rewrite H1.
Qed.

Lemma advect_constrain_kept (s : flipsim) (pg : particlegrid) (p0 : nat)
    (ps0 st : list particle) :
  solids_kept ps0 st -> solids_kept ps0 (advect_constrain s pg p0 st).
Proof.
  intros [Hlen Hk]. split; [by rewrite advect_constrain_length|].
  intros m y Hy. destruct (Hk m y Hy) as (x & Hx & Hty & Hsame).
  destruct (decide (m = p0)) as [->|NE].
  - destruct (advect_constrain_own s pg p0 st x Hx) as (x' & H1 & H2 & H3).
    exists x'. split; [done|]. split; [congruence|].
    intros Hn. rewrite H3 by congruence. by apply Hsame.
  - exists x. by rewrite advect_constrain_other.
Qed.

Lemma advect_loop_kept (s : flipsim) (pg : particlegrid) (l : list nat)
    (ps0 st : list particle) :
  solids_kept ps0 st ->
  solids_kept ps0 (fold_left (fun acc p0 => advect_constrain s pg p0 acc) l st).
Proof.
  revert st. induction l as [|p0 l IH]; intros st H; simpl; [done|].
  by apply IH, advect_constrain_kept.
Qed.

Lemma solids_kept_refl (ps : list particle) : solids_kept ps ps.
Proof. split; [done|]. intros m y Hy. by exists y. Qed.

Lemma advect_move_type (s : flipsim) (q : particle) :
  Pt.type (advect_move s q) = Pt.type q.
Proof. unfold advect_move. by destruct (geom_eqb _ _). Qed.

Lemma advect_move_not_fluid (s : flipsim) (q : particle) :
  Pt.type q <> FLUID -> advect_move s q = q.
Proof.
  intros H. unfold advect_move, geom_eqb. by rewrite bool_decide_eq_false_2.
Qed.

End Advect.

(** C8, amended: when [advectParticles] returns, a FLUID particle that no
    SOLID neighbour pushed (none of the SOLID particles among the
    neighbours of its clamped position is nearer than [re]) is at its
    advected position clamped into the walls, which lies componentwise in
    [[h, 1 - h]], [h = 1/maxd], provided [h <= 1 - h]. *)
Theorem advectParticles_unpushed_within
    {G : GridOps} {C : Collaborators G} (s : flipsim) (idx : nat) (q : particle) :
  let h := F32.div F32.one (maxd_of (Sim.dimensions s)) in
  let moved := map (advect_move s) (Sim.particles s) in
  let pg := sort (Sim.pgrid s) moved in
  let c := clamp_to_walls h (Pt.p (advect_move s q)) in
  Sim.particles s !! idx = Some q ->
  Pt.type q = FLUID ->
  F32.leb h (F32.sub F32.one h) = true ->
  (forall m np,
      m ∈ cell_neighbors s pg c ->
      Sim.particles s !! m = Some np ->
      Pt.type np = SOLID ->
      F32.ltb (glm.length (vsub c (Pt.p np))) (wall_radius s) = false) ->
  exists q',
    Sim.particles (advectParticles s) !! idx = Some q'
    /\ Pt.p q' = c
    /\ within h (F32.sub F32.one h) (Pt.p q').
Proof.
  intros h moved pg c Hq Hty Hh Hfar.
  set (qc := Pt.set_p (advect_move s q) c).
  exists qc. split; [|split; [done|by apply clamp_to_walls_within]].
  unfold advectParticles. simpl.
  rewrite for_particles_map. fold moved. fold pg.
  unfold for_particle_indices, for_each.
  assert (moved !! idx = Some (advect_move s q)) as Hmv.
  { subst moved. by rewrite list_lookup_fmap, Hq. }
  rewrite (fold_own_at (advect_constrain s pg))
    by (first [apply advect_constrain_other | by eapply lookup_lt_Some]).
  set (st := fold_left _ (seq 0 idx) moved).
  assert (solids_kept moved st) as Hkept
    by (apply advect_loop_kept, solids_kept_refl).
  assert (st !! idx = Some (advect_move s q)) as Hst.
  { subst st. rewrite fold_own_other; [done|apply advect_constrain_other|].
    rewrite elem_of_seq. lia. }
  unfold advect_constrain. cbv zeta. fold h.
  set (ps1 := update_at idx _ st).
  assert (ps1 !! idx = Some qc) as H1.
  { subst ps1. rewrite update_at_lookup, decide_True by done. rewrite Hst. simpl.
    unfold geom_eqb. rewrite advect_move_type, bool_decide_eq_true_2 by done.
    done. }
  rewrite H1. unfold geom_eqb.
  change (Pt.type qc) with (Pt.type (advect_move s q)).
  rewrite advect_move_type, bool_decide_eq_true_2 by done.
  rewrite (wall_responses_unpushed _ idx _ ps1 qc); [done|done|].
  intros m np Hin Hnp.
  destruct (decide (Pt.type np = SOLID)) as [Hs|Hs];
    [|by apply wall_response_not_solid].
  apply wall_response_far. change (Pt.p qc) with c.
  assert (m <> idx) as NE.
  { intros ->. rewrite H1 in Hnp. inversion Hnp; subst np.
    change (Pt.type qc) with (Pt.type (advect_move s q)) in Hs.
    rewrite advect_move_type in Hs. congruence. }
  assert (st !! m = Some np) as Hm.
  { subst ps1. rewrite update_at_lookup, decide_False in Hnp by done. done. }
  destruct Hkept as [Hlen Hk].
  destruct (moved !! m) as [y|] eqn:Ey.
  2:{ apply lookup_ge_None in Ey. apply lookup_lt_Some in Hm. lia. }
  destruct (Hk m y Ey) as (x & Hx & Htx & Hsame).
  assert (x = np) by congruence. subst x.
  assert (y = np) as -> by (symmetry; apply Hsame; congruence).
  subst moved. rewrite list_lookup_fmap in Ey.
  destruct (Sim.particles s !! m) as [y0|] eqn:Ey0; [|done].
  simpl in Ey. inversion Ey as [Ey'].
  assert (Pt.type y0 = SOLID) as Hy0 by (rewrite <- (advect_move_type s), Ey'; done).
  rewrite advect_move_not_fluid in Ey' by congruence. subst y0.
  rewrite (advect_move_not_fluid s np) by congruence.
  exact (Hfar m np Hin Ey0 Hs).
Qed.

Lemma advectParticles_unpushed_within_witness :
  let s := Demo.fluid_alone in
  let q := Demo.a_particle FLUID (Demo.vec (-1) 2 5 4) (Demo.vec 0 0 0 1) in
  let h := F32.lit 1 4 in
  Sim.particles s !! 0%nat = Some q
  /\ F32.leb h (F32.sub F32.one h) = true
  /\ exists q',
       Sim.particles (advectParticles s) !! 0%nat = Some q'
       /\ Pt.p q' = mk_vec3 (F32.lit 1 4) (F32.lit 1 2) (F32.lit 3 4)
       /\ within h (F32.sub F32.one h) (Pt.p q').
Proof.
  intros s q h.
  assert (H1 : Sim.particles s !! 0%nat = Some q) by reflexivity.
  assert (H2 : F32.leb h (F32.sub F32.one h) = true) by (vm_compute; reflexivity).
  split; [exact H1|]. split; [exact H2|].
  refine (@advectParticles_unpushed_within SparseGrid.ops Demo.collab
            s 0%nat q H1 eq_refl H2 _).
  intros m np _ Hnp Hs. destruct m as [|m]; simpl in Hnp.
  - inversion Hnp; subst np. discriminate Hs.
  - discriminate Hnp.
Defined.

(** ** [subtractPressureGradient] *)

Section PressureGradient.
Context {G : GridOps} {GL : GridLaws G} {C : Collaborators G}.

(** Every face, once: an interior face loses the pressure difference of
    its two cells over [h]; any other face is left as it is. *)
Lemma subtractPressureGradient_face (s : flipsim) (n : axis) (i j k : Z) :
  let m := Sim.mgrid s in
  let h := F32.div F32.one (maxd_of (Sim.dimensions s)) in
  let b := back_cell n i j k in
  getCell (get_u n (Sim.mgrid (subtractPressureGradient s))) i j k
  = if interior_face (dim_x s) (dim_y s) (dim_z s) n i j k
    then subtract_face h (getCell (get_u n m) i j k)
           (face_pressures (Sim.subcell s)
              (getCell (Mac.L m) i j k) (getCell (Mac.L m) b.1.1 b.1.2 b.2)
              (getCell (Mac.P m) i j k) (getCell (Mac.P m) b.1.1 b.1.2 b.2))
    else getCell (get_u n m) i j k.
Proof.
  intros m h b. unfold subtractPressureGradient, interior_face, in_faces.
  cbv zeta. fold m. fold h.
  destruct n; simpl.
  - apply (for3_sweep _ _ _ (fun i j k => (0 <? i) && (i <? dim_x s))
             (fun i j k old =>
                subtract_face h old
                  (face_pressures (Sim.subcell s)
                     (getCell (Mac.L m) i j k) (getCell (Mac.L m) (i - 1) j k)
                     (getCell (Mac.P m) i j k) (getCell (Mac.P m) (i - 1) j k)))).
  - apply (for3_sweep _ _ _ (fun i j k => (0 <? j) && (j <? dim_y s))
             (fun i j k old =>
                subtract_face h old
                  (face_pressures (Sim.subcell s)
                     (getCell (Mac.L m) i j k) (getCell (Mac.L m) i (j - 1) k)
                     (getCell (Mac.P m) i j k) (getCell (Mac.P m) i (j - 1) k)))).
  - apply (for3_sweep _ _ _ (fun i j k => (0 <? k) && (k <? dim_z s))
             (fun i j k old =>
                subtract_face h old
                  (face_pressures (Sim.subcell s)
                     (getCell (Mac.L m) i j k) (getCell (Mac.L m) i j (k - 1))
                     (getCell (Mac.P m) i j k) (getCell (Mac.P m) i j (k - 1))))).
Qed.

Lemma interior_face_intro (x y z : Z) (n : axis) (i j k : Z) :
  x + 1 < 2 ^ 32 -> y + 1 < 2 ^ 32 -> z + 1 < 2 ^ 32 ->
  0 <= i -> 0 <= j -> 0 <= k ->
  match n with
  | AX => 0 < i < x /\ j < y /\ k < z
  | AY => i < x /\ 0 < j < y /\ k < z
  | AZ => i < x /\ j < y /\ 0 < k < z
  end ->
  interior_face x y z n i j k = true.
Proof.
  intros Hx Hy Hz Hi Hj Hk H.
  unfold interior_face, in_faces, face_extent, in_box, uadd, wrap32.
  destruct n; rewrite Z.mod_small by lia; lia.
Qed.

End PressureGradient.

(** C5. With sub-cell correction on, take an interior face of axis [n]
    between the cell [A] before it and the cell [B] after it. Where
    [L(B) * L(A) < 0], each side keeps its own pressure if its [L] is below
    zero and otherwise takes the ghost value [L / min(eps, L') * P'] from
    the other side's [L'] and [P'], with [eps = 1e-3] for [B] and
    [eps = 1e-6] for [A]; elsewhere both pressures are used as they are.
    The face velocity loses [(P_B - P_A) / h], [h = 1/maxd]. *)
Theorem subtractPressureGradient_subcell
    {G : GridOps} {GL : GridLaws G} {C : Collaborators G}
    (s : flipsim) (n : axis) (i j k : Z) :
  let x := dim_x s in let y := dim_y s in let z := dim_z s in
  let m := Sim.mgrid s in
  let m' := Sim.mgrid (subtractPressureGradient s) in
  let h := F32.div F32.one (maxd_of (Sim.dimensions s)) in
  let a := back_cell n i j k in
  let LB := getCell (Mac.L m) i j k in
  let LA := getCell (Mac.L m) a.1.1 a.1.2 a.2 in
  let PB := getCell (Mac.P m) i j k in
  let PA := getCell (Mac.P m) a.1.1 a.1.2 a.2 in
  let ghostB :=
    if F32.ltb LB F32.zero then PB
    else F32.mul (F32.div LB (glm.min (F32.lit 1 1000) LA)) PA in
  let ghostA :=
    if F32.ltb LA F32.zero then PA
    else F32.mul (F32.div LA (glm.min (F32.lit 1 1000000) LB)) PB in
  Sim.subcell s <> 0 ->
  x + 1 < 2 ^ 32 -> y + 1 < 2 ^ 32 -> z + 1 < 2 ^ 32 ->
  0 <= i -> 0 <= j -> 0 <= k ->
  match n with
  | AX => 0 < i < x /\ j < y /\ k < z
  | AY => i < x /\ 0 < j < y /\ k < z
  | AZ => i < x /\ j < y /\ 0 < k < z
  end ->
  getCell (get_u n m') i j k
  = if F32.ltb (F32.mul LB LA) F32.zero
    then F32.sub (getCell (get_u n m) i j k) (F32.div (F32.sub ghostB ghostA) h)
    else F32.sub (getCell (get_u n m) i j k) (F32.div (F32.sub PB PA) h).
Proof.
  intros x y z m m' h a LB LA PB PA ghostB ghostA Hsub Hx Hy Hz Hi Hj Hk Hin.
  subst m'. rewrite subtractPressureGradient_face.
  rewrite interior_face_intro by done.
  unfold subtract_face, face_pressures.
  fold m a LB LA PB PA.
  assert (negb (Sim.subcell s =? 0) = true) as -> by (apply negb_true_iff; lia).
  simpl. fold ghostB ghostA. fold h.
  destruct (F32.ltb (F32.mul LB LA) F32.zero); reflexivity.
Qed.

Lemma subtractPressureGradient_subcell_witness :
  let s := Demo.at_surface in
  Sim.subcell s <> 0
  /\ dim_x s = 4 /\ dim_y s = 4 /\ dim_z s = 4
  /\ @getCell SparseGrid.ops _ (get_u AX (Sim.mgrid (subtractPressureGradient s))) 2 1 1
     = F32.of_Z 24.
Proof.
  intros s.
  assert (H0 : Sim.subcell s <> 0) by (vm_compute; discriminate).
  split; [exact H0|].
  split; [vm_compute; reflexivity|].
  split; [vm_compute; reflexivity|].
  split; [vm_compute; reflexivity|].
  assert (Hx : dim_x s < 2 ^ 24) by (vm_compute; reflexivity).
  assert (Hy : dim_y s < 2 ^ 24) by (vm_compute; reflexivity).
  assert (Hz : dim_z s < 2 ^ 24) by (vm_compute; reflexivity).
  assert (Hin : 0 < 2 < dim_x s /\ 1 < dim_y s /\ 1 < dim_z s)
    by (vm_compute; repeat split; reflexivity).
  rewrite (@subtractPressureGradient_subcell SparseGrid.ops SparseGrid_laws
             Demo.collab s AX 2 1 1 H0 Hx Hy Hz ltac:(lia) ltac:(lia) ltac:(lia) Hin).
  vm_compute. reflexivity.
Defined.

(** ** [extrapolateVelocity] *)

(** C3, as stated, fails both ways: the sweep writes the faces whose
    [wallmark] is set and leaves the others. In a 3 x 1 x 1 domain with
    cell 0 FLUID and velocity 6 on the x-face 1: when cells 1 and 2 are
    AIR, the x-face 2 touches no FLUID cell and is no wall face, has the
    valid neighbour face 1, and keeps its velocity 0; when cells 1 and 2
    are SOLID, the x-face 2 is a wall face and is set to 6. *)
Lemma extrapolateVelocity_fills_wall_faces :
  (let s := Demo.fluid_then_air in
   let m := Sim.mgrid s in
   mark_value (Mac.A m) (dim_x s) (dim_y s) (dim_z s) AX 2 0 0 = false
   /\ wallmark_value (Mac.A m) (dim_x s) (dim_y s) (dim_z s) AX 2 0 0 = false
   /\ valid_neighbours (Mac.A m) (dim_x s) (dim_y s) (dim_z s) AX 2 0 0 = [(1, 0, 0)]
   /\ getCell (Mac.u_x m) 1 0 0 = F32.of_Z 6
   /\ getCell (Mac.u_x m) 2 0 0 = F32.zero
   /\ getCell (Mac.u_x (Sim.mgrid (extrapolateVelocity s))) 2 0 0 = F32.zero)
  /\ (let s := Demo.fluid_then_solid in
      let m := Sim.mgrid s in
      mark_value (Mac.A m) (dim_x s) (dim_y s) (dim_z s) AX 2 0 0 = false
      /\ wallmark_value (Mac.A m) (dim_x s) (dim_y s) (dim_z s) AX 2 0 0 = true
      /\ getCell (Mac.u_x m) 2 0 0 = F32.zero
      /\ getCell (Mac.u_x (Sim.mgrid (extrapolateVelocity s))) 2 0 0 = F32.of_Z 6).
Proof.
  repeat split; vm_compute; reflexivity.
Qed.

Section Extrapolate.
Context {G : GridOps} {GL : GridLaws G}.

Lemma get_u_set_u (n n' : axis) (m : macgrid) (g : grid float) :
  get_u n' (set_u n m g) = if decide (n = n') then g else get_u n' m.
Proof. destruct n, n'; reflexivity. Qed.

Lemma three_grids_at (f : axis -> grid Z) (n : axis) : three_grids f n = f n.
Proof. destruct n; reflexivity. Qed.

(** The body of the sweep, as one test. *)
Lemma extrapolate_face_written (mark wallmark : axis -> grid Z) (x y z i j k : Z)
    (n : axis) (m : macgrid) :
  extrapolate_face mark wallmark x y z i j k n m
  = if face_written mark wallmark x y z i j k n then
      match extrapolated_value mark x y z n m i j k with
      | Some v => set_u n m (setCell (get_u n m) i j k v)
      | None => m
      end
    else m.
Proof.
  unfold extrapolate_face, face_written, extrapolated_value.
  destruct (negb (axis_is n AX) && (usub x 1 <? i)); simpl; [done|].
  destruct (negb (axis_is n AY) && (usub y 1 <? j)); simpl; [done|].
  destruct (negb (axis_is n AZ) && (usub z 1 <? k)); simpl; [done|].
  destruct ((getCell (mark n) i j k =? 0) && negb (getCell (wallmark n) i j k =? 0));
    [|done].
  destruct (gather_neighbours mark x y z n m i j k) as [wsum sum].
  destruct (negb (wsum =? 0)); done.
Qed.

(** What one visit does to the velocity of any face. *)
Lemma extrapolate_face_value (mark wallmark : axis -> grid Z) (x y z i j k : Z)
    (n : axis) (m : macgrid) (n' : axis) (i' j' k' : Z) :
  getCell (get_u n' (extrapolate_face mark wallmark x y z i j k n m)) i' j' k'
  = match
      (if bool_decide ((i, j, k, n) = (i', j', k', n'))
          && face_written mark wallmark x y z i j k n
       then extrapolated_value mark x y z n m i j k else None)
    with
    | Some v => v
    | None => getCell (get_u n' m) i' j' k'
    end.
Proof.
  rewrite extrapolate_face_written.
  destruct (face_written mark wallmark x y z i j k n);
    [|by rewrite andb_false_r].
  rewrite andb_true_r.
  destruct (extrapolated_value mark x y z n m i j k) as [v|];
    [|by destruct (bool_decide _)].
  rewrite get_u_set_u.
  case_bool_decide as E.
  - inversion E; subst. rewrite decide_True by done. apply getCell_setCell_eq.
  - destruct (decide (n = n')) as [->|NE]; [|done].
    rewrite getCell_setCell_ne; [done|]. intros E'. inversion E'; subst. done.
Qed.

Lemma extrapolate_face_A (mark wallmark : axis -> grid Z) (x y z i j k : Z)
    (n : axis) (m : macgrid) :
  Mac.A (extrapolate_face mark wallmark x y z i j k n m) = Mac.A m.
Proof.
  rewrite extrapolate_face_written.
  destruct (face_written _ _ _ _ _ _ _ _ _); [|done].
  destruct (extrapolated_value _ _ _ _ _ _ _ _ _); [|done].
  by destruct n.
Qed.

(** The sums read marked faces only. *)
Lemma gather_neighbours_marked (mark : axis -> grid Z) (x y z : Z) (n : axis)
    (m0 m : macgrid) (i j k : Z) :
  marked_kept mark m0 m ->
  gather_neighbours mark x y z n m i j k = gather_neighbours mark x y z n m0 i j k.
Proof.
  intros Hk. unfold gather_neighbours, for_each.
  generalize (0, F32.zero). generalize (neighbours6 i j k).
  induction l as [|q l IH]; intros acc; cbn [fold_left]; [done|].
  destruct (face_index q) as [[q0 q1] q2].
  destruct (in_face_range x y z n q); [|apply IH].
  destruct (getCell (mark n) q0 q1 q2 =? 0) eqn:E; cbn [negb]; [apply IH|].
  rewrite Hk by (apply Z.eqb_neq; done). apply IH.
Qed.

Lemma extrapolated_value_marked (mark : axis -> grid Z) (x y z : Z) (n : axis)
    (m0 m : macgrid) (i j k : Z) :
  marked_kept mark m0 m ->
  extrapolated_value mark x y z n m i j k = extrapolated_value mark x y z n m0 i j k.
Proof.
  intros Hk. unfold extrapolated_value. by rewrite (gather_neighbours_marked _ _ _ _ _ m0).
Qed.

Lemma extrapolate_face_kept (mark wallmark : axis -> grid Z) (x y z i j k : Z)
    (n : axis) (m0 m : macgrid) :
  marked_kept mark m0 m ->
  marked_kept mark m0 (extrapolate_face mark wallmark x y z i j k n m).
Proof.
  intros Hk n' i' j' k' Hm. rewrite extrapolate_face_value.
  case_bool_decide as E; simpl; [|by apply Hk].
  inversion E; subst.
  unfold face_written. apply Z.eqb_neq in Hm. rewrite Hm.
  rewrite andb_false_r. simpl. apply Hk. by apply Z.eqb_neq.
Qed.

(** The sweep over any list of faces: a written face gets the value
    computed from the grid the sweep started with. *)
Lemma sweep_value (mark wallmark : axis -> grid Z) (x y z : Z) (m0 : macgrid)
    (l : list (Z * Z * Z * axis)) (m : macgrid) (n : axis) (i j k : Z) :
  marked_kept mark m0 m ->
  getCell
    (get_u n
       (fold_left
          (fun acc f => extrapolate_face mark wallmark x y z f.1.1.1 f.1.1.2 f.1.2 f.2 acc)
          l m)) i j k
  = match
      (if bool_decide ((i, j, k, n) ∈ l) && face_written mark wallmark x y z i j k n
       then extrapolated_value mark x y z n m0 i j k else None)
    with
    | Some v => v
    | None => getCell (get_u n m) i j k
    end.
Proof.
  revert m. induction l as [|[[[fi fj] fk] fn] l IH]; intros m Hk; simpl.
  - done.
  - rewrite IH by (by apply extrapolate_face_kept).
    rewrite extrapolate_face_value.
    rewrite (extrapolated_value_marked mark x y z fn m0 m) by done.
    destruct (decide ((fi, fj, fk, fn) = (i, j, k, n))) as [E|NE].
    + inversion E; subst.
      rewrite (bool_decide_eq_true_2 ((i, j, k, n) = (i, j, k, n))) by done.
      rewrite (bool_decide_eq_true_2 ((i, j, k, n) ∈ (i, j, k, n) :: l)) by left.
      simpl.
      destruct (bool_decide ((i, j, k, n) ∈ l)); simpl; [|done].
      destruct (face_written mark wallmark x y z i j k n); [|done].
      by destruct (extrapolated_value mark x y z n m0 i j k).
    + rewrite (bool_decide_eq_false_2 ((fi, fj, fk, fn) = (i, j, k, n))) by done.
      simpl.
      assert (bool_decide ((i, j, k, n) ∈ (fi, fj, fk, fn) :: l)
              = bool_decide ((i, j, k, n) ∈ l)) as ->; [|done].
      apply bool_decide_ext. rewrite elem_of_cons.
      split; [intros [E|E]; [congruence|done] | by right].
Qed.

Lemma sweep_A (mark wallmark : axis -> grid Z) (x y z : Z)
    (l : list (Z * Z * Z * axis)) (m : macgrid) :
  Mac.A
    (fold_left
       (fun acc f => extrapolate_face mark wallmark x y z f.1.1.1 f.1.1.2 f.1.2 f.2 acc)
       l m)
  = Mac.A m.
Proof.
  revert m. induction l as [|f l IH]; intros m; simpl; [done|].
  rewrite IH. apply extrapolate_face_A.
Qed.

End Extrapolate.

Section ExtrapolateTwice.
Context {G : GridOps} {GL : GridLaws G}.

(** The loop nest of [extrapolateVelocity] is one loop over
    [sweep_faces]. *)
Lemma extrapolate_grid_sweep (x y z : Z) (m : macgrid) :
  extrapolate_grid x y z m
  = fold_left
      (fun acc f =>
         extrapolate_face (mark_grids (Mac.A m) x y z) (wallmark_grids (Mac.A m) x y z)
           x y z f.1.1.1 f.1.1.2 f.1.2 f.2 acc)
      (sweep_faces x y z) m.
Proof.
  unfold extrapolate_grid, sweep_faces. cbv zeta.
  rewrite for3_triples, fold_left_bind.
  apply fold_left_ext_all. intros acc q. reflexivity.
Qed.

Lemma extrapolate_grid_A (x y z : Z) (m : macgrid) :
  Mac.A (extrapolate_grid x y z m) = Mac.A m.
Proof. rewrite extrapolate_grid_sweep. apply sweep_A. Qed.

Lemma marked_kept_refl (mark : axis -> grid Z) (m : macgrid) : marked_kept mark m m.
Proof. by intros n i j k _. Qed.

(** The sweep leaves the marked faces as they are. *)
Lemma extrapolate_grid_kept (x y z : Z) (m : macgrid) :
  marked_kept (mark_grids (Mac.A m) x y z) m (extrapolate_grid x y z m).
Proof.
  intros n i j k Hm. rewrite extrapolate_grid_sweep.
  rewrite (sweep_value _ _ x y z m) by apply marked_kept_refl.
  unfold face_written. apply Z.eqb_neq in Hm. rewrite Hm.
  by rewrite !andb_false_r.
Qed.

Lemma extrapolate_grid_idempotent (x y z : Z) (m : macgrid) (n : axis) (i j k : Z) :
  getCell (get_u n (extrapolate_grid x y z (extrapolate_grid x y z m))) i j k
  = getCell (get_u n (extrapolate_grid x y z m)) i j k.
Proof.
  set (m1 := extrapolate_grid x y z m).
  rewrite (extrapolate_grid_sweep x y z m1).
  assert (Mac.A m1 = Mac.A m) as -> by apply extrapolate_grid_A.
  rewrite (sweep_value _ _ x y z m1) by apply marked_kept_refl.
  rewrite (extrapolated_value_marked _ x y z n m m1) by apply extrapolate_grid_kept.
  destruct (bool_decide ((i, j, k, n) ∈ sweep_faces x y z)
            && face_written (mark_grids (Mac.A m) x y z)
                 (wallmark_grids (Mac.A m) x y z) x y z i j k n) eqn:E; [|done].
  destruct (extrapolated_value (mark_grids (Mac.A m) x y z) x y z n m i j k)
    as [v|] eqn:Ev; [|done].
  subst m1. rewrite (extrapolate_grid_sweep x y z m).
  rewrite (sweep_value _ _ x y z m) by apply marked_kept_refl.
  by rewrite E, Ev.
Qed.

(** C9. Running [extrapolateVelocity] a second time changes no face
    velocity, and no cell type: the faces the sweep writes are computed
    from faces it never writes. *)
Theorem extrapolateVelocity_idempotent {C : Collaborators G}
    (s : flipsim) (n : axis) (i j k : Z) :
  getCell (get_u n (Sim.mgrid (extrapolateVelocity (extrapolateVelocity s)))) i j k
  = getCell (get_u n (Sim.mgrid (extrapolateVelocity s))) i j k
  /\ Mac.A (Sim.mgrid (extrapolateVelocity (extrapolateVelocity s)))
     = Mac.A (Sim.mgrid (extrapolateVelocity s)).
Proof.
  split.
  - apply (extrapolate_grid_idempotent (dim_x s) (dim_y s) (dim_z s) (Sim.mgrid s)).
  - apply (extrapolate_grid_A (dim_x s) (dim_y s) (dim_z s)
             (extrapolate_grid (dim_x s) (dim_y s) (dim_z s) (Sim.mgrid s))).
Qed.

End ExtrapolateTwice.

Lemma extrapolateVelocity_idempotent_witness :
  let s := Demo.fluid_then_solid in
  getCell (get_u AX (Sim.mgrid (extrapolateVelocity (extrapolateVelocity s)))) 2 0 0
  = getCell (get_u AX (Sim.mgrid (extrapolateVelocity s))) 2 0 0.
Proof.
  intros s.
  exact (proj1 (@extrapolateVelocity_idempotent SparseGrid.ops SparseGrid_laws
                  Demo.collab s AX 2 0 0)).
Defined.

Section ExtrapolateFaces.
Context {G : GridOps} {GL : GridLaws G}.

(** What the temporary grids hold. *)
Lemma fill_marks_value (value : axis -> Z -> Z -> Z -> bool) (x y z : Z)
    (n : axis) (i j k : Z) :
  getCell (three_grids (fill_marks value x y z) n) i j k
  = if in_faces x y z n i j k then bool_to_Z (value n i j k) else 0.
Proof.
  rewrite three_grids_at. unfold fill_marks, in_faces.
  destruct (face_extent x y z n) as [[a b] c].
  rewrite for3_fill, getCell_newGrid. done.
Qed.

Lemma bool_to_Z_eqb_0 (b : bool) : (bool_to_Z b =? 0) = negb b.
Proof. by destruct b. Qed.

Lemma fold_filter_count {X : Type} (P : X -> bool) (v : X -> float)
    (l : list X) (c : Z) (sm : float) :
  fold_left
    (fun acc q => if P q then (acc.1 + 1, F32.add acc.2 (v q)) else acc) l (c, sm)
  = (c + Z.of_nat (List.length (List.filter P l)),
     fold_left (fun acc q => F32.add acc (v q)) (List.filter P l) sm).
Proof.
  revert c sm. induction l as [|q l IH]; intros c sm; cbn [fold_left List.filter].
  - simpl. f_equal. lia.
  - destruct (P q); cbn [fold_left List.length fst snd].
    + rewrite IH. f_equal. lia.
    + apply IH.
Qed.

End ExtrapolateFaces.

Section ExtrapolateClaim.
Context {G : GridOps} {GL : GridLaws G}.
Variables x y z : Z.
Hypothesis Hx : 0 <= x < 2 ^ 24.
Hypothesis Hy : 0 <= y < 2 ^ 24.
Hypothesis Hz : 0 <= z < 2 ^ 24.

Lemma in_faces_bounds (n : axis) (i j k : Z) :
  in_faces x y z n i j k = true ->
  0 <= i <= x /\ 0 <= j <= y /\ 0 <= k <= z
  /\ match n with
     | AX => j < y /\ k < z
     | AY => i < x /\ k < z
     | AZ => i < x /\ j < y
     end.
Proof.
  unfold in_faces, face_extent, in_box, uadd, wrap32.
  destruct n; rewrite Z.mod_small by lia; lia.
Qed.

Lemma in_sweep_faces (n : axis) (i j k : Z) :
  in_faces x y z n i j k = true -> (i, j, k, n) ∈ sweep_faces x y z.
Proof.
  intros H. apply in_faces_bounds in H.
  unfold sweep_faces. apply list_elem_of_bind. exists (i, j, k). split.
  - apply list_elem_of_fmap. exists n. split; [done|].
    destruct n; rewrite !elem_of_cons; auto.
  - apply elem_of_triples. unfold uadd, wrap32. rewrite !Z.mod_small by lia. lia.
Qed.

Lemma in_faces_outside (n : axis) (a b c : Z) :
  ~ (0 <= a <= x /\ 0 <= b <= y /\ 0 <= c <= z) -> in_faces x y z n a b c = false.
Proof.
  intros H. destruct (in_faces x y z n a b c) eqn:E; [|done].
  apply in_faces_bounds in E. lia.
Qed.

(** Below 2^24 the range test in [float] is the one on the integers. *)
Lemma in_face_range_exact (n : axis) (a b c : Z) :
  0 <= a <= 2 ^ 24 -> 0 <= b <= 2 ^ 24 -> 0 <= c <= 2 ^ 24 ->
  in_face_range x y z n (mk_vec3 (F32.of_Z a) (F32.of_Z b) (F32.of_Z c))
  = in_faces x y z n a b c.
Proof.
  intros Ha Hb Hc.
  unfold in_face_range, in_faces, face_extent, in_box, uadd, wrap32.
  cbn [vx vy vz].
  destruct n; cbn [axis_is bool_to_Z]; rewrite ?Z.add_0_r, !Z.mod_small by lia;
    rewrite !leb_zero_of_Z, !ltb_of_Z by lia;
    rewrite !(proj2 (Z.leb_le 0 _)) by lia; reflexivity.
Qed.

Lemma face_index_exact (a b c : Z) :
  0 <= a <= 2 ^ 24 -> 0 <= b <= 2 ^ 24 -> 0 <= c <= 2 ^ 24 ->
  face_index (mk_vec3 (F32.of_Z a) (F32.of_Z b) (F32.of_Z c)) = (a, b, c).
Proof.
  intros Ha Hb Hc. unfold face_index. cbn [vx vy vz].
  by rewrite !to_Z_of_Z by lia.
Qed.

(** The bound that a neighbour index is tested against. *)
Lemma range_bound (v : Z) (b : bool) :
  0 <= v < 2 ^ 24 -> 0 <= uadd v (bool_to_Z b) <= 2 ^ 24.
Proof.
  intros Hv. unfold uadd, wrap32. destruct b; cbn [bool_to_Z];
    rewrite Z.mod_small by lia; lia.
Qed.

(** A neighbour index that wrapped fails the range test, whatever the
    other two indices are. *)
Lemma in_face_range_wrapped (n : axis) (q : vec3) :
  vx q = F32.of_Z (2 ^ 32 - 1) \/ vy q = F32.of_Z (2 ^ 32 - 1)
  \/ vz q = F32.of_Z (2 ^ 32 - 1) ->
  in_face_range x y z n q = false.
Proof.
  unfold in_face_range. intros [-> | [-> | ->]].
  - rewrite (ltb_wrapped_of_Z (uadd x _)) by (by apply range_bound).
    by rewrite andb_false_r.
  - rewrite (ltb_wrapped_of_Z (uadd y _)) by (by apply range_bound).
    by rewrite andb_false_r.
  - rewrite (ltb_wrapped_of_Z (uadd z _)) by (by apply range_bound).
    by rewrite andb_false_r.
Qed.

(** An unsigned neighbour index and the integer one name the same face,
    or the unsigned one has wrapped and the integer one is -1. *)
Lemma wrapped_or_plain (v : Z) :
  0 <= v < 2 ^ 24 ->
  uadd v 1 = v + 1
  /\ ((usub v 1 = v - 1 /\ 0 < v) \/ (usub v 1 = 2 ^ 32 - 1 /\ v - 1 = -1)).
Proof.
  intros H. unfold uadd, usub, wrap32. split; [apply Z.mod_small; lia|].
  destruct (decide (v = 0)) as [->|NE]; [right; done|left].
  split; [apply Z.mod_small|]; lia.
Qed.

(** One visit of the inner loop, at a neighbour held in [float], is the
    visit of the integer neighbour. *)
Lemma neighbour_visit (m : macgrid) (n : axis) (q : vec3) (a b c : Z)
    (acc : Z * float) :
  (q = mk_vec3 (F32.of_Z a) (F32.of_Z b) (F32.of_Z c)
   /\ 0 <= a <= 2 ^ 24 /\ 0 <= b <= 2 ^ 24 /\ 0 <= c <= 2 ^ 24)
  \/ (in_face_range x y z n q = false /\ in_faces x y z n a b c = false) ->
  (let '(q0, q1, q2) := face_index q in
   if in_face_range x y z n q then
     if negb (getCell (mark_grids (Mac.A m) x y z n) q0 q1 q2 =? 0) then
       (acc.1 + 1, F32.add acc.2 (getCell (get_u n m) q0 q1 q2))
     else acc
   else acc)
  = if in_faces x y z n a b c && mark_value (Mac.A m) x y z n a b c
    then (acc.1 + 1, F32.add acc.2 (getCell (get_u n m) a b c))
    else acc.
Proof.
  intros [(-> & Ha & Hb & Hc) | [HF HZ]].
  - rewrite face_index_exact, in_face_range_exact by done.
    unfold mark_grids. rewrite fill_marks_value.
    destruct (in_faces x y z n a b c); [|done].
    rewrite bool_to_Z_eqb_0, negb_involutive. done.
  - rewrite HF, HZ. by destruct (face_index q) as [[q0 q1] q2].
Qed.

(** The inner loop counts and sums the valid neighbour faces. *)
Lemma gather_neighbours_valid (m : macgrid) (n : axis) (i j k : Z) :
  in_faces x y z n i j k = true ->
  gather_neighbours (mark_grids (Mac.A m) x y z) x y z n m i j k
  = (Z.of_nat (List.length (valid_neighbours (Mac.A m) x y z n i j k)),
     sum_of_faces (get_u n m) (valid_neighbours (Mac.A m) x y z n i j k)).
Proof.
  intros Hin. apply in_faces_bounds in Hin as (Hi & Hj & Hk & _).
  destruct (wrapped_or_plain i ltac:(lia)) as [Ei1 Ei0].
  destruct (wrapped_or_plain j ltac:(lia)) as [Ej1 Ej0].
  destruct (wrapped_or_plain k ltac:(lia)) as [Ek1 Ek0].
  unfold valid_neighbours, sum_of_faces.
  pose proof (fold_filter_count
                (fun q => in_faces x y z n q.1.1 q.1.2 q.2
                          && mark_value (Mac.A m) x y z n q.1.1 q.1.2 q.2)
                (fun q => getCell (get_u n m) q.1.1 q.1.2 q.2)
                (plain_neighbours i j k) 0 F32.zero) as Hcount.
  rewrite Z.add_0_l in Hcount. rewrite <- Hcount. clear Hcount.
  unfold gather_neighbours, for_each, neighbours6, plain_neighbours.
  cbn [fold_left].
  rewrite Ei1, Ej1, Ek1.
  rewrite (neighbour_visit m n
             (mk_vec3 (F32.of_Z (usub i 1)) (F32.of_Z j) (F32.of_Z k)) (i - 1) j k).
  2:{ destruct Ei0 as [[-> ?]|[-> ?]]; [left; split; [done|lia]|right].
      split; [apply in_face_range_wrapped; by left|apply in_faces_outside; lia]. }
  rewrite (neighbour_visit m n
             (mk_vec3 (F32.of_Z (i + 1)) (F32.of_Z j) (F32.of_Z k)) (i + 1) j k)
    by (left; split; [done|lia]).
  rewrite (neighbour_visit m n
             (mk_vec3 (F32.of_Z i) (F32.of_Z (usub j 1)) (F32.of_Z k)) i (j - 1) k).
  2:{ destruct Ej0 as [[-> ?]|[-> ?]]; [left; split; [done|lia]|right].
      split; [apply in_face_range_wrapped; right; by left
             |apply in_faces_outside; lia]. }
  rewrite (neighbour_visit m n
             (mk_vec3 (F32.of_Z i) (F32.of_Z (j + 1)) (F32.of_Z k)) i (j + 1) k)
    by (left; split; [done|lia]).
  rewrite (neighbour_visit m n
             (mk_vec3 (F32.of_Z i) (F32.of_Z j) (F32.of_Z (usub k 1))) i j (k - 1)).
  2:{ destruct Ek0 as [[-> ?]|[-> ?]]; [left; split; [done|lia]|right].
      split; [apply in_face_range_wrapped; right; by right
             |apply in_faces_outside; lia]. }
  rewrite (neighbour_visit m n
             (mk_vec3 (F32.of_Z i) (F32.of_Z j) (F32.of_Z (k + 1))) i j (k + 1))
    by (left; split; [done|lia]).
  reflexivity.
Qed.

Lemma face_written_in_faces (Ag : grid geomtype) (n : axis) (i j k : Z) :
  in_faces x y z n i j k = true ->
  face_written (mark_grids Ag x y z) (wallmark_grids Ag x y z) x y z i j k n
  = negb (mark_value Ag x y z n i j k) && wallmark_value Ag x y z n i j k.
Proof.
  intros Hin. unfold face_written, mark_grids, wallmark_grids.
  rewrite !fill_marks_value, Hin, !bool_to_Z_eqb_0, negb_involutive.
  apply in_faces_bounds in Hin as (Hi & Hj & Hk & Hn).
  assert (negb (negb (axis_is n AX) && (usub x 1 <? i)) = true) as ->.
  { destruct n; [done| |]; cbn [axis_is negb andb]; unfold usub, wrap32;
      rewrite Z.mod_small by lia; lia. }
  assert (negb (negb (axis_is n AY) && (usub y 1 <? j)) = true) as ->.
  { destruct n; [|done|]; cbn [axis_is negb andb]; unfold usub, wrap32;
      rewrite Z.mod_small by lia; lia. }
  assert (negb (negb (axis_is n AZ) && (usub z 1 <? k)) = true) as ->.
  { destruct n; [| |done]; cbn [axis_is negb andb]; unfold usub, wrap32;
      rewrite Z.mod_small by lia; lia. }
  done.
Qed.

(** Every face of the staggered grids, after the sweep. *)
Lemma extrapolate_grid_face (m : macgrid) (n : axis) (i j k : Z) :
  in_faces x y z n i j k = true ->
  let vn := valid_neighbours (Mac.A m) x y z n i j k in
  getCell (get_u n (extrapolate_grid x y z m)) i j k
  = if negb (mark_value (Mac.A m) x y z n i j k)
       && wallmark_value (Mac.A m) x y z n i j k
    then match vn with
         | [] => getCell (get_u n m) i j k
         | _ :: _ =>
             F32.div (sum_of_faces (get_u n m) vn)
                     (F32.of_Z (Z.of_nat (List.length vn)))
         end
    else getCell (get_u n m) i j k.
Proof.
  intros Hin vn.
  rewrite extrapolate_grid_sweep.
  rewrite (sweep_value _ _ x y z m) by apply marked_kept_refl.
  rewrite bool_decide_eq_true_2 by (by apply in_sweep_faces).
  rewrite face_written_in_faces by done. cbn [andb].
  destruct (negb (mark_value (Mac.A m) x y z n i j k)
            && wallmark_value (Mac.A m) x y z n i j k); [|done].
  unfold extrapolated_value. rewrite gather_neighbours_valid by done. fold vn.
  destruct vn as [|q vn]; [done|].
  cbn [List.length]. rewrite Nat2Z.inj_succ.
  destruct (Z.succ (Z.of_nat (List.length vn)) =? 0) eqn:E;
    [apply Z.eqb_eq in E; lia|]. done.
Qed.

End ExtrapolateClaim.

Lemma dim_nonneg {G : GridOps} {C : Collaborators G} (s : flipsim) :
  0 <= dim_x s /\ 0 <= dim_y s /\ 0 <= dim_z s.
Proof.
  unfold dim_x, dim_y, dim_z, to_uint, wrap32.
  repeat split; apply Z.mod_pos_bound; lia.
Qed.

(** C3, amended: on a domain whose extents are below 2^24 (where the
    neighbour indices that the sweep holds in [float] are exact), a face
    of the staggered grids that touches no FLUID cell ([mark] false) and
    has the domain boundary or a SOLID cell on either side ([wallmark]
    true) is set to the mean of the in-range axis-aligned neighbour faces
    that touch a FLUID cell, and keeps its value when there is none; every
    other face, in particular every face whose [wallmark] is false, keeps
    its value. *)
Theorem extrapolateVelocity_faces
    {G : GridOps} {GL : GridLaws G} {C : Collaborators G}
    (s : flipsim) (n : axis) (i j k : Z) :
  let x := dim_x s in let y := dim_y s in let z := dim_z s in
  let m := Sim.mgrid s in
  let m' := Sim.mgrid (extrapolateVelocity s) in
  let valid := mark_value (Mac.A m) x y z n i j k in
  let wall := wallmark_value (Mac.A m) x y z n i j k in
  let vn := valid_neighbours (Mac.A m) x y z n i j k in
  x < 2 ^ 24 -> y < 2 ^ 24 -> z < 2 ^ 24 ->
  in_faces x y z n i j k = true ->
  (valid = false -> wall = true ->
   getCell (get_u n m') i j k
   = match vn with
     | [] => getCell (get_u n m) i j k
     | _ :: _ =>
         F32.div (sum_of_faces (get_u n m) vn) (F32.of_Z (Z.of_nat (List.length vn)))
     end)
  /\ (valid = true \/ wall = false ->
      getCell (get_u n m') i j k = getCell (get_u n m) i j k).
Proof.
  intros x y z m m' valid wall vn Hx Hy Hz Hin.
  destruct (dim_nonneg s) as (Hx0 & Hy0 & Hz0).
  pose proof (extrapolate_grid_face x y z (conj Hx0 Hx) (conj Hy0 Hy) (conj Hz0 Hz)
                m n i j k Hin) as H.
  cbv zeta in H. fold valid wall vn in H.
  change (Sim.mgrid (extrapolateVelocity s)) with (extrapolate_grid x y z m) in m'.
  subst m'. rewrite H. split.
  - intros -> ->. done.
  - intros [-> | ->]; [done|]. by rewrite andb_false_r.
Qed.

Lemma extrapolateVelocity_faces_witness :
  let s := Demo.fluid_then_solid in
  let m := Sim.mgrid s in
  dim_x s < 2 ^ 24 /\ dim_y s < 2 ^ 24 /\ dim_z s < 2 ^ 24
  /\ in_faces (dim_x s) (dim_y s) (dim_z s) AX 2 0 0 = true
  /\ mark_value (Mac.A m) (dim_x s) (dim_y s) (dim_z s) AX 2 0 0 = false
  /\ wallmark_value (Mac.A m) (dim_x s) (dim_y s) (dim_z s) AX 2 0 0 = true
  /\ getCell (get_u AX (Sim.mgrid (extrapolateVelocity s))) 2 0 0 = F32.of_Z 6.
Proof.
  intros s m.
  assert (Hx : dim_x s < 2 ^ 24) by (vm_compute; reflexivity).
  assert (Hy : dim_y s < 2 ^ 24) by (vm_compute; reflexivity).
  assert (Hz : dim_z s < 2 ^ 24) by (vm_compute; reflexivity).
  assert (Hin : in_faces (dim_x s) (dim_y s) (dim_z s) AX 2 0 0 = true)
    by (vm_compute; reflexivity).
  assert (Hv : mark_value (Mac.A m) (dim_x s) (dim_y s) (dim_z s) AX 2 0 0 = false)
    by (vm_compute; reflexivity).
  assert (Hw : wallmark_value (Mac.A m) (dim_x s) (dim_y s) (dim_z s) AX 2 0 0 = true)
    by (vm_compute; reflexivity).
  repeat (split; [assumption|]).
  rewrite (proj1 (@extrapolateVelocity_faces SparseGrid.ops SparseGrid_laws
                    Demo.collab s AX 2 0 0 Hx Hy Hz Hin) Hv Hw).
  vm_compute. reflexivity.
Defined.

(** Why the extents are bounded. From 2^24 on, the neighbour indices that
    the sweep holds in [float] are rounded: in a domain of 2^24 + 4 cells
    along x, the wall x-face 2^24 + 2 has no valid neighbour face (the
    x-faces 2^24 + 1 and 2^24 + 3 touch no FLUID cell), and the sweep
    sets it to the velocity 6 of the x-face 2^24, which is what
    [float(2^24 + 1)] names. *)
Lemma extrapolateVelocity_rounds_large_indices :
  let s := Demo.long_domain in
  let m := Sim.mgrid s in
  let x := dim_x s in let y := dim_y s in let z := dim_z s in
  x = 2 ^ 24 + 4
  /\ in_faces x y z AX 16777218 0 0 = true
  /\ mark_value (Mac.A m) x y z AX 16777218 0 0 = false
  /\ wallmark_value (Mac.A m) x y z AX 16777218 0 0 = true
  /\ valid_neighbours (Mac.A m) x y z AX 16777218 0 0 = []
  /\ face_index <$> take 2 (neighbours6 16777218 0 0)
     = [ (16777216, 0, 0); (16777220, 0, 0) ]
  /\ getCell (Mac.u_x m) 16777218 0 0 = F32.zero
  /\ getCell (Mac.u_x (Sim.mgrid (extrapolateVelocity s))) 16777218 0 0
     = F32.of_Z 6.
Proof.
  intros s m x y z.
  do 7 (split; [vm_compute; reflexivity|]).
  assert (forall s0 : @Sim.flipsim SparseGrid.ops Demo.collab,
             Mac.u_x (Sim.mgrid (extrapolateVelocity s0))
             = get_u AX (extrapolate_grid (dim_x s0) (dim_y s0) (dim_z s0)
                           (Sim.mgrid s0))) as E by reflexivity.
  rewrite E. fold x y z m. clear E.
  rewrite extrapolate_grid_sweep.
  rewrite (sweep_value (GL := SparseGrid_laws) _ _ x y z m)
    by apply marked_kept_refl.
  assert ((16777218, 0, 0, AX) ∈ sweep_faces x y z) as Hin.
  { unfold sweep_faces. apply list_elem_of_bind. exists (16777218, 0, 0). split.
    - apply list_elem_of_fmap. exists AX. split; [done|]. rewrite !elem_of_cons. auto.
    - apply elem_of_triples.
      assert (uadd x 1 = 16777221 /\ uadd y 1 = 2 /\ uadd z 1 = 2) as (-> & -> & ->)
        by (vm_compute; done).
      lia. }
  case_bool_decide as Hd; [clear Hd|done]. cbn [andb].
  unfold face_written, extrapolated_value, gather_neighbours, for_each, neighbours6,
    mark_grids, wallmark_grids.
  cbn [fold_left face_index vx vy vz].
  rewrite !(fill_marks_value (GL := SparseGrid_laws)).
  vm_compute. reflexivity.
Qed.

(** * Further properties of [flip.cpp] *)

(** ** More binary32 facts *)

Lemma F32_sub_self (a : float) : is_finite a = true -> F32.sub a a = F32.zero.
Proof.
  unfold F32.sub, SFsub, F32.zero.
  destruct a as [[]| | |s m e]; try done; intros _.
  cbv zeta. rewrite Z.min_id, Z.sub_diag. reflexivity.
Qed.

Lemma F32_zero_add_sub (a : float) :
  is_finite a = true -> F32.sub (F32.add F32.zero a) a = F32.zero.
Proof.
  intros H. destruct a as [[]| | |s m e]; try done.
  change (F32.add F32.zero (S754_finite s m e)) with (S754_finite s m e).
  by apply F32_sub_self.
Qed.

Lemma F32_sub_zero (v : float) : F32.sub v F32.zero = v.
Proof. by destruct v as [[]|[]| |s m e]. Qed.

Lemma F32_zero_div_positive (h : float) :
  F32.ltb F32.zero h = true -> F32.div F32.zero h = F32.zero.
Proof. by destruct h as [[]|[]| |[] m e]. Qed.

Lemma F32_zero_div_number (h : float) :
  F32.is_nan h = false -> F32.eqb h F32.zero = false ->
  F32.eqb (F32.div F32.zero h) F32.zero = true.
Proof. by destruct h as [[]|[]| |[] m e]. Qed.

(** ** The saved grid *)

Section SavedGrid.
Context {G : GridOps} {GL : GridLaws G} {C : Collaborators G}.

(** X1. [storePreviousGrid] copies every face of the three staggered grids of
    [mgrid] into [mgrid_previous]; the cells of [mgrid_previous] outside
    the staggered ranges, its other grids, [mgrid] and the particles are
    left as they are. *)
Theorem storePreviousGrid_copies (s : flipsim) (n : axis) (i j k : Z) :
  let s' := storePreviousGrid s in
  getCell (get_u n (Sim.mgrid_previous s')) i j k
  = (if in_faces (dim_x s) (dim_y s) (dim_z s) n i j k
     then getCell (get_u n (Sim.mgrid s)) i j k
     else getCell (get_u n (Sim.mgrid_previous s)) i j k)
  /\ Sim.mgrid s' = Sim.mgrid s
  /\ Sim.particles s' = Sim.particles s
  /\ Mac.A (Sim.mgrid_previous s') = Mac.A (Sim.mgrid_previous s)
  /\ Mac.P (Sim.mgrid_previous s') = Mac.P (Sim.mgrid_previous s)
  /\ Mac.D (Sim.mgrid_previous s') = Mac.D (Sim.mgrid_previous s)
  /\ Mac.L (Sim.mgrid_previous s') = Mac.L (Sim.mgrid_previous s).
Proof.
  intros s'. split; [apply storePreviousGrid_faces|]. repeat split.
Qed.

(** X2. When nothing changes [mgrid] between [storePreviousGrid] and
    [subtractPreviousGrid], the difference left in [mgrid_previous] is
    [+0] on every face that holds a finite velocity. *)
Theorem store_then_subtract_is_zero (s : flipsim) (n : axis) (i j k : Z) :
  in_faces (dim_x s) (dim_y s) (dim_z s) n i j k = true ->
  is_finite (getCell (get_u n (Sim.mgrid s)) i j k) = true ->
  getCell (get_u n (Sim.mgrid_previous (subtractPreviousGrid (storePreviousGrid s))))
    i j k
  = F32.zero.
Proof.
  intros Hin Hfin.
  rewrite subtractPreviousGrid_faces.
  change (dim_x (storePreviousGrid s)) with (dim_x s).
  change (dim_y (storePreviousGrid s)) with (dim_y s).
  change (dim_z (storePreviousGrid s)) with (dim_z s).
  rewrite Hin, storePreviousGrid_faces, Hin.
  change (Sim.mgrid (storePreviousGrid s)) with (Sim.mgrid s).
  by apply F32_sub_self.
Qed.

End SavedGrid.

Lemma storePreviousGrid_copies_witness :
  let s := Sim.set_mgrid Demo.moving_fluid Demo.flowing_macgrid in
  getCell (get_u AX (Sim.mgrid_previous (storePreviousGrid s))) 0 0 0
  = (if in_faces (dim_x s) (dim_y s) (dim_z s) AX 0 0 0
     then getCell (get_u AX (Sim.mgrid s)) 0 0 0
     else getCell (get_u AX (Sim.mgrid_previous s)) 0 0 0).
Proof.
  intros s.
  exact (proj1 (@storePreviousGrid_copies SparseGrid.ops SparseGrid_laws Demo.collab
                  s AX 0 0 0)).
Defined.

Lemma store_then_subtract_is_zero_witness :
  let s := Sim.set_mgrid Demo.moving_fluid Demo.flowing_macgrid in
  in_faces (dim_x s) (dim_y s) (dim_z s) AX 0 0 0 = true
  /\ getCell (get_u AX (Sim.mgrid s)) 0 0 0 = F32.of_Z 2
  /\ getCell (get_u AX (Sim.mgrid_previous (subtractPreviousGrid (storePreviousGrid s))))
       0 0 0
     = F32.zero.
Proof.
  intros s.
  assert (H1 : in_faces (dim_x s) (dim_y s) (dim_z s) AX 0 0 0 = true)
    by (vm_compute; reflexivity).
  assert (H2 : is_finite (getCell (get_u AX (Sim.mgrid s)) 0 0 0) = true)
    by (vm_compute; reflexivity).
  split; [exact H1|]. split; [vm_compute; reflexivity|].
  exact (@store_then_subtract_is_zero SparseGrid.ops SparseGrid_laws Demo.collab
           s AX 0 0 0 H1 H2).
Defined.

(** ** More on [subtractPressureGradient] and [project] *)

Section PressureMore.
Context {G : GridOps} {GL : GridLaws G} {C : Collaborators G}.

(** X3. [subtractPressureGradient] leaves the velocity of every face on the
    domain boundary (index 0 or the extent along the face's axis) and
    beyond it as it is, and changes no pressure, level set, divergence,
    cell type or particle. *)
Theorem subtractPressureGradient_keeps_boundary (s : flipsim) (n : axis) (i j k : Z) :
  let s' := subtractPressureGradient s in
  match n with
  | AX => i <= 0 \/ dim_x s <= i
  | AY => j <= 0 \/ dim_y s <= j
  | AZ => k <= 0 \/ dim_z s <= k
  end ->
  getCell (get_u n (Sim.mgrid s')) i j k = getCell (get_u n (Sim.mgrid s)) i j k
  /\ Mac.P (Sim.mgrid s') = Mac.P (Sim.mgrid s)
  /\ Mac.L (Sim.mgrid s') = Mac.L (Sim.mgrid s)
  /\ Mac.D (Sim.mgrid s') = Mac.D (Sim.mgrid s)
  /\ Mac.A (Sim.mgrid s') = Mac.A (Sim.mgrid s)
  /\ Sim.particles s' = Sim.particles s.
Proof.
  intros s' H. split; [|repeat split].
  subst s'. rewrite subtractPressureGradient_face.
  assert (interior_face (dim_x s) (dim_y s) (dim_z s) n i j k = false) as ->; [|done].
  unfold interior_face. apply andb_false_iff. right. destruct n; lia.
Qed.

(** X4. Equal finite pressures on the two sides of a face exert no force:
    where the sub-cell rule does not apply (it is off, or [L(B) * L(A)] is
    not below zero) and [0 < h], the face velocity is left exactly as it
    is. *)
Theorem subtractPressureGradient_uniform_pressure (s : flipsim) (n : axis) (i j k : Z) :
  let m := Sim.mgrid s in
  let h := F32.div F32.one (maxd_of (Sim.dimensions s)) in
  let a := back_cell n i j k in
  let LB := getCell (Mac.L m) i j k in
  let LA := getCell (Mac.L m) a.1.1 a.1.2 a.2 in
  let PB := getCell (Mac.P m) i j k in
  let PA := getCell (Mac.P m) a.1.1 a.1.2 a.2 in
  Sim.subcell s = 0 \/ F32.ltb (F32.mul LB LA) F32.zero = false ->
  PA = PB -> is_finite PB = true -> F32.ltb F32.zero h = true ->
  getCell (get_u n (Sim.mgrid (subtractPressureGradient s))) i j k
  = getCell (get_u n m) i j k.
Proof.
  intros m h a LB LA PB PA Hoff HP Hfin Hh.
  rewrite subtractPressureGradient_face. fold m h a LB LA PB PA.
  destruct (interior_face _ _ _ _ _ _ _); [|done].
  assert (face_pressures (Sim.subcell s) LB LA PB PA = (PB, PA)) as ->.
  { unfold face_pressures. destruct Hoff as [-> | ->]; [done|].
    by rewrite andb_false_r. }
  unfold subtract_face. cbn [fst snd]. rewrite HP.
  rewrite F32_sub_self by done.
  rewrite F32_zero_div_positive by done. apply F32_sub_zero.
Qed.

(** X5. The divergence that [project] hands to the solver: there is one
    grid, handed to [buildSDF] and [solve], whose velocity grids are as
    before and whose [D] holds the discrete divergence at every cell of
    the domain and its former value elsewhere; at a cell whose opposite
    faces carry the same finite velocity along each axis the divergence
    is zero, when [h] is a number other than zero. *)
Theorem project_divergence (s : flipsim) :
  let m := Sim.mgrid s in
  let h := F32.div F32.one (maxd_of (Sim.dimensions s)) in
  exists m1 : macgrid,
    project s
    = subtractPressureGradient
        (Sim.set_mgrid s
           (solve (buildSDF (Sim.pgrid s) m1 (Sim.density s))
              (Sim.subcell s) (Sim.verbose s)))
    /\ (forall n, get_u n m1 = get_u n m)
    /\ Mac.A m1 = Mac.A m /\ Mac.P m1 = Mac.P m /\ Mac.L m1 = Mac.L m
    /\ forall i j k : Z,
         let inside := in_box (dim_x s) (dim_y s) (dim_z s) i j k in
         getCell (Mac.D m1) i j k
         = (if inside then divergence_at m h i j k else getCell (Mac.D m) i j k)
         /\ (inside = true ->
             getCell (Mac.u_x m) (i + 1) j k = getCell (Mac.u_x m) i j k ->
             getCell (Mac.u_y m) i (j + 1) k = getCell (Mac.u_y m) i j k ->
             getCell (Mac.u_z m) i j (k + 1) = getCell (Mac.u_z m) i j k ->
             is_finite (getCell (Mac.u_x m) i j k) = true ->
             is_finite (getCell (Mac.u_y m) i j k) = true ->
             is_finite (getCell (Mac.u_z m) i j k) = true ->
             F32.is_nan h = false -> F32.eqb h F32.zero = false ->
             F32.eqb (getCell (Mac.D m1) i j k) F32.zero = true).
Proof.
  intros m h.
  eexists. split; [reflexivity|].
  split; [by intros []|]. split; [done|]. split; [done|]. split; [done|].
  intros i j k inside.
  split.
  - cbn [Mac.set_D Mac.D]. rewrite for3_fill. done.
  - intros Hin Ex Ey Ez Fx Fy Fz Hn Hz.
    cbn [Mac.set_D Mac.D]. rewrite for3_fill. fold inside. rewrite Hin.
    unfold divergence_at. fold m. rewrite Ex, Ey, Ez.
    rewrite (F32_sub_self _ Fx).
    rewrite (F32_zero_add_sub _ Fy).
    rewrite (F32_zero_add_sub _ Fz).
    by apply F32_zero_div_number.
Qed.

End PressureMore.

Lemma subtractPressureGradient_keeps_boundary_witness :
  let s := Demo.at_surface in
  (0 <= 0 \/ dim_x s <= 0)
  /\ getCell (get_u AX (Sim.mgrid (subtractPressureGradient s))) 0 1 1
     = getCell (get_u AX (Sim.mgrid s)) 0 1 1.
Proof.
  intros s.
  assert (H : 0 <= 0 \/ dim_x s <= 0) by (left; lia).
  split; [exact H|].
  exact (proj1 (@subtractPressureGradient_keeps_boundary SparseGrid.ops
                  SparseGrid_laws Demo.collab s AX 0 1 1 H)).
Defined.

Lemma subtractPressureGradient_uniform_pressure_witness :
  let s := Demo.at_surface in
  let m := Sim.mgrid s in
  F32.ltb (F32.mul (getCell (Mac.L m) 3 1 1) (getCell (Mac.L m) 2 1 1)) F32.zero = false
  /\ getCell (Mac.P m) 2 1 1 = getCell (Mac.P m) 3 1 1
  /\ is_finite (getCell (Mac.P m) 3 1 1) = true
  /\ F32.ltb F32.zero (F32.div F32.one (maxd_of (Sim.dimensions s))) = true
  /\ getCell (get_u AX (Sim.mgrid (subtractPressureGradient s))) 3 1 1
     = getCell (get_u AX m) 3 1 1.
Proof.
  intros s m.
  assert (H1 : F32.ltb (F32.mul (getCell (Mac.L m) 3 1 1) (getCell (Mac.L m) 2 1 1))
                 F32.zero = false) by (vm_compute; reflexivity).
  assert (H2 : getCell (Mac.P m) 2 1 1 = getCell (Mac.P m) 3 1 1)
    by (vm_compute; reflexivity).
  assert (H3 : is_finite (getCell (Mac.P m) 3 1 1) = true) by (vm_compute; reflexivity).
  assert (H4 : F32.ltb F32.zero (F32.div F32.one (maxd_of (Sim.dimensions s))) = true)
    by (vm_compute; reflexivity).
  repeat (split; [assumption|]).
  exact (@subtractPressureGradient_uniform_pressure SparseGrid.ops SparseGrid_laws
           Demo.collab s AX 3 1 1 (or_intror H1) H2 H3 H4).
Defined.

Lemma project_divergence_witness :
  let s := Demo.at_surface in
  exists m1 : @Mac.macgrid SparseGrid.ops,
    project s
    = subtractPressureGradient
        (Sim.set_mgrid s
           (@solve _ Demo.collab
              (@buildSDF _ Demo.collab (Sim.pgrid s) m1 (Sim.density s))
              (Sim.subcell s) (Sim.verbose s)))
    /\ F32.eqb (getCell (Mac.D m1) 1 1 1) F32.zero = true.
Proof.
  intros s.
  destruct (@project_divergence SparseGrid.ops SparseGrid_laws Demo.collab s)
    as (m1 & H1 & _ & _ & _ & _ & H2).
  exists m1. split; [exact H1|].
  apply (H2 1 1 1); vm_compute; reflexivity.
Defined.

(** ** More on [extrapolateVelocity] *)

Section ExtrapolateMore.
Context {G : GridOps} {GL : GridLaws G}.

Lemma extrapolate_face_others (mark wallmark : axis -> grid Z) (x y z i j k : Z)
    (n : axis) (m : macgrid) :
  let m' := extrapolate_face mark wallmark x y z i j k n m in
  Mac.P m' = Mac.P m /\ Mac.D m' = Mac.D m /\ Mac.L m' = Mac.L m.
Proof.
  cbv zeta. rewrite extrapolate_face_written.
  destruct (face_written _ _ _ _ _ _ _ _ _); [|done].
  destruct (extrapolated_value _ _ _ _ _ _ _ _ _); [|done].
  by destruct n.
Qed.

Lemma extrapolate_grid_others (x y z : Z) (m : macgrid) :
  let m' := extrapolate_grid x y z m in
  Mac.P m' = Mac.P m /\ Mac.D m' = Mac.D m /\ Mac.L m' = Mac.L m.
Proof.
  cbv zeta. rewrite extrapolate_grid_sweep.
  generalize (mark_grids (Mac.A m) x y z) (wallmark_grids (Mac.A m) x y z).
  intros mk wm. generalize (sweep_faces x y z). intros l.
  revert m. induction l as [|f l IH]; intros m; cbn [fold_left]; [done|].
  destruct (IH (extrapolate_face mk wm x y z f.1.1.1 f.1.1.2 f.1.2 f.2 m))
    as (-> & -> & ->).
  apply extrapolate_face_others.
Qed.

(** X6. The only faces that [extrapolateVelocity] may write are faces of the
    staggered grids that touch no FLUID cell and have the boundary or a
    SOLID cell on either side: for any extents, every other index of
    [u_x], [u_y], [u_z] keeps its value, and the cell types, pressure,
    divergence, level set and the particles are left as they are. *)
Theorem extrapolateVelocity_writes_wall_faces_only {C : Collaborators G}
    (s : flipsim) (n : axis) (i j k : Z) :
  let x := dim_x s in let y := dim_y s in let z := dim_z s in
  let m := Sim.mgrid s in
  let s' := extrapolateVelocity s in
  (in_faces x y z n i j k = false
   \/ mark_value (Mac.A m) x y z n i j k = true
   \/ wallmark_value (Mac.A m) x y z n i j k = false ->
   getCell (get_u n (Sim.mgrid s')) i j k = getCell (get_u n m) i j k)
  /\ Mac.A (Sim.mgrid s') = Mac.A m /\ Mac.P (Sim.mgrid s') = Mac.P m
  /\ Mac.D (Sim.mgrid s') = Mac.D m /\ Mac.L (Sim.mgrid s') = Mac.L m
  /\ Sim.particles s' = Sim.particles s.
Proof.
  intros x y z m s'.
  change (Sim.mgrid s') with (extrapolate_grid x y z m).
  destruct (extrapolate_grid_others x y z m) as (HP & HD & HL).
  split; [|by rewrite extrapolate_grid_A].
  intros H. rewrite extrapolate_grid_sweep.
  rewrite (sweep_value _ _ x y z m) by apply marked_kept_refl.
  assert (face_written (mark_grids (Mac.A m) x y z) (wallmark_grids (Mac.A m) x y z)
            x y z i j k n = false) as ->; [|by rewrite andb_false_r].
  unfold face_written, mark_grids, wallmark_grids. rewrite !fill_marks_value.
  destruct H as [-> | [H | H]].
  - by rewrite !andb_false_r.
  - rewrite H. destruct (in_faces x y z n i j k); by rewrite !andb_false_r.
  - rewrite H. destruct (in_faces x y z n i j k); by rewrite !andb_false_r.
Qed.

(** X7. Where no cell is FLUID, [extrapolateVelocity] changes no face
    velocity at all. *)
Theorem extrapolateVelocity_without_fluid {C : Collaborators G}
    (s : flipsim) (n : axis) (i j k : Z) :
  (forall a b c, getCell (Mac.A (Sim.mgrid s)) a b c <> FLUID) ->
  getCell (get_u n (Sim.mgrid (extrapolateVelocity s))) i j k
  = getCell (get_u n (Sim.mgrid s)) i j k.
Proof.
  intros Hdry.
  set (x := dim_x s). set (y := dim_y s). set (z := dim_z s). set (m := Sim.mgrid s).
  change (Sim.mgrid (extrapolateVelocity s)) with (extrapolate_grid x y z m).
  rewrite extrapolate_grid_sweep.
  rewrite (sweep_value _ _ x y z m) by apply marked_kept_refl.
  assert (extrapolated_value (mark_grids (Mac.A m) x y z) x y z n m i j k = None)
    as ->; [|by destruct (_ && _)].
  assert (forall a b c, getCell (mark_grids (Mac.A m) x y z n) a b c = 0) as Hm.
  { intros a b c. unfold mark_grids. rewrite fill_marks_value.
    destruct (in_faces x y z n a b c); [|done].
    assert (mark_value (Mac.A m) x y z n a b c = false) as ->; [|done].
    unfold mark_value, geom_eqb.
    destruct n; rewrite !bool_decide_eq_false_2 by apply Hdry;
      by rewrite !andb_false_r. }
  unfold extrapolated_value, gather_neighbours, for_each.
  assert (forall l acc,
             fold_left
               (fun (acc : Z * float) (q : vec3) =>
                  let '(q0, q1, q2) := face_index q in
                  if in_face_range x y z n q then
                    if negb (getCell (mark_grids (Mac.A m) x y z n) q0 q1 q2 =? 0)
                    then (acc.1 + 1,
                          F32.add acc.2 (getCell (get_u n m) q0 q1 q2))
                    else acc
                  else acc) l acc = acc) as Hfold.
  { induction l as [|q l IH]; intros acc; cbn [fold_left]; [done|].
    destruct (face_index q) as [[q0 q1] q2].
    rewrite Hm. cbn [Z.eqb negb].
    destruct (in_face_range x y z n q); apply IH. }
  rewrite Hfold. done.
Qed.

End ExtrapolateMore.

Lemma extrapolateVelocity_writes_wall_faces_only_witness :
  let s := Demo.fluid_then_air in
  wallmark_value (Mac.A (Sim.mgrid s)) (dim_x s) (dim_y s) (dim_z s) AX 2 0 0 = false
  /\ getCell (get_u AX (Sim.mgrid (extrapolateVelocity s))) 2 0 0
     = getCell (get_u AX (Sim.mgrid s)) 2 0 0.
Proof.
  intros s.
  assert (H : wallmark_value (Mac.A (Sim.mgrid s)) (dim_x s) (dim_y s) (dim_z s)
                AX 2 0 0 = false) by (vm_compute; reflexivity).
  split; [exact H|].
  exact (proj1 (@extrapolateVelocity_writes_wall_faces_only SparseGrid.ops
                  SparseGrid_laws Demo.collab s AX 2 0 0)
           (or_intror (or_intror H))).
Defined.

Lemma extrapolateVelocity_without_fluid_witness :
  let s := Demo.at_surface in
  (forall a b c, @getCell SparseGrid.ops _ (Mac.A (Sim.mgrid s)) a b c <> FLUID)
  /\ getCell (get_u AX (Sim.mgrid (extrapolateVelocity s))) 2 1 1
     = getCell (get_u AX (Sim.mgrid s)) 2 1 1.
Proof.
  intros s.
  assert (H : forall a b c,
             @getCell SparseGrid.ops _ (Mac.A (Sim.mgrid s)) a b c <> FLUID).
  { intros a b c. cbn. unfold SparseGrid.get. cbn. rewrite lookup_empty. cbn.
    discriminate. }
  split; [exact H|].
  exact (@extrapolateVelocity_without_fluid SparseGrid.ops SparseGrid_laws
           Demo.collab s AX 2 1 1 H).
Defined.

(** ** What the particle loops leave alone *)

(** X8. [advectParticles] keeps the number of particles and the type of each,
    and leaves every particle that is not FLUID exactly as it is. *)
Theorem advectParticles_keeps_other_particles
    {G : GridOps} {C : Collaborators G} (s : flipsim) (idx : nat) (q : particle) :
  Sim.particles s !! idx = Some q ->
  List.length (Sim.particles (advectParticles s)) = List.length (Sim.particles s)
  /\ exists q',
       Sim.particles (advectParticles s) !! idx = Some q'
       /\ Pt.type q' = Pt.type q
       /\ (Pt.type q <> FLUID -> q' = q).
Proof.
  intros Hq. unfold advectParticles. cbn [Sim.particles Sim.set_particles].
  rewrite for_particles_map.
  set (moved := map (advect_move s) (Sim.particles s)).
  set (pg := sort (Sim.pgrid s) moved).
  unfold for_particle_indices, for_each.
  destruct (advect_loop_kept s pg (seq 0 (List.length moved)) moved moved
              (solids_kept_refl moved)) as [Hlen Hk].
  split; [rewrite Hlen; subst moved; apply length_map|].
  destruct (Hk idx (advect_move s q)) as (x & Hx & Hty & Hsame).
  { subst moved. by rewrite list_lookup_fmap, Hq. }
  exists x. split; [done|]. rewrite advect_move_type in Hty, Hsame.
  split; [done|]. intros Hn. rewrite (Hsame Hn). by apply advect_move_not_fluid.
Qed.

Lemma advectParticles_keeps_other_particles_witness :
  let s := Demo.fluid_by_obstacle in
  exists q,
    Sim.particles s !! 1%nat = Some q
    /\ Pt.type q = SOLID
    /\ Sim.particles (advectParticles s) !! 1%nat = Some q.
Proof.
  intros s. eexists. split; [reflexivity|]. split; [reflexivity|].
  destruct (@advectParticles_keeps_other_particles SparseGrid.ops Demo.collab
              s 1%nat _ eq_refl) as (_ & q' & H1 & _ & H2).
  rewrite H1. f_equal. apply H2. discriminate.
Defined.

Lemma update_each_length {X : Type} (F : X -> particle -> particle)
    (l : list (nat * X)) (ps : list particle) :
  List.length (fold_left (fun st ip => update_at ip.1 (F ip.2) st) l ps)
  = List.length ps.
Proof.
  revert ps. induction l as [|ip l IH]; intros ps; cbn [fold_left]; [done|].
  rewrite IH. apply update_at_length.
Qed.

Lemma update_each_projection {X Y : Type} (F : X -> particle -> particle)
    (f : particle -> Y) (l : list (nat * X)) (ps : list particle) (i : nat)
    (q : particle) :
  (forall v q0, f (F v q0) = f q0) ->
  ps !! i = Some q ->
  exists q', fold_left (fun st ip => update_at ip.1 (F ip.2) st) l ps !! i = Some q'
             /\ f q' = f q.
Proof.
  intros Hf. revert ps q. induction l as [|[j v] l IH]; intros ps q Hq;
    cbn [fold_left]; [by exists q|].
  destruct (decide (i = j)) as [->|NE].
  - destruct (IH (update_at j (F v) ps) (F v q)) as (q' & H1 & H2).
    { rewrite update_at_lookup, decide_True by done. by rewrite Hq. }
    exists q'. split; [done|]. by rewrite H2.
  - apply IH. cbn [fst snd]. rewrite update_at_lookup, decide_False by done. done.
Qed.

(** X9. [pushStuckParticles] keeps the number of particles, leaves every
    particle that is not stuck (valid, or not FLUID) exactly as it is, and
    changes neither the type nor the flags of any particle. *)
Theorem pushStuckParticles_leaves_unstuck
    {G : GridOps} {C : Collaborators G} (s : flipsim) (maxd : float)
    (idx : nat) (q : particle) :
  Sim.particles s !! idx = Some q ->
  let s' := pushStuckParticles maxd s in
  List.length (Sim.particles s') = List.length (Sim.particles s)
  /\ (Pt.invalid q = false \/ Pt.type q <> FLUID ->
      Sim.particles s' !! idx = Some q)
  /\ exists q',
       Sim.particles s' !! idx = Some q'
       /\ Pt.type q' = Pt.type q /\ Pt.invalid q' = Pt.invalid q
       /\ Pt.temp q' = Pt.temp q.
Proof.
  intros Hq s'. subst s'. unfold pushStuckParticles.
  cbn [Sim.particles Sim.set_particles]. unfold for_each.
  split; [apply update_each_length|]. split.
  - intros Hun. rewrite update_each_other; [done|].
    intros Hin. apply list_elem_of_fmap in Hin as ([i' v] & -> & Hin).
    apply elem_of_zip_l in Hin. apply elem_of_stuck_indices in Hin.
    unfold is_stuck in Hin. cbn [fst] in Hq. rewrite Hq in Hin.
    apply andb_true_iff in Hin as [Hi Ht]. apply bool_decide_eq_true in Ht.
    destruct Hun; congruence.
  - destruct (update_each_projection (push_out maxd)
                (fun p => (Pt.type p, Pt.invalid p, Pt.temp p))
                (zip (stuck_indices (Sim.particles s))
                   (projectPointsToSolidSurface (Sim.scene s)
                      (stuck_positions maxd (Sim.particles s))))
                (Sim.particles s) idx q) as (q' & H1 & H2); [|done|].
    + intros v q0. unfold push_out. by destruct (F32.ltb _ _).
    + exists q'. split; [done|]. by inversion H2.
Qed.

Lemma pushStuckParticles_leaves_unstuck_witness :
  let s := Demo.fluid_by_obstacle in
  let maxd := maxd_of (Sim.dimensions s) in
  exists q,
    Sim.particles s !! 0%nat = Some q
    /\ Pt.invalid q = false
    /\ Sim.particles (pushStuckParticles maxd s) !! 0%nat = Some q.
Proof.
  intros s maxd. eexists. split; [reflexivity|]. split; [reflexivity|].
  exact (proj1 (proj2 (@pushStuckParticles_leaves_unstuck SparseGrid.ops Demo.collab
                         s maxd 0%nat _ eq_refl))
           (or_introl eq_refl)).
Defined.

(** ** [computeDensity] *)

Section Density.
Context {G : GridOps} {C : Collaborators G}.

Lemma computeDensity_body_other (s : flipsim) (p0 : nat) (st : list particle)
    (j : nat) :
  j <> p0 -> computeDensity_body s p0 st !! j = st !! j.
Proof.
  intros Hj. unfold computeDensity_body. cbv zeta.
  destruct (st !! p0) as [q|]; [|done].
  destruct (geom_eqb _ _); by rewrite list_lookup_insert_ne.
Qed.

Lemma computeDensity_body_own (s : flipsim) (p0 : nat) (st : list particle)
    (q : particle) :
  st !! p0 = Some q ->
  exists d, computeDensity_body s p0 st !! p0 = Some (Pt.set_density q d)
            /\ (Pt.type q = SOLID -> d = F32.one).
Proof.
  intros Hq. unfold computeDensity_body. cbv zeta. rewrite Hq.
  pose proof (lookup_lt_Some _ _ _ Hq) as Hlt.
  unfold geom_eqb. case_bool_decide as E.
  - exists F32.one. by rewrite list_lookup_insert_eq.
  - eexists. rewrite list_lookup_insert_eq by done. split; [reflexivity|done].
Qed.

Lemma computeDensity_body_length (s : flipsim) (p0 : nat) (st : list particle) :
  List.length (computeDensity_body s p0 st) = List.length st.
Proof.
  unfold computeDensity_body. cbv zeta.
  destruct (st !! p0) as [q|]; [|done].
  destruct (geom_eqb _ _); apply length_insert.
Qed.

Lemma computeDensity_loop_length (s : flipsim) (l : list nat) (st : list particle) :
  List.length (fold_left (fun acc p0 => computeDensity_body s p0 acc) l st)
  = List.length st.
Proof.
  revert st. induction l as [|p0 l IH]; intros st; cbn [fold_left]; [done|].
  rewrite IH. apply computeDensity_body_length.
Qed.

(** X10. [computeDensity] keeps the number of particles and changes nothing of
    a particle but its density; the density of a SOLID particle becomes
    exactly [1.0f]. *)
Theorem computeDensity_sets_density_only (s : flipsim) (idx : nat) (q : particle) :
  Sim.particles s !! idx = Some q ->
  List.length (Sim.particles (computeDensity s)) = List.length (Sim.particles s)
  /\ exists d,
       Sim.particles (computeDensity s) !! idx = Some (Pt.set_density q d)
       /\ (Pt.type q = SOLID -> d = F32.one).
Proof.
  intros Hq. unfold computeDensity. cbn [Sim.particles Sim.set_particles].
  unfold for_particle_indices, for_each.
  split; [apply computeDensity_loop_length|].
  rewrite (fold_own_at (computeDensity_body s))
    by (first [apply computeDensity_body_other | by eapply lookup_lt_Some]).
  apply computeDensity_body_own.
  rewrite fold_own_other; [done|apply computeDensity_body_other|].
  rewrite elem_of_seq. lia.
Qed.

End Density.

Lemma computeDensity_sets_density_only_witness :
  let s := Demo.fluid_by_obstacle in
  exists q,
    Sim.particles s !! 1%nat = Some q
    /\ Pt.type q = SOLID
    /\ Sim.particles (computeDensity s) !! 1%nat = Some (Pt.set_density q F32.one).
Proof.
  intros s. eexists. split; [reflexivity|]. split; [reflexivity|].
  destruct (@computeDensity_sets_density_only SparseGrid.ops Demo.collab
              s 1%nat _ eq_refl) as (_ & d & H1 & H2).
  rewrite H1, (H2 eq_refl). reflexivity.
Defined.

(** ** [init] *)

Lemma F32_ltb_not_nan (a b : float) :
  F32.ltb a b = true -> F32.is_nan a = false /\ F32.is_nan b = false.
Proof.
  unfold F32.ltb, SFltb, SFcompare.
  destruct a as [[]|[]| |[] ma ea], b as [[]|[]| |[] mb eb]; simpl; done.
Qed.

(** The running maximum is 0 or one of the densities, and never NaN. *)
Lemma init_max_density_cases (ps : list particle) :
  F32.is_nan (init_max_density ps) = false
  /\ (init_max_density ps = F32.zero
      \/ exists q, q ∈ ps /\ init_max_density ps = Pt.density q).
Proof.
  unfold init_max_density, for_each.
  assert (forall l acc,
             F32.is_nan acc = false ->
             let r := fold_left (fun a q => glm.max a (Pt.density q)) l acc in
             F32.is_nan r = false
             /\ (r = acc \/ exists q, q ∈ l /\ r = Pt.density q)) as H.
  { induction l as [|q l IH]; intros acc Hacc; cbn [fold_left]; [by split; [|left]|].
    assert (F32.is_nan (glm.max acc (Pt.density q)) = false) as Hn.
    { unfold glm.max. destruct (F32.ltb acc (Pt.density q)) eqn:E; [|done].
      by apply F32_ltb_not_nan in E as [_ ?]. }
    destruct (IH _ Hn) as [H1 [H2 | (q' & Hin & H2)]].
    - split; [done|]. rewrite H2. unfold glm.max.
      destruct (F32.ltb acc (Pt.density q)); [right|by left].
      exists q. split; [left|done].
    - split; [done|]. right. exists q'. split; [by right|done]. }
  destruct (H ps F32.zero eq_refl) as [H1 H2]. done.
Qed.

(** X12. After [init]: the particles are those that the scene generated for
    frame 0 from an empty vector (the particles present before and the
    temporary ones of the calibration are gone), without the ones that are
    not SOLID and sit in a cell that [mgrid.A] holds as SOLID; every SOLID
    particle generated is kept; [max_density] is not NaN; [frame] and the
    extents are unchanged. *)
Theorem init_particles {G : GridOps} {C : Collaborators G}
    (fresh : particle) (s : flipsim) :
  let s' := init fresh s in
  let maxd := maxd_of (Sim.dimensions s) in
  let h := F32.div (Sim.density s) maxd in
  let pg := sort (Sim.pgrid s) (init_temp_particles fresh h (Sim.particles s)) in
  let generated :=
    generateParticles (buildLevelSets (Sim.scene s) (Sim.frame s)) []
      (Sim.dimensions s) (Sim.density s) pg 0 in
  (forall q, q ∈ Sim.particles s' ->
     q ∈ generated
     /\ (Pt.type q = SOLID
         \/ getCell (Mac.A (Sim.mgrid s'))
              (init_cell maxd (vx (Pt.p q))) (init_cell maxd (vy (Pt.p q)))
              (init_cell maxd (vz (Pt.p q))) <> SOLID))
  /\ (forall q, q ∈ generated -> Pt.type q = SOLID -> q ∈ Sim.particles s')
  /\ F32.is_nan (Sim.max_density s') = false
  /\ Sim.frame s' = Sim.frame s
  /\ Sim.dimensions s' = Sim.dimensions s.
Proof.
  intros s' maxd h pg generated.
  assert (Sim.particles s'
          = List.filter (init_keeps (Mac.A (Sim.mgrid s')) maxd) generated) as Hp.
  { subst s' generated pg h maxd. unfold init, computeDensity. cbv zeta.
    cbn [Sim.particles Sim.set_particles Sim.mgrid Sim.set_mgrid Sim.pgrid
         Sim.set_pgrid Sim.scene Sim.set_scene set_max_density Sim.dimensions
         Sim.density Sim.frame Sim.max_density Mac.A Mac.set_A].
    reflexivity. }
  assert (exists ps, Sim.max_density s' = init_max_density ps) as [ps Hmax].
  { subst s'. unfold init. cbv zeta.
    cbn [Sim.max_density Sim.set_particles Sim.set_mgrid Sim.set_pgrid
         Sim.set_scene set_max_density].
    eexists. reflexivity. }
  assert (Sim.frame s' = Sim.frame s /\ Sim.dimensions s' = Sim.dimensions s)
    as [Hf Hd].
  { subst s'. unfold init, computeDensity. cbv zeta.
    cbn [Sim.frame Sim.dimensions Sim.set_particles Sim.set_mgrid Sim.set_pgrid
         Sim.set_scene set_max_density].
    split; reflexivity. }
  clearbody s'.
  split; [|split; [|split; [|exact (conj Hf Hd)]]].
  - intros q Hq. rewrite Hp in Hq.
    apply list_elem_of_In, List.filter_In in Hq as [Hin Hk].
    split; [by apply list_elem_of_In|].
    unfold init_keeps, geom_eqb in Hk.
    case_bool_decide as E1; [by left|]. right.
    case_bool_decide as E2; [done|]. done.
  - intros q Hq Hs. rewrite Hp.
    apply list_elem_of_In, List.filter_In. split; [by apply list_elem_of_In|].
    unfold init_keeps, geom_eqb. by rewrite bool_decide_eq_true_2.
  - rewrite Hmax. apply init_max_density_cases.
Qed.

(** ** The marking, again *)

Lemma mark_invalid_any_flag {G : GridOps} {C : Collaborators G}
    (s : flipsim) (maxd : float) (q : particle) (b : bool) :
  mark_invalid s maxd (Pt.set_invalid q b) = mark_invalid s maxd q.
Proof. reflexivity. Qed.

Lemma mark_invalid_flag_only {G : GridOps} {C : Collaborators G}
    (s : flipsim) (maxd : float) (q : particle) :
  exists b, mark_invalid s maxd q = Pt.set_invalid q b.
Proof.
  unfold mark_invalid. cbv zeta.
  destruct (_ || _ || _), (_ || _ || _), (geom_eqb _ _); eexists; reflexivity.
Qed.

(** X13. The marking loop does not depend on the flag a particle had: running
    it a second time changes nothing. *)
Theorem markInvalidParticles_idempotent {G : GridOps} {C : Collaborators G}
    (s : flipsim) (maxd : float) :
  markInvalidParticles maxd (markInvalidParticles maxd s)
  = markInvalidParticles maxd s.
Proof.
  unfold markInvalidParticles. cbn [Sim.particles Sim.set_particles].
  rewrite !for_particles_map, map_map.
  assert (forall q, mark_invalid (Sim.set_particles s (map (mark_invalid s maxd)
                                                         (Sim.particles s)))
                      maxd (mark_invalid s maxd q)
                    = mark_invalid s maxd q) as H.
  { intros q. destruct (mark_invalid_flag_only s maxd q) as [b Hb].
    rewrite Hb at 1. reflexivity. }
  rewrite (map_ext _ _ H). reflexivity.
Qed.

(** ** Running a task *)

(** X14. A simulator as the constructor builds it, run for a number of
    [execute] calls of a task that the [int] counter can hold: [frame]
    counts the calls, and [picflipratio] is still [.95f], which lies in
    [[0, 1]], [stepsize] still [.005f] and [subcell] still 1. *)
Theorem execute_keeps_constructor_settings {G : GridOps} {C : Collaborators G}
    (maxres : vec3) (sc : scene_t) (density : float) (ty : gridtype)
    (verbose dumpVDB dumpOBJ dumpPARTIO : bool) (calls : nat) :
  Z.of_nat calls <= INT_MAX ->
  let task :=
    Nat.iter calls execute
      (new_fliptask (new_flipsim maxres sc density ty verbose)
         dumpVDB dumpOBJ dumpPARTIO) in
  Sim.frame (m_sim task) = Z.of_nat calls
  /\ Sim.picflipratio (m_sim task) = F32.lit 95 100
  /\ F32.leb F32.zero (Sim.picflipratio (m_sim task)) = true
  /\ F32.leb (Sim.picflipratio (m_sim task)) F32.one = true
  /\ Sim.stepsize (m_sim task) = F32.lit 5 1000
  /\ Sim.subcell (m_sim task) = 1
  /\ Sim.dimensions (m_sim task) = maxres
  /\ (m_dumpVDB task, m_dumpOBJ task, m_dumpPARTIO task)
     = (dumpVDB, dumpOBJ, dumpPARTIO).
Proof.
  cbv zeta.
  assert (forall r, r = F32.lit 95 100 ->
                    F32.leb F32.zero r = true /\ F32.leb r F32.one = true) as Hr.
  { intros r ->. split; vm_compute; reflexivity. }
  induction calls as [|calls IH]; intros Hcalls.
  - cbn [Nat.iter]. repeat split; try reflexivity; apply Hr; reflexivity.
  - rewrite Nat2Z.inj_succ, Nat.iter_succ.
    rewrite Nat2Z.inj_succ in Hcalls.
    set (task := Nat.iter calls execute _) in *.
    destruct (IH ltac:(lia)) as (Hf & Hp & _ & _ & Hs & Hc & Hd & Hflags).
    clearbody task. destruct task as [sim a b c]. cbn [m_sim m_dumpVDB m_dumpOBJ
      m_dumpPARTIO] in *. unfold execute. cbn [m_sim m_dumpVDB m_dumpOBJ m_dumpPARTIO].
    assert (let s' := (step a b c sim).1.2 in
            Sim.frame s' = iadd (Sim.frame sim) 1
            /\ Sim.picflipratio s' = Sim.picflipratio sim
            /\ Sim.stepsize s' = Sim.stepsize sim
            /\ Sim.subcell s' = Sim.subcell sim
            /\ Sim.dimensions s' = Sim.dimensions sim) as Hstep.
    { destruct a, b, c; repeat split; reflexivity. }
    cbv zeta in Hstep. destruct Hstep as (H1 & H2 & H3 & H4 & H5).
    rewrite H1, H2, H3, H4, H5, Hf, Hp, Hs, Hc, Hd.
    assert (iadd (Z.of_nat calls) 1 = Z.succ (Z.of_nat calls)) as ->.
    { unfold iadd, wrap_int, INT_MAX in *. rewrite Z.mod_small by lia. lia. }
    repeat split; try done; apply Hr; reflexivity.
Qed.

Lemma execute_keeps_constructor_settings_witness :
  let task :=
    Nat.iter 3 execute
      (new_fliptask
         (@new_flipsim SparseGrid.ops Demo.collab (Demo.vec 4 4 4 1)
            Demo.still_scene (F32.of_Z 2) tt false)
         false false false) in
  Z.of_nat 3 <= INT_MAX /\ Sim.frame (m_sim task) = Z.of_nat 3.
Proof.
  intros task.
  assert (H : Z.of_nat 3 <= INT_MAX) by (vm_compute; discriminate).
  split; [exact H|].
  exact (proj1 (@execute_keeps_constructor_settings SparseGrid.ops Demo.collab
                  (Demo.vec 4 4 4 1) Demo.still_scene (F32.of_Z 2) tt
                  false false false false 3%nat H)).
Defined.

(** ** The wall response at distance zero *)

Lemma F32_eqb_refl (a : float) : is_finite a = true -> F32.eqb a a = true.
Proof.
  unfold F32.eqb, SFeqb, SFcompare.
  destruct a as [[]|[]| |[] m e]; try done; intros _;
    by rewrite Z.compare_refl, Pos.compare_cont_refl.
Qed.

(** Adding or subtracting a zero gives the same number (the sign of a zero
    may change). *)
Lemma F32_add_signed_zero (x : float) (sg : bool) :
  is_finite x = true ->
  F32.eqb (F32.add x (S754_zero sg)) x = true
  /\ is_finite (F32.add x (S754_zero sg)) = true.
Proof.
  intros H. destruct x as [[]| | |s m e], sg; try done;
    (split; [|done]); change (F32.add (S754_finite s m e) (S754_zero ?b))
                        with (S754_finite s m e); by apply F32_eqb_refl.
Qed.

Lemma F32_sub_signed_zero (x : float) (sg : bool) :
  is_finite x = true ->
  F32.eqb (F32.sub x (S754_zero sg)) x = true
  /\ is_finite (F32.sub x (S754_zero sg)) = true.
Proof.
  intros H. destruct x as [[]| | |s m e], sg; try done;
    (split; [|done]); change (F32.sub (S754_finite s m e) (S754_zero ?b))
                        with (S754_finite s m e); by apply F32_eqb_refl.
Qed.

(** A finite number times a zero is a zero. *)
Lemma F32_mul_zero (x : float) (sg : bool) :
  is_finite x = true ->
  exists sg', F32.mul x (S754_zero sg) = S754_zero sg'.
Proof. intros H. destruct x as [sx| | |sx m e]; try done; by eexists. Qed.

Lemma F32_zero_mul (x : float) (sg : bool) :
  is_finite x = true ->
  exists sg', F32.mul (S754_zero sg) x = S754_zero sg'.
Proof. intros H. destruct x as [sx| | |sx m e]; try done; by eexists. Qed.

Lemma F32_add_zeros (a b : bool) :
  exists sg, F32.add (S754_zero a) (S754_zero b) = S754_zero sg.
Proof. destruct a, b; by eexists. Qed.

(** X15. A FLUID particle that lies exactly on a SOLID marker whose normal is
    zero: the distance is 0, so the separation direction is not
    normalised (no division by zero), and the response leaves position and
    velocity numerically as they are, finite and never NaN. *)
Theorem wall_response_at_distance_zero (re : float) (np q : particle) :
  Pt.type np = SOLID ->
  Pt.p np = Pt.p q ->
  Pt.n np = mk_vec3 F32.zero F32.zero F32.zero ->
  F32.ltb F32.zero re = true -> is_finite re = true ->
  vec_is_finite (Pt.p q) = true -> vec_is_finite (Pt.u q) = true ->
  let q' := wall_response re np q in
  vec_eqb (Pt.p q') (Pt.p q) = true /\ vec_is_finite (Pt.p q') = true
  /\ vec_eqb (Pt.u q') (Pt.u q) = true /\ vec_is_finite (Pt.u q') = true
  /\ Pt.type q' = Pt.type q.
Proof.
  intros Hs Hp Hn Hre Hfr Hfp Hfu q'.
  split; [|split; [|split; [|split; [|apply wall_response_type]]]];
    subst q'; unfold wall_response, geom_eqb;
    rewrite bool_decide_eq_true_2 by done; rewrite Hp, Hn;
    unfold vec_is_finite in Hfp, Hfu;
    apply andb_true_iff in Hfp as [Hfp Hpz]; apply andb_true_iff in Hfp as [Hpx Hpy];
    apply andb_true_iff in Hfu as [Hfu Huz]; apply andb_true_iff in Hfu as [Hux Huy];
    (assert (vsub (Pt.p q) (Pt.p q) = mk_vec3 F32.zero F32.zero F32.zero) as ->
        by (unfold vsub; by rewrite !F32_sub_self));
    (assert (glm.length (mk_vec3 F32.zero F32.zero F32.zero) = F32.zero) as ->
        by (vm_compute; reflexivity));
    rewrite Hre;
    (assert (F32.truthy F32.zero = false) as -> by (vm_compute; reflexivity));
    rewrite andb_false_r, F32_sub_zero;
    cbn [Pt.p Pt.u Pt.set_p Pt.set_u];
    unfold vec_eqb, vec_is_finite, vadd, vsub, scalev, dot; cbn [vx vy vz];
    change F32.zero with (S754_zero false);
    destruct (F32_mul_zero re false Hfr) as [s0 E0];
    destruct (F32_mul_zero (vx (Pt.u q)) false Hux) as [s1 E1];
    destruct (F32_mul_zero (vy (Pt.u q)) false Huy) as [s2 E2];
    destruct (F32_mul_zero (vz (Pt.u q)) false Huz) as [s3 E3];
    destruct (F32_add_zeros s1 s2) as [s4 E4];
    destruct (F32_add_zeros s4 s3) as [s5 E5];
    (assert (exists s6, F32.mul (S754_zero s5) (S754_zero false) = S754_zero s6)
        as [s6 E6] by (by eexists));
    rewrite ?E0, ?E1, ?E2, ?E3, ?E4, ?E5, ?E6;
    pose proof (F32_add_signed_zero (vx (Pt.p q)) s0 Hpx) as [? ?];
    pose proof (F32_add_signed_zero (vy (Pt.p q)) s0 Hpy) as [? ?];
    pose proof (F32_add_signed_zero (vz (Pt.p q)) s0 Hpz) as [? ?];
    pose proof (F32_sub_signed_zero (vx (Pt.u q)) s6 Hux) as [? ?];
    pose proof (F32_sub_signed_zero (vy (Pt.u q)) s6 Huy) as [? ?];
    pose proof (F32_sub_signed_zero (vz (Pt.u q)) s6 Huz) as [? ?];
    repeat (apply andb_true_iff; split); assumption.
Qed.

Lemma wall_response_at_distance_zero_witness :
  let q := Demo.a_particle FLUID (Demo.vec 1 2 2 4) (Demo.vec 1 0 0 1) in
  let np := Demo.a_particle SOLID (Demo.vec 1 2 2 4) (Demo.vec 0 0 0 1) in
  let re := F32.lit 3 8 in
  Pt.n np = mk_vec3 F32.zero F32.zero F32.zero
  /\ F32.ltb F32.zero re = true
  /\ vec_eqb (Pt.p (wall_response re np q)) (Pt.p q) = true
  /\ vec_eqb (Pt.u (wall_response re np q)) (Pt.u q) = true.
Proof.
  intros q np re.
  assert (H1 : Pt.n np = mk_vec3 F32.zero F32.zero F32.zero)
    by (vm_compute; reflexivity).
  assert (H2 : F32.ltb F32.zero re = true) by (vm_compute; reflexivity).
  assert (H3 : is_finite re = true) by (vm_compute; reflexivity).
  assert (H4 : vec_is_finite (Pt.p q) = true) by (vm_compute; reflexivity).
  assert (H5 : vec_is_finite (Pt.u q) = true) by (vm_compute; reflexivity).
  split; [exact H1|]. split; [exact H2|].
  destruct (wall_response_at_distance_zero re np q eq_refl eq_refl H1 H2 H3 H4 H5)
    as (Ha & _ & Hb & _).
  split; [exact Ha|exact Hb].
Defined.
